(** * Streaming function-call renderer: parameter extraction, execution
    ledger, auto-execution scheduler and block rendering.

    Shallow embedding of
    [src/pages/content/src/render_prescript/src/renderer/functionBlock.ts].

    JavaScript strings are sequences of UTF-16 code units; they are modelled
    as [list N].  The process-wide [Set]s and [Map]s of the execution
    tracker are stdpp [gset]s and [gmap]s.  Timer callbacks are data
    ([Callback]) interpreted by [fire]; what a callback observes of the
    outside world (persistent storage, the state of the action control) is
    an explicit observation argument, so that every statement quantifies
    over all behaviours of the collaborators. *)

From Stdlib Require Import NArith ZArith QArith Qpower Qminmax Lqa String Ascii List Sorted Lia.
From stdpp Require Import gmap list.

Local Open Scope N_scope.
Local Open Scope nat_scope.

(** ** JavaScript strings *)

Abbreviation jsstring := (list N).

Fixpoint js (s : string) : jsstring :=
  match s with
  | EmptyString => []
  | String c s' => N_of_ascii c :: js s'
  end.

Definition dquote : N := 34%N.
Definition gt_sign : N := 62%N.
Definition colon : N := 58%N.

(** [\s] of a JavaScript regular expression, which is also the set that
    [String.prototype.trim] strips: WhiteSpace and LineTerminator. *)
Definition is_ws (c : N) : bool :=
  ((9 <=? c) && (c <=? 13) || (c =? 32) || (c =? 160) || (c =? 5760)
   || (8192 <=? c) && (c <=? 8202) || (c =? 8232) || (c =? 8233)
   || (c =? 8239) || (c =? 8287) || (c =? 12288) || (c =? 65279))%N.

Fixpoint trimStart (s : jsstring) : jsstring :=
  match s with
  | c :: s' => if is_ws c then trimStart s' else s
  | [] => []
  end.

Definition trimEnd (s : jsstring) : jsstring := rev (trimStart (rev s)).

Definition trim (s : jsstring) : jsstring := trimEnd (trimStart s).

Fixpoint starts_with (p s : jsstring) : bool :=
  match p, s with
  | [], _ => true
  | a :: p', b :: s' => (a =? b)%N && starts_with p' s'
  | _ :: _, [] => false
  end.

Fixpoint str_eqb (a b : jsstring) : bool :=
  match a, b with
  | [], [] => true
  | x :: a', y :: b' => (x =? y)%N && str_eqb a' b'
  | _, _ => false
  end.

(** [index_from pat s i]: [s] is the suffix that starts at absolute index
    [i]; the index of the first occurrence of [pat] in it. *)
Fixpoint index_from (pat s : jsstring) (i : nat) : option nat :=
  if starts_with pat s then Some i
  else match s with
       | [] => None
       | _ :: s' => index_from pat s' (S i)
       end.

(** [rawContent.indexOf(pat, from)]; [None] is [-1]. *)
Definition indexOf (pat s : jsstring) (from : nat) : option nat :=
  index_from pat (drop from s) (Nat.min from (length s)).

(** [s.substring(a, b)]: the arguments are swapped when [a > b]. *)
Definition substring (s : jsstring) (a b : nat) : jsstring :=
  take (Nat.max a b - Nat.min a b) (drop (Nat.min a b) s).

(** Longest prefix of characters satisfying [f], and the rest. *)
Fixpoint span (f : N -> bool) (s : jsstring) : jsstring * jsstring :=
  match s with
  | c :: s' =>
      if f c then let '(a, b) := span f s' in (c :: a, b) else ([], s)
  | [] => ([], [])
  end.

Definition strip_prefix (p s : jsstring) : option jsstring :=
  if starts_with p s then Some (drop (length p) s) else None.

(** ** Parameter extraction (renderFunctionCall, lines 559-595) *)

Module Params.

Definition paramOpen : jsstring := Eval cbv in js "<parameter".
Definition nameEq : jsstring := Eval cbv in js "name=" ++ [dquote].
Definition endTag : jsstring := Eval cbv in js "</parameter>".
Definition cdataOpen : jsstring := Eval cbv in js "<![CDATA[".
Definition cdataClose : jsstring := Eval cbv in js "]]>".

(** One anchored match of the regular expression [paramStartRegex] at the
    head of [s]: the literal [<parameter], one or more [\s], the literal
    [name=] and a double quote, one or more characters other than a double
    quote (the captured name), a double quote, any characters other than
    [>], and [>].  Returns the captured name and the length of the whole
    match.  Every quantifier is followed by a character outside its class,
    so the greedy choice is the only one that can succeed. *)
Definition paramStartRegex (s : jsstring) : option (jsstring * nat) :=
  match strip_prefix paramOpen s with
  | None => None
  | Some s1 =>
      let '(ws, s2) := span is_ws s1 in
      match ws, strip_prefix nameEq s2 with
      | _ :: _, Some s3 =>
          let '(nm, s4) := span (fun c => negb (c =? dquote)%N) s3 in
          match nm, s4 with
          | _ :: _, _ :: s5 =>
              let '(attrs, s6) := span (fun c => negb (c =? gt_sign)%N) s5 in
              match s6 with
              | _ :: _ =>
                  Some (nm, length paramOpen + length ws + length nameEq
                            + length nm + 1 + length attrs + 1)
              | [] => None
              end
          | _, _ => None
          end
      | _, _ => None
      end
  end.

(** Group 1 of the CDATA expression, whose tail is a lazy [(.*?)], an
    optional terminator and [$] (flag [s]): the lazy group grows one code
    unit at a time until what is left is exactly the terminator, or
    nothing. *)
Fixpoint cdataGroup (s : jsstring) : jsstring :=
  if str_eqb s cdataClose then []
  else match s with
       | [] => []
       | c :: s' => c :: cdataGroup s'
       end.

(** [extractedValue.match] with the CDATA expression: the leftmost position
    where the opener occurs; group 1 of the match. *)
Fixpoint cdataMatch (v : jsstring) : option jsstring :=
  if starts_with cdataOpen v then Some (cdataGroup (drop (length cdataOpen) v))
  else match v with
       | [] => None
       | _ :: v' => cdataMatch v'
       end.

(** Lines 580-588. *)
Definition cleanValue (extractedValue : jsstring) : jsstring :=
  match cdataMatch extractedValue with
  | Some inner => inner
  | None => trim extractedValue
  end.

Record ParamEntry := mkParam {
  matchIndex : nat;          (* match.index *)
  paramName : jsstring;      (* match[1] *)
  startIndex : nat;          (* match.index + match[0].length *)
  extractedValue : jsstring;
  isParamStreaming : bool
}.

(** Body of the [while] loop for one match (lines 564-590). *)
Definition paramOfMatch (rawContent : jsstring) (index : nat)
    (name : jsstring) (len : nat) : ParamEntry :=
  let start := index + len in
  match indexOf endTag rawContent start with
  | Some endTagIndex =>
      mkParam index name start
        (cleanValue (substring rawContent start endTagIndex)) false
  | None =>
      mkParam index name start (cleanValue (drop start rawContent)) true
  end.

(** The [while ((match = paramStartRegex.exec(rawContent)) !== null)] loop.
    [s] is the suffix of [rawContent] at index [i]; [skip] counts the code
    units still covered by the previous match, i.e. [lastIndex - i]. *)
Fixpoint scanParams (rawContent s : jsstring) (i skip : nat) : list ParamEntry :=
  match s with
  | [] => []
  | _ :: s' =>
      match skip with
      | S k => scanParams rawContent s' (S i) k
      | O =>
          match paramStartRegex s with
          | Some (name, len) =>
              paramOfMatch rawContent i name len
              :: scanParams rawContent s' (S i) (len - 1)
          | None => scanParams rawContent s' (S i) 0
          end
      end
  end.

Definition extractParams (rawContent : jsstring) : list ParamEntry :=
  scanParams rawContent rawContent 0 0.

(** [pat] occurs in [s] at index [j]. *)
Definition occursAt (pat s : jsstring) (j : nat) : Prop :=
  exists pre post, s = pre ++ pat ++ post /\ length pre = j.

(** What the loop reports for one open tag of [rawContent]: the tag matches
    at [matchIndex], the value starts right after it, and
    - when a closing tag occurs at or after the start of the value, the
      entry is not streaming and its value is the cleaned text up to the
      first such closing tag;
    - otherwise the entry is streaming and its value is the cleaned rest of
      the text. *)
Definition entrySpec (rawContent : jsstring) (e : ParamEntry) : Prop :=
  paramStartRegex (drop (matchIndex e) rawContent)
    = Some (paramName e, startIndex e - matchIndex e)
  /\ matchIndex e < startIndex e <= length rawContent
  /\ (isParamStreaming e = false ->
      exists j, startIndex e <= j /\ occursAt endTag rawContent j
                /\ (forall k, startIndex e <= k < j -> ~ occursAt endTag rawContent k)
                /\ extractedValue e
                   = cleanValue (take (j - startIndex e)
                                   (drop (startIndex e) rawContent)))
  /\ (isParamStreaming e = true ->
      (forall k, startIndex e <= k -> ~ occursAt endTag rawContent k)
      /\ extractedValue e = cleanValue (drop (startIndex e) rawContent)).

(** The text [t] is an open tag of a parameter named [nm], as the
    expression of line 561 matches it: the literal [<parameter], white
    space, the literal [name=] and a double quote, the name, which is not
    empty and holds no double quote, a double quote, any characters other
    than [>], and [>]. *)
Definition isOpenTag (t nm : jsstring) : Prop :=
  exists ws attrs,
    t = paramOpen ++ ws ++ nameEq ++ nm ++ dquote :: attrs ++ [gt_sign]
    /\ ws <> [] /\ Forall (fun c => is_ws c = true) ws
    /\ nm <> [] /\ Forall (fun c => c <> dquote) nm
    /\ Forall (fun c => c <> gt_sign) attrs.

Definition endsWith (suffix s : jsstring) : Prop := exists p, s = p ++ suffix.

(** [r] is what lines 580-588 make of the raw value [v].  When [v] holds
    the CDATA opener: the text after its first occurrence, without the
    terminator if that text ends with the complete terminator.  Otherwise:
    [v] without the white space at its two ends. *)
Definition cleaned (v r : jsstring) : Prop :=
  (exists u y,
      v = u ++ cdataOpen ++ y
      /\ (forall k, k < length u -> ~ occursAt cdataOpen v k)
      /\ (y = r ++ cdataClose \/ (r = y /\ ~ endsWith cdataClose y)))
  \/ ((forall k, ~ occursAt cdataOpen v k)
      /\ exists a b,
           v = a ++ r ++ b
           /\ Forall (fun c => is_ws c = true) a
           /\ Forall (fun c => is_ws c = true) b
           /\ (forall c r', r = c :: r' -> is_ws c = false)
           /\ (forall c r', r = r' ++ [c] -> is_ws c = false)).

(** What the loop reports for one open tag, in terms of the text alone: an
    open tag of the parameter occurs at [matchIndex], the value starts
    right after it, and
    - the entry is not streaming when a closing tag occurs at or after the
      start of the value; its value is then made of the text up to the
      first such closing tag;
    - the entry is streaming when no closing tag occurs there; its value is
      then made of the rest of the text. *)
Definition entryOf (rawContent : jsstring) (e : ParamEntry) : Prop :=
  (exists t, isOpenTag t (paramName e) /\ occursAt t rawContent (matchIndex e)
             /\ startIndex e = matchIndex e + length t)
  /\ (isParamStreaming e = false ->
      exists j, startIndex e <= j /\ occursAt endTag rawContent j
                /\ (forall k, startIndex e <= k < j -> ~ occursAt endTag rawContent k)
                /\ cleaned (take (j - startIndex e) (drop (startIndex e) rawContent))
                           (extractedValue e))
  /\ (isParamStreaming e = true ->
      (forall k, startIndex e <= k -> ~ occursAt endTag rawContent k)
      /\ cleaned (drop (startIndex e) rawContent) (extractedValue e)).

(** The entry of the same open tag, read in the text [rawContent]. *)
Definition entryIn (rawContent : jsstring) (e : ParamEntry) : ParamEntry :=
  paramOfMatch rawContent (matchIndex e) (paramName e)
               (startIndex e - matchIndex e).

End Params.

(** ** Execution ledger (executionTracker, lines 248-378) *)

Module Ledger.

(** Modelled from the spec: the persistent lookups of [../mcpexecute/storage]
    are not part of this file.  Section 6 gives them as
    [getPreviousExecution(functionName, callId, signature)] and the legacy
    two-key [getPreviousExecutionLegacy(callId, signature)], each returning a
    record or null; the boolean is [true] when a record is returned. *)
Record Storage := mkStorage {
  getPreviousExecution : jsstring -> jsstring -> jsstring -> bool;
  getPreviousExecutionLegacy : jsstring -> jsstring -> bool
}.

Record ExecutionTracker := mkTracker {
  attempts : gmap jsstring nat;
  executed : gset jsstring;
  executedFunctions : gset jsstring
}.

Definition emptyTracker : ExecutionTracker := mkTracker ∅ ∅ ∅.

(** The template [functionName:callId:contentSignature]. *)
Definition key3 (functionName callId contentSignature : jsstring) : jsstring :=
  functionName ++ colon :: callId ++ colon :: contentSignature.

(** [callId:contentSignature] and [:callId:contentSignature]. *)
Definition legacyKey (callId contentSignature : jsstring) : jsstring :=
  callId ++ colon :: contentSignature.

Definition legacyKey2 (callId contentSignature : jsstring) : jsstring :=
  colon :: callId ++ colon :: contentSignature.

(** [key.split(sep)] for a one-character separator. *)
Fixpoint split (sep : N) (s : jsstring) : list jsstring :=
  match s with
  | [] => [[]]
  | c :: s' =>
      if (c =? sep)%N then [] :: split sep s'
      else match split sep s' with
           | [] => [[c]]
           | p :: ps => (c :: p) :: ps
           end
  end.

(** The test of the second check on one key of the set. *)
Definition keyMatches (callId contentSignature key : jsstring) : bool :=
  match split colon key with
  | [_; p1; p2] => str_eqb p1 callId && str_eqb p2 contentSignature
  | _ => false
  end.

(** [functionName] is [None] when the optional argument is not a string. *)
Definition isFunctionExecuted (t : ExecutionTracker) (st : Storage)
    (callId contentSignature : jsstring) (functionName : option jsstring) : bool :=
  let standard :=
    match functionName with
    | Some f =>
        bool_decide (key3 f callId contentSignature ∈ executedFunctions t)
        || getPreviousExecution st f callId contentSignature
    | None => false
    end in
  if standard then true
  else
    let fromMemory :=
      match functionName with
      | Some _ => false
      | None =>
          existsb (keyMatches callId contentSignature)
                  (elements (executedFunctions t))
      end in
    if fromMemory then true
    else
      bool_decide (legacyKey callId contentSignature ∈ executedFunctions t)
      || bool_decide (legacyKey2 callId contentSignature ∈ executedFunctions t)
      || getPreviousExecutionLegacy st callId contentSignature.

(** The key [markFunctionExecuted] inserts. *)
Definition markKey (callId contentSignature : jsstring)
    (functionName : option jsstring) : jsstring :=
  match functionName with
  | Some f =>
      match trim f with
      | _ :: _ => key3 f callId contentSignature
      | [] => legacyKey callId contentSignature
      end
  | None => legacyKey callId contentSignature
  end.

Definition markFunctionExecuted (t : ExecutionTracker)
    (callId contentSignature : jsstring) (functionName : option jsstring)
    : ExecutionTracker :=
  mkTracker (attempts t) (executed t)
            ({[ markKey callId contentSignature functionName ]}
             ∪ executedFunctions t).

Definition isBlockExecuted (t : ExecutionTracker) (blockId : jsstring) : bool :=
  bool_decide (blockId ∈ executed t).

Definition markBlockExecuted (t : ExecutionTracker) (blockId : jsstring)
    : ExecutionTracker :=
  mkTracker (attempts t) ({[ blockId ]} ∪ executed t) (executedFunctions t).

Definition getAttempts (t : ExecutionTracker) (blockId : jsstring) : nat :=
  default 0 (attempts t !! blockId).

Definition incrementAttempts (t : ExecutionTracker) (blockId : jsstring)
    : ExecutionTracker * nat :=
  let newValue := getAttempts t blockId + 1 in
  (mkTracker (<[blockId := newValue]> (attempts t)) (executed t)
             (executedFunctions t), newValue).

Definition cleanupBlock (t : ExecutionTracker) (blockId : jsstring)
    : ExecutionTracker :=
  mkTracker (delete blockId (attempts t)) (executed t) (executedFunctions t).

End Ledger.

(** ** Auto-execution scheduler (lines 60-70, 179-232, 658-858) *)

Module Sched.
Import Ledger.

Definition DEFAULT_AUTO_EXECUTE : bool := true.
Definition MAX_AUTO_EXECUTE_ATTEMPTS : nat := 8.

(** The [autoExecute] property of [window.toggleState]. *)
Inductive Pref :=
| PrefUndefined
| PrefBool (b : bool)
| PrefOther.   (* any other value: neither undefined nor a boolean *)

(** What the code reads of an execute button. *)
Record Button := mkButton {
  disabled : bool;
  autoExecReadyFalse : bool   (* getAttribute('data-auto-exec-ready') === 'false' *)
}.

(** The enclosing [.function-block] of a button found through the document:
    the text of its [.function-name-text], if it has one, and its
    [data-block-id] attribute. *)
Record ParentBlock := mkParent {
  parentNameText : option jsstring;
  parentBlockId : option jsstring
}.

(** What one callback observes of its collaborators.  Buttons are objects
    with identity: a closure that captured a button reads its state at the
    time it runs. *)
Record Obs := mkObs {
  storage : Storage;
  buttonState : nat -> Button;
  containerButton : option nat;
      (* buttonContainer.querySelector('.execute-button') *)
  allButtons : list (nat * option ParentBlock);
      (* document.querySelectorAll('.execute-button'), with closest('.function-block') *)
  clickThrows : bool
}.

(** Values captured by the closures of one scheduling (functionDetails). *)
Record Ctx := mkCtx {
  functionName : jsstring;
  blockId : jsstring;
  extractedCallId : jsstring;
  contentSignature : option jsstring   (* null until the call is complete *)
}.

Inductive Callback :=
| CbSetupAutoExecution (c : Ctx)
| CbRetry (c : Ctx) (retryCount : nat)   (* [retry] with its captured counter *)
| CbScanner
| CbScannerClick (button : nat)
| CbSetupDOMObserver.

(** The log of the scheduler: the marks of the ledger, the passes and the
    clicks of the auto-execution and of the scanner, and the timeouts set
    for the callbacks above. *)
Inductive Event :=
| EvMarkFunction (key : jsstring)
| EvMarkBlock (blockId : jsstring)
| EvAttempt (retryCount : nat)     (* a retry pass reached the button lookup *)
| EvClick (button : nat)           (* the activation was dispatched *)
| EvClickThrew (button : nat)      (* the activation raised *)
| EvSetTimeout (cb : Callback) (delay : Q).

Record State := mkState {
  toggleState : option Pref;       (* window.toggleState; None when falsy *)
  tracker : ExecutionTracker;
  timers : list (Q * Callback);    (* pending timeouts, oldest first *)
  log : list Event                 (* chronological *)
}.

Definition emit (e : Event) (st : State) : State :=
  mkState (toggleState st) (tracker st) (timers st) (log st ++ [e]).

Definition setTimeout (cb : Callback) (delay : Q) (st : State) : State :=
  mkState (toggleState st) (tracker st) (timers st ++ [(delay, cb)])
          (log st ++ [EvSetTimeout cb delay]).

Definition setToggle (p : option Pref) (st : State) : State :=
  mkState p (tracker st) (timers st) (log st).

Definition setTimers (ts : list (Q * Callback)) (st : State) : State :=
  mkState (toggleState st) (tracker st) ts (log st).

Definition markFunction (callId sig : jsstring) (name : option jsstring)
    (st : State) : State :=
  mkState (toggleState st)
          (markFunctionExecuted (tracker st) callId sig name)
          (timers st)
          (log st ++ [EvMarkFunction (markKey callId sig name)]).

Definition markBlock (blockId : jsstring) (st : State) : State :=
  mkState (toggleState st) (markBlockExecuted (tracker st) blockId)
          (timers st) (log st ++ [EvMarkBlock blockId]).

(** A template literal prints a null signature as the text null. *)
Definition sigText (contentSignature : option jsstring) : jsstring :=
  match contentSignature with
  | Some s => s
  | None => js "null"
  end.

(** [contentSignature || ''] *)
Definition sigOrEmpty (contentSignature : option jsstring) : jsstring :=
  default [] contentSignature.

(** [toggleState?.autoExecute === true] *)
Definition autoExecuteIsTrue (t : option Pref) : bool :=
  match t with
  | Some (PrefBool true) => true
  | _ => false
  end.

(** [Math.min(baseDelay * Math.pow(1.5, retryCount - 1), maxDelay)].  The
    values reached (retryCount from 1 to 8) are dyadic rationals that
    double-precision numbers hold exactly. *)
Definition retryDelay (retryCount : nat) : Q :=
  Qmin (150 * Qpower (3 # 2) (Z.of_nat retryCount - 1)) 1000.

(** The fallback search of [retry] (lines 793-812). *)
Fixpoint fallbackSearch (c : Ctx) (bs : list (nat * option ParentBlock))
    : option nat :=
  match bs with
  | [] => None
  | (b, None) :: bs' => fallbackSearch c bs'
  | (b, Some p) :: bs' =>
      if match parentNameText p with
         | Some t => str_eqb t (functionName c)
         | None => false
         end
      then Some b
      else if match parentBlockId p with
              | Some i => str_eqb i (blockId c)
              | None => false
              end
      then Some b
      else fallbackSearch c bs'
  end.

(** [executeDirectly] (lines 740-758). *)
Definition executeDirectly (o : Obs) (st : State) : bool * State :=
  match containerButton o with
  | Some b =>
      if disabled (buttonState o b) then (false, st)
      else if clickThrows o then (false, emit (EvClickThrew b) st)
      else (true, emit (EvClick b) st)
  | None => (false, st)
  end.

(** The button a retry pass acts on: the one in the block's own container,
    else the fallback search through the document (lines 789-813). *)
Definition buttonFor (c : Ctx) (o : Obs) : option nat :=
  match containerButton o with
  | Some b => Some b
  | None => fallbackSearch c (allButtons o)
  end.

(** One invocation of the closure [retry] (lines 770-848); [retryCount] is
    the captured counter before the increment. *)
Definition retry (c : Ctx) (retryCount : nat) (o : Obs) (st : State) : State :=
  let retryCount := S retryCount in
  if MAX_AUTO_EXECUTE_ATTEMPTS <? retryCount then st
  else if getPreviousExecution (storage o) (functionName c)
            (extractedCallId c) (sigOrEmpty (contentSignature c))
  then st
  else
    let st := emit (EvAttempt retryCount) st in
    let again st := setTimeout (CbRetry c retryCount) (retryDelay retryCount) st in
    match buttonFor c o with
    | Some b =>
        if disabled (buttonState o b) then again st
        else if clickThrows o then again (emit (EvClickThrew b) st)
        else emit (EvClick b) st
    | None => again st
    end.

(** [setupAutoExecution] (lines 761-852): a fresh counter, and the first
    pass at once. *)
Definition setupAutoExecution (c : Ctx) (o : Obs) (st : State) : State :=
  retry c 0 o st.

(** [setTimeout(setupAutoExecution, 50)] (line 857). *)
Definition startRetries (c : Ctx) (st : State) : State :=
  setTimeout (CbSetupAutoExecution c) 50 st.

(** The body run when the execute button is first added (lines 658-858);
    the boolean is [true] when the function returns early (lines 689, 695,
    702). *)
Definition autoExecuteSection (c : Ctx) (o : Obs) (st : State) : bool * State :=
  let pref :=
    match toggleState st with
    | Some PrefUndefined | None => PrefBool DEFAULT_AUTO_EXECUTE
    | Some p => p
    end in
  let st := setToggle (Some pref) st in
  let autoExecuteEnabled := autoExecuteIsTrue (Some pref) in
  let alreadyExecuted :=
    match contentSignature c with
    | Some ((_ :: _) as s) =>
        getPreviousExecution (storage o) (functionName c) (extractedCallId c) s
    | _ => false
    end in
  if alreadyExecuted then (true, st)
  else if negb autoExecuteEnabled then (true, st)
  else if isBlockExecuted (tracker st) (blockId c)
          && (0 <? getAttempts (tracker st) (blockId c))
  then (true, st)
  else
    let st := markFunction (extractedCallId c) (sigText (contentSignature c))
                (Some (functionName c)) st in
    let st := markBlock (blockId c) st in
    let st := markBlock (blockId c) st in
    let st :=
      match contentSignature c with
      | Some ((_ :: _) as s) =>
          markFunction (extractedCallId c) s (Some (functionName c)) st
      | _ => st
      end in
    let '(ok, st) := executeDirectly o st in
    (false, if ok then st else startRetries c st).

(** [autoExecuteButtonScanner] (lines 179-232). *)
Fixpoint scanButtons (o : Obs) (bs : list (nat * option ParentBlock))
    (index : nat) (st : State) : State :=
  match bs with
  | [] => st
  | (b, _) :: bs' =>
      let st :=
        if disabled (buttonState o b) || autoExecReadyFalse (buttonState o b)
        then st
        else setTimeout (CbScannerClick b)
               (300 * inject_Z (Z.of_nat (index + 1))) st in
      scanButtons o bs' (S index) st
  end.

Definition autoExecuteButtonScanner (o : Obs) (st : State) : State :=
  let autoExecuteEnabled := autoExecuteIsTrue (toggleState st) in
  match allButtons o with
  | [] => setTimeout CbScanner 1000 st
  | bs =>
      let st := if autoExecuteEnabled then scanButtons o bs 0 st else st in
      setTimeout CbScanner 3000 st
  end.

(** The timeout set by the scanner for one button (lines 213-226). *)
Definition scannerClick (b : nat) (o : Obs) (st : State) : State :=
  let stillEnabled := autoExecuteIsTrue (toggleState st) in
  if stillEnabled && negb (disabled (buttonState o b))
     && negb (autoExecReadyFalse (buttonState o b))
  then if clickThrows o then emit (EvClickThrew b) st else emit (EvClick b) st
  else st.

Definition fire (cb : Callback) (o : Obs) (st : State) : State :=
  match cb with
  | CbSetupAutoExecution c => setupAutoExecution c o st
  | CbRetry c n => retry c n o st
  | CbScanner => autoExecuteButtonScanner o st
  | CbScannerClick b => scannerClick b o st
  | CbSetupDOMObserver => st
  end.

(** The oldest pending timeout fires, observing [o]. *)
Definition fireNext (o : Obs) (st : State) : State :=
  match timers st with
  | [] => st
  | (_, cb) :: rest => fire cb o (setTimers rest st)
  end.

(** A run of the event loop: one observation per callback that fires. *)
Fixpoint drive (env : list Obs) (st : State) : State :=
  match env with
  | [] => st
  | o :: env' => drive env' (fireNext o st)
  end.

Definition isClick (e : Event) : bool :=
  match e with EvClick _ => true | _ => false end.

Definition isAttempt (e : Event) : bool :=
  match e with EvAttempt _ => true | _ => false end.

Definition countClicks (l : list Event) : nat := length (List.filter isClick l).

Definition countAttempts (l : list Event) : nat := length (List.filter isAttempt l).

(** The events logged after [st0]. *)
Definition since (st0 st : State) : list Event :=
  drop (length (log st0)) (log st).

(** Storage reports the call executed, as the retry pass asks it. *)
Definition storedNow (c : Ctx) (o : Obs) : bool :=
  getPreviousExecution (storage o) (functionName c) (extractedCallId c)
    (sigOrEmpty (contentSignature c)).

(** The button of a retry pass is found, enabled, and its activation does
    not raise. *)
Definition actionable (c : Ctx) (o : Obs) : bool :=
  match buttonFor c o with
  | Some b => negb (disabled (buttonState o b)) && negb (clickThrows o)
  | None => false
  end.

(** A retry pass that observes [o] fails: no ledger hit in storage and no
    successful activation. *)
Definition attemptFails (c : Ctx) (o : Obs) : bool :=
  negb (storedNow c o) && negb (actionable c o).

(** The pre-checks of lines 682-703 all pass in [st], observing [o]. *)
Definition preChecksPass (c : Ctx) (o : Obs) (st : State) : bool :=
  negb match contentSignature c with
       | Some ((_ :: _) as s) =>
           getPreviousExecution (storage o) (functionName c)
             (extractedCallId c) s
       | _ => false
       end
  && match toggleState st with
     | None | Some PrefUndefined | Some (PrefBool true) => true
     | _ => false
     end
  && negb (isBlockExecuted (tracker st) (blockId c)
           && (0 <? getAttempts (tracker st) (blockId c))).

(** Events that act on the action control or suspend on a timer. *)
Definition isAttemptOrTimer (e : Event) : bool :=
  match e with
  | EvAttempt _ | EvClick _ | EvClickThrew _ | EvSetTimeout _ _ => true
  | EvMarkFunction _ | EvMarkBlock _ => false
  end.

(** The key under which the scheduling of [c] marks the ledger (line 710). *)
Definition scheduledKey (c : Ctx) : jsstring :=
  markKey (extractedCallId c) (sigText (contentSignature c))
          (Some (functionName c)).

End Sched.

(** ** The callbacks of one scheduling, and the scheduler on a live page *)

Module Chain.
Import Ledger Sched.

(** The scheduling a callback belongs to: the closures [setupAutoExecution]
    and [retry] are created by one run of lines 658-858 and hold its
    values. *)
Definition chainOf (cb : Callback) : option Ctx :=
  match cb with
  | CbSetupAutoExecution c | CbRetry c _ => Some c
  | _ => None
  end.

(** The timeouts set between [st] and [st']: while a callback or the
    scheduling body runs, the pending list only grows, at its end. *)
Definition newTimers (st st' : State) : list (Q * Callback) :=
  drop (length (timers st)) (timers st').

(** One firing of a callback of the scheduling: which of its pending
    callbacks fires, what the callback observes, and the state the page is
    in at that moment, whatever happened on it in between. *)
Record Firing := mkFiring {
  which : nat;
  sees : Obs;
  pageState : State
}.

(** The callbacks that descend from one scheduling.  [pending] holds those
    set and not yet fired; a firing that names none of them is skipped.
    The result: the events the callbacks logged, in order, and the
    callbacks still pending. *)
Fixpoint descend (pending : list Callback) (runs : list Firing)
    : list Event * list Callback :=
  match runs with
  | [] => ([], pending)
  | f :: runs' =>
      match pending !! which f with
      | None => descend pending runs'
      | Some cb =>
          let st' := fire cb (sees f) (pageState f) in
          let r := descend (delete (which f) pending
                            ++ map snd (newTimers (pageState f) st')) runs' in
          (since (pageState f) st' ++ r.1, r.2)
      end
  end.

(** One scheduling: the body of lines 658-858 run in [st0] observing [o0],
    then the firings of its callbacks. *)
Definition scheduling (c : Ctx) (o0 : Obs) (st0 : State) (runs : list Firing)
    : list Event * list Callback :=
  let st1 := (autoExecuteSection c o0 st0).2 in
  let r := descend (map snd (newTimers st0 st1)) runs in
  (since st0 st1 ++ r.1, r.2).

(** The direct attempt of [executeDirectly] succeeds: the button is in the
    container, enabled, and its activation does not raise. *)
Definition directSucceeds (o : Obs) : bool :=
  match containerButton o with
  | Some b => negb (disabled (buttonState o b)) && negb (clickThrows o)
  | None => false
  end.

(** The scheduler on a live page: the scheduling body runs for some call
    (a run of [renderFunctionCall] that adds an execute button), a pending
    timeout fires, [renderFunctionCall] ends with the timeout that sets the
    observer up again (lines 861-868), or the preference is changed.  The
    collaborators may behave in any way: every observation is possible.
    The tracker is written by the code of this file only. *)
Inductive step : State -> State -> Prop :=
| step_section (c : Ctx) (o : Obs) (st : State) :
    step st (autoExecuteSection c o st).2
| step_fire (i : nat) (d : Q) (cb : Callback) (o : Obs) (st : State) :
    timers st !! i = Some (d, cb) ->
    step st (fire cb o (setTimers (delete i (timers st)) st))
| step_pause (st : State) :
    step st (setTimeout CbSetupDOMObserver 1000 st)
| step_toggle (tg : option Pref) (st : State) :
    step st (setToggle tg st).

(** The module as loaded, once the document is ready (lines 235-246): the
    setup of the observer and the first scan are pending, nothing is
    tracked; [tg] is the preference the page holds. *)
Definition loaded (tg : option Pref) : State :=
  mkState tg emptyTracker [(500%Q, CbSetupDOMObserver); (1000%Q, CbScanner)] [].

Definition reachable (st : State) : Prop :=
  exists tg, rtc step (loaded tg) st.

(** The passes a pending chain can still perform. *)
Definition passesLeft (pending : list Callback) : nat :=
  match pending with
  | [CbSetupAutoExecution _] => MAX_AUTO_EXECUTE_ATTEMPTS
  | [CbRetry _ k] => MAX_AUTO_EXECUTE_ATTEMPTS - k
  | _ => 0
  end.

(** The pending callbacks of one scheduling of [c]: none, the start of the
    retries, or one retry pass. *)
Definition isChain (c : Ctx) (pending : list Callback) : Prop :=
  pending = [] \/ pending = [CbSetupAutoExecution c]
  \/ exists k, pending = [CbRetry c k].

(** Every pending callback of a retry chain belongs to a call whose key is
    in the in-process set. *)
Definition chainMarked (st : State) : Prop :=
  forall i d cb c, timers st !! i = Some (d, cb) -> chainOf cb = Some c ->
    scheduledKey c ∈ executedFunctions (tracker st).

(** The in-process set of executed calls is replaced by [fs]. *)
Definition setExecutedFunctions (fs : gset jsstring) (st : State) : State :=
  mkState (toggleState st)
          (mkTracker (attempts (tracker st)) (executed (tracker st)) fs)
          (timers st) (log st).

End Chain.

(** ** Block rendering (renderFunctionCall and createOrUpdateParamElement) *)

Module Render.
Import Ledger Sched Params.

(** The result of [containsFunctionCalls]. *)
Record FunctionInfo := mkInfo {
  hasFunctionCalls : bool;
  isComplete : bool;
  languageTag : option jsstring
}.

(** The raw [pre] element handed to [renderFunctionCall]. *)
Record PreBlock := mkPre {
  textContent : jsstring;
  dataBlockId : option jsstring;     (* getAttribute('data-block-id') *)
  hasParent : bool;                  (* block.parentNode *)
  insideFunctionBlock : bool;        (* block.closest('.function-block') *)
  displayNone : bool                 (* style.display = 'none' *)
}.

(** The elements the renderer creates, by class. *)
Inductive NodeKind :=
| KFunctionBlock | KLanguageTag | KFunctionName | KFunctionNameText | KCallId
| KSpinner | KFunctionParams | KParamName | KParamValue | KPre
| KFunctionButtons | KSpacer | KRawToggle | KExecuteButton.

(** The nodes the idempotence property is about. *)
Definition structural (k : NodeKind) : bool :=
  match k with
  | KFunctionName | KFunctionNameText | KCallId | KParamName | KParamValue
  | KRawToggle | KExecuteButton => true
  | _ => false
  end.

(** The [.function-name] element: its [.function-name-text] and [.call-id]
    spans, when present, and whether it holds a spinner. *)
Record FunctionNameEl := mkNameEl {
  nameText : option jsstring;
  callIdText : option jsstring;
  spinner : bool
}.

(** What a [.param-value] element shows: its own text, or a [pre] child
    holding the text. *)
Inductive ValueBody :=
| BodyText (t : jsstring)
| BodyPre (t : jsstring).

Record ParamNameEl := mkPName {
  pnId : jsstring;          (* data-param-id *)
  pnText : jsstring;
  pnStreaming : bool        (* class streaming-param-name *)
}.

Record ParamValueEl := mkPValue {
  pvId : jsstring;          (* data-param-id *)
  pvName : jsstring;        (* data-param-name *)
  pvBody : ValueBody;
  pvStreaming : bool;       (* attribute data-streaming *)
  pvValue : option jsstring (* data-param-value: the value JSON.stringify was given *)
}.

Inductive ParamChild :=
| PName (e : ParamNameEl)
| PValue (e : ParamValueEl).

Inductive ButtonChild :=
| RawToggle
| ExecuteButton (button : nat).

(** The rendered [div.function-block], as its selectors see it: for each
    class the renderer queries, the first element of that class. *)
Record BlockDiv := mkDiv {
  divBlockId : jsstring;                      (* data-block-id *)
  loading : bool;                             (* class function-loading *)
  complete : bool;                            (* class function-complete *)
  languageTagEl : option jsstring;
  functionNameEl : option FunctionNameEl;
  functionParams : option (list ParamChild);  (* children of .function-params *)
  functionButtons : option (list ButtonChild);(* children of .function-buttons *)
  attached : bool                             (* inserted before the raw block *)
}.

Record World := mkWorld {
  block : PreBlock;
  processed : bool;                          (* processedElements.has(block) *)
  renderedFunctionBlocks : gmap jsstring BlockDiv;
  documentDivs : gmap jsstring BlockDiv;
      (* rendered blocks in the document that the registry does not hold,
         by data-block-id *)
  outsideParams : list ParamChild;
      (* parameter elements of the document outside this block's container *)
  preExistingIncompleteBlocks : gset jsstring;
  domObserver : bool;                        (* the observer object exists *)
  nextButton : nat;                          (* identity of the next button *)
  page : State;
  created : list NodeKind                    (* elements created so far *)
}.

Definition setBlock (b : PreBlock) (w : World) : World :=
  mkWorld b (processed w) (renderedFunctionBlocks w) (documentDivs w)
          (outsideParams w) (preExistingIncompleteBlocks w) (domObserver w)
          (nextButton w) (page w) (created w).

Definition setProcessed (p : bool) (w : World) : World :=
  mkWorld (block w) p (renderedFunctionBlocks w) (documentDivs w)
          (outsideParams w) (preExistingIncompleteBlocks w) (domObserver w)
          (nextButton w) (page w) (created w).

Definition setRegistry (r : gmap jsstring BlockDiv) (w : World) : World :=
  mkWorld (block w) (processed w) r (documentDivs w)
          (outsideParams w) (preExistingIncompleteBlocks w) (domObserver w)
          (nextButton w) (page w) (created w).

Definition setDocumentDivs (r : gmap jsstring BlockDiv) (w : World) : World :=
  mkWorld (block w) (processed w) (renderedFunctionBlocks w) r
          (outsideParams w) (preExistingIncompleteBlocks w) (domObserver w)
          (nextButton w) (page w) (created w).

Definition setOutside (ps : list ParamChild) (w : World) : World :=
  mkWorld (block w) (processed w) (renderedFunctionBlocks w) (documentDivs w)
          ps (preExistingIncompleteBlocks w) (domObserver w)
          (nextButton w) (page w) (created w).

Definition setNextButton (n : nat) (w : World) : World :=
  mkWorld (block w) (processed w) (renderedFunctionBlocks w) (documentDivs w)
          (outsideParams w) (preExistingIncompleteBlocks w) (domObserver w)
          n (page w) (created w).

Definition setPage (p : State) (w : World) : World :=
  mkWorld (block w) (processed w) (renderedFunctionBlocks w) (documentDivs w)
          (outsideParams w) (preExistingIncompleteBlocks w) (domObserver w)
          (nextButton w) p (created w).

(** [document.createElement], logged by class. *)
Definition create (k : NodeKind) (w : World) : World :=
  mkWorld (block w) (processed w) (renderedFunctionBlocks w) (documentDivs w)
          (outsideParams w) (preExistingIncompleteBlocks w) (domObserver w)
          (nextButton w) (page w) (created w ++ [k]).

Definition setClasses (l c : bool) (d : BlockDiv) : BlockDiv :=
  mkDiv (divBlockId d) l c (languageTagEl d) (functionNameEl d)
        (functionParams d) (functionButtons d) (attached d).

Definition setLanguageTag (t : option jsstring) (d : BlockDiv) : BlockDiv :=
  mkDiv (divBlockId d) (loading d) (complete d) t (functionNameEl d)
        (functionParams d) (functionButtons d) (attached d).

Definition setName (n : option FunctionNameEl) (d : BlockDiv) : BlockDiv :=
  mkDiv (divBlockId d) (loading d) (complete d) (languageTagEl d) n
        (functionParams d) (functionButtons d) (attached d).

Definition setParams (ps : option (list ParamChild)) (d : BlockDiv) : BlockDiv :=
  mkDiv (divBlockId d) (loading d) (complete d) (languageTagEl d)
        (functionNameEl d) ps (functionButtons d) (attached d).

Definition setButtons (bs : option (list ButtonChild)) (d : BlockDiv) : BlockDiv :=
  mkDiv (divBlockId d) (loading d) (complete d) (languageTagEl d)
        (functionNameEl d) (functionParams d) bs (attached d).

Definition setAttached (a : bool) (d : BlockDiv) : BlockDiv :=
  mkDiv (divBlockId d) (loading d) (complete d) (languageTagEl d)
        (functionNameEl d) (functionParams d) (functionButtons d) a.

(** *** The invoke tag (lines 489-491) *)

Definition invokeOpen : jsstring := Eval cbv in js "<invoke name=" ++ [dquote].
Definition callIdEq : jsstring := Eval cbv in js "call_id=" ++ [dquote].

(** Case folding of flag [i]: only the ASCII capitals fold onto the letters
    of the pattern. *)
Definition lower (c : N) : N :=
  if ((65 <=? c) && (c <=? 90))%N then (c + 32)%N else c.

(** [p] is in lower case. *)
Fixpoint starts_with_ci (p s : jsstring) : bool :=
  match p, s with
  | [], _ => true
  | a :: p', b :: s' => (a =? lower b)%N && starts_with_ci p' s'
  | _ :: _, [] => false
  end.

(** The optional group: white space, [call_id=], the quoted identifier. *)
Definition callIdGroup (s : jsstring) : option (jsstring * jsstring) :=
  let '(ws, s1) := span is_ws s in
  match ws with
  | [] => None
  | _ :: _ =>
      if starts_with_ci callIdEq s1 then
        let '(cid, s2) := span (fun c => negb (c =? dquote)%N) (drop (length callIdEq) s1) in
        match cid, s2 with
        | _ :: _, _ :: s3 => Some (cid, s3)
        | _, _ => None
        end
      else None
  end.

(** One anchored match of the invoke expression: groups 1 and 2. *)
Definition invokeRegexAt (s : jsstring) : option (jsstring * option jsstring) :=
  if starts_with_ci invokeOpen s then
    let '(nm, s1) := span (fun c => negb (c =? dquote)%N) (drop (length invokeOpen) s) in
    match nm, s1 with
    | _ :: _, _ :: s2 =>
        match callIdGroup s2 with
        | Some (cid, g :: _) =>
            if (g =? gt_sign)%N then Some (nm, Some cid)
            else match s2 with
                 | g' :: _ => if (g' =? gt_sign)%N then Some (nm, None) else None
                 | [] => None
                 end
        | _ =>
            match s2 with
            | g' :: _ => if (g' =? gt_sign)%N then Some (nm, None) else None
            | [] => None
            end
        end
    | _, _ => None
    end
  else None.

(** [content.match(...)]: the leftmost match. *)
Fixpoint invokeRegex (s : jsstring) : option (jsstring * option jsstring) :=
  match invokeRegexAt s with
  | Some m => Some m
  | None => match s with
            | [] => None
            | _ :: s' => invokeRegex s'
            end
  end.

(** *** createOrUpdateParamElement (lines 882-1029) *)

Definition isNameOf (id : jsstring) (p : ParamChild) : bool :=
  match p with
  | PName e => str_eqb (pnId e) id
  | PValue _ => false
  end.

Definition isValueOf (id : jsstring) (p : ParamChild) : bool :=
  match p with
  | PValue e => str_eqb (pvId e) id
  | PName _ => false
  end.

(** [querySelector] for a parameter name or value element by its
    [data-param-id], read literally. *)
Definition hasName (id : jsstring) (l : list ParamChild) : bool :=
  existsb (isNameOf id) l.

Definition hasValue (id : jsstring) (l : list ParamChild) : bool :=
  existsb (isValueOf id) l.

Fixpoint getName (id : jsstring) (l : list ParamChild) : option ParamNameEl :=
  match l with
  | [] => None
  | PName e :: l' => if str_eqb (pnId e) id then Some e else getName id l'
  | PValue _ :: l' => getName id l'
  end.

Fixpoint getValue (id : jsstring) (l : list ParamChild) : option ParamValueEl :=
  match l with
  | [] => None
  | PValue e :: l' => if str_eqb (pvId e) id then Some e else getValue id l'
  | PName _ :: l' => getValue id l'
  end.

(** Writes to the element a query returned: class [streaming-param-name] of
    a name element; content and attributes of a value element. *)
Fixpoint setNameStreaming (id : jsstring) (b : bool) (l : list ParamChild)
    : list ParamChild :=
  match l with
  | [] => []
  | PName e :: l' =>
      if str_eqb (pnId e) id then PName (mkPName (pnId e) (pnText e) b) :: l'
      else PName e :: setNameStreaming id b l'
  | PValue e :: l' => PValue e :: setNameStreaming id b l'
  end.

Fixpoint setValue (id : jsstring) (body : ValueBody) (streaming : bool)
    (value : option jsstring) (l : list ParamChild) : list ParamChild :=
  match l with
  | [] => []
  | PValue e :: l' =>
      if str_eqb (pvId e) id
      then PValue (mkPValue (pvId e) (pvName e) body streaming value) :: l'
      else PValue e :: setValue id body streaming value l'
  | PName e :: l' => PName e :: setValue id body streaming value l'
  end.

(** Where the parameter elements live: the container passed in, and the
    rest of the document (the fallback of lines 897-902). *)
Record ParamStore := mkStore {
  container : list ParamChild;
  outside : list ParamChild;
  madeNodes : list NodeKind
}.

Definition storeName (id : jsstring) (s : ParamStore) : option ParamNameEl :=
  match getName id (container s) with
  | Some e => Some e
  | None => getName id (outside s)
  end.

Definition storeValue (id : jsstring) (s : ParamStore) : option ParamValueEl :=
  match getValue id (container s) with
  | Some e => Some e
  | None => getValue id (outside s)
  end.

Definition writeNameStreaming (id : jsstring) (b : bool) (s : ParamStore) : ParamStore :=
  if hasName id (container s)
  then mkStore (setNameStreaming id b (container s)) (outside s) (madeNodes s)
  else mkStore (container s) (setNameStreaming id b (outside s)) (madeNodes s).

Definition writeValue (id : jsstring) (body : ValueBody) (streaming : bool)
    (value : option jsstring) (s : ParamStore) : ParamStore :=
  if hasValue id (container s)
  then mkStore (setValue id body streaming value (container s)) (outside s) (madeNodes s)
  else mkStore (container s) (setValue id body streaming value (outside s)) (madeNodes s).

Definition dash : N := 45%N.

(** The template [blockId-name]. *)
Definition paramIdOf (blockId name : jsstring) : jsstring :=
  blockId ++ dash :: name.

(** The elements are found by the selectors of lines 893-902, read as
    equality on [data-param-id]: this is what they mean for the
    identifiers that [selectorSafe] accepts; [paramPass] has the way out by
    exception.  The value is a string here, so the displayed text is the
    value itself.  The definition gives the elements as they are when the
    call returns.  For a streaming parameter the call also sets three
    timeouts (lines 1008-1020): two scroll the value after 10 and 50 ms,
    the third removes the streaming class and attribute after 3000 ms
    unless a later call for the parameter cleared it; they touch neither
    the tracker nor the buttons and are not part of the scheduler's log. *)
Definition createOrUpdateParamElement (name value blockId : jsstring)
    (isStreaming : bool) (s : ParamStore) : ParamStore :=
  let paramId := paramIdOf blockId name in
  (* lines 905-911 *)
  let s :=
    match storeName paramId s with
    | Some _ => s
    | None =>
        mkStore (container s ++ [PName (mkPName paramId name false)])
                (outside s) (madeNodes s ++ [KParamName])
    end in
  (* lines 913-919 *)
  let s :=
    match storeValue paramId s with
    | Some _ => s
    | None =>
        mkStore (container s
                 ++ [PValue (mkPValue paramId name (BodyText []) false None)])
                (outside s) (madeNodes s ++ [KParamValue])
    end in
  let wasStreaming :=
    match storeValue paramId s with
    | Some e => pvStreaming e
    | None => false
    end in
  let hadPre :=
    match storeValue paramId s with
    | Some e => match pvBody e with BodyPre _ => true | BodyText _ => false end
    | None => false
    end in
  (* lines 925-949 *)
  let usePre := isStreaming || wasStreaming in
  let s :=
    if usePre && negb hadPre
    then mkStore (container s) (outside s) (madeNodes s ++ [KPre])
    else s in
  let body := if usePre then BodyPre value else BodyText value in
  let nameWasStreaming :=
    match storeName paramId s with
    | Some e => pnStreaming e
    | None => false
    end in
  (* lines 969-1029 *)
  if isStreaming then
    writeValue paramId body true (Some value)
      (writeNameStreaming paramId true s)
  else if nameWasStreaming then
    writeValue paramId body false (Some value)
      (writeNameStreaming paramId false s)
  else
    writeValue paramId body wasStreaming (Some value) s.

(** The document holds a name, resp. value, element for [id]: in the
    container, or elsewhere. *)
Definition nameIn (id : jsstring) (s : ParamStore) : bool :=
  hasName id (container s) || hasName id (outside s).

Definition valueIn (id : jsstring) (s : ParamStore) : bool :=
  hasValue id (container s) || hasValue id (outside s).

(** The loop of lines 563-595 on the container, when no query throws:
    that is the case for the identifiers that [selectorSafe] accepts;
    [paramPass] is the loop with its way out by exception. *)
Definition renderParams (blockId : jsstring) (ps : list ParamEntry)
    (s : ParamStore) : ParamStore :=
  fold_left
    (fun s e => createOrUpdateParamElement (paramName e) (extractedValue e)
                  blockId (isParamStreaming e) s)
    ps s.

(** *** renderFunctionCall (lines 392-871) *)

Section Renderer.

(** Modelled from the spec: the tag scanner, the structured extraction and
    the signature are functions of [../parser], [./components] and
    [../mcpexecute/storage], which are not part of this file.  Sections 4.1,
    4.2 and 6 give them as functions of the raw text: whether it holds a
    call, whether the call is complete and an optional language tag; the
    language tag and the content; the complete parameter map, if any; a
    signature determined by the function name and the parameter map. *)
Variable ParamMap : Type.
Variable containsFunctionCalls : jsstring -> FunctionInfo.
Variable extractLanguageTag : jsstring -> option jsstring * jsstring.
Variable extractFunctionParameters : jsstring -> option ParamMap.
Variable generateContentSignature : jsstring -> ParamMap -> jsstring.

(** The identifier generated from the clock and a random number (line 400);
    [gen] stands for the digits. *)
Definition generatedId (gen : jsstring) : jsstring :=
  Eval cbv in js "block-" ++ gen.

(** [block.getAttribute('data-block-id') || generated] *)
Definition blockIdOf (gen : jsstring) (w : World) : jsstring :=
  match dataBlockId (block w) with
  | Some ((_ :: _) as i) => i
  | _ => generatedId gen
  end.

(** Lines 408-422: the registry first; for a block already processed, the
    document next, and if that fails the block is forgotten. *)
Definition lookupExisting (blockId : jsstring) (w : World)
    : option BlockDiv * World :=
  match renderedFunctionBlocks w !! blockId with
  | Some d => (Some d, w)
  | None =>
      if processed w then
        match documentDivs w !! blockId with
        | Some d =>
            (Some d,
             setDocumentDivs (delete blockId (documentDivs w))
               (setRegistry (<[blockId := d]> (renderedFunctionBlocks w)) w))
        | None => (None, setProcessed false w)
        end
      else (None, w)
  end.

(** A truthy string: present and not empty. *)
Definition truthy (s : option jsstring) : option jsstring :=
  match s with
  | Some ((_ :: _) as t) => Some t
  | _ => None
  end.

(** Lines 453-485. *)
Definition stateTransitions (isNewRender : bool)
    (previousCompletionStatus : option bool) (functionInfo : FunctionInfo)
    (isPreExistingIncomplete : bool) (tag : option jsstring)
    (d : BlockDiv) (w : World) : BlockDiv * World :=
  if isNewRender then
    let d :=
      if negb (isComplete functionInfo) && negb isPreExistingIncomplete
      then setClasses true (complete d) d else d in
    match truthy tag, truthy (languageTag functionInfo) with
    | Some t, _ | None, Some t => (setLanguageTag (Some t) d, create KLanguageTag w)
    | None, None => (d, w)
    end
  else
    match previousCompletionStatus with
    | Some false =>
        if isComplete functionInfo then
          (* just completed: classes, and the spinner goes *)
          (setName (option_map (fun n => mkNameEl (nameText n) (callIdText n) false)
                               (functionNameEl d))
                   (setClasses false true d), w)
        else (d, w)
    | Some true =>
        if isComplete functionInfo then (d, w)
        else (setClasses true false d, w)
    | None => (d, w)
    end.

(** Lines 493-543; [callId] is never empty here. *)
Definition renderName (functionName callId : jsstring)
    (functionInfo : FunctionInfo) (isPreExistingIncomplete : bool)
    (d : BlockDiv) (w : World) : BlockDiv * World :=
  match functionNameEl d with
  | None =>
      let w := create KFunctionNameText (create KFunctionName w) in
      let '(cid, w) :=
        match callId with
        | _ :: _ => (Some callId, create KCallId w)
        | [] => (None, w)
        end in
      let '(sp, w) :=
        if negb (isComplete functionInfo) && negb isPreExistingIncomplete
        then (true, create KSpinner w) else (false, w) in
      (setName (Some (mkNameEl (Some functionName) cid sp)) d, w)
  | Some n =>
      let text := option_map (fun _ => functionName) (nameText n) in
      match callId with
      | _ :: _ =>
          match callIdText n with
          | Some _ => (setName (Some (mkNameEl text (Some callId) (spinner n))) d, w)
          | None =>
              (setName (Some (mkNameEl text (Some callId) (spinner n))) d,
               create KCallId w)
          end
      | [] => (setName (Some (mkNameEl text (callIdText n) (spinner n))) d, w)
      end
  end.

(** Lines 545-595: the container, then the loop. *)
Definition renderParamsIn (blockId rawContent : jsstring)
    (d : BlockDiv) (w : World) : BlockDiv * World :=
  let '(kids, w) :=
    match functionParams d with
    | Some kids => (kids, w)
    | None => ([], create KFunctionParams w)
    end in
  let s := renderParams blockId (extractParams rawContent)
             (mkStore kids (outsideParams w) []) in
  (setParams (Some (container s)) d,
   setOutside (outside s)
     (mkWorld (block w) (processed w) (renderedFunctionBlocks w)
        (documentDivs w) (outsideParams w) (preExistingIncompleteBlocks w)
        (domObserver w) (nextButton w) (page w) (created w ++ madeNodes s))).

Definition hasRawToggle (d : BlockDiv) : bool :=
  match functionButtons d with
  | Some bs => existsb (fun b => match b with RawToggle => true | _ => false end) bs
  | None => false
  end.

Definition firstExecuteButton (d : BlockDiv) : option nat :=
  match functionButtons d with
  | Some bs =>
      head (omap (fun b => match b with ExecuteButton i => Some i | _ => None end) bs)
  | None => None
  end.

(** Modelled from the spec: [addRawXmlToggle] and [addExecuteButton] are in
    [./components], not in this file; section 4.4 has each append one
    control to the container it is given, the raw-content toggle and the
    action control. *)
Definition addRawXmlToggle (d : BlockDiv) (w : World) : BlockDiv * World :=
  (setButtons (Some (default [] (functionButtons d) ++ [RawToggle])) d,
   create KRawToggle w).

Definition addExecuteButton (d : BlockDiv) (w : World) : BlockDiv * World :=
  (setButtons (Some (default [] (functionButtons d)
                     ++ [ExecuteButton (nextButton w)])) d,
   setNextButton (S (nextButton w)) (create KExecuteButton w)).

(** The registry holds the block by reference: what was done to the block
    is visible through it. *)
Definition commit (blockId : jsstring) (d : BlockDiv) (w : World) : World :=
  setRegistry (<[blockId := d]> (renderedFunctionBlocks w)) w.

(** Lines 861-868. *)
Definition pauseObserver (w : World) : World :=
  if domObserver w
  then setPage (setTimeout CbSetupDOMObserver 1000 (page w)) w
  else w.

(** Lines 621-868: the button container, the raw-content toggle, the
    execute button with the scheduling of its auto-execution, and the pause
    of the observer. *)
Definition renderControls (functionInfo : FunctionInfo) (c : Ctx) (o : Obs)
    (d : BlockDiv) (w : World) : bool * World :=
  (* lines 621-633 *)
  let '(d, w) :=
    match functionButtons d with
    | Some _ => (d, w)
    | None => (setButtons (Some []) d, create KSpacer (create KFunctionButtons w))
    end in
  (* lines 635-643 *)
  let '(d, w) :=
    if isComplete functionInfo && negb (hasRawToggle d)
    then addRawXmlToggle d w else (d, w) in
  (* lines 645-859 *)
  if isComplete functionInfo
     && match firstExecuteButton d with None => true | Some _ => false end
  then
    let '(d, w) := addExecuteButton d w in
    let o' := mkObs (storage o) (buttonState o) (firstExecuteButton d)
                    (allButtons o) (clickThrows o) in
    let '(early, p) := autoExecuteSection c o' (page w) in
    let w := setPage p w in
    if early then (true, commit (blockId c) d w)
    else (true, commit (blockId c) d (pauseObserver w))
  else (true, commit (blockId c) d (pauseObserver w)).

Definition renderFunctionCall (gen : jsstring) (o : Obs) (w : World)
    : bool * World :=
  let functionInfo := containsFunctionCalls (textContent (block w)) in
  if negb (hasFunctionCalls functionInfo) || insideFunctionBlock (block w)
  then (false, w)
  else
    let blockId := blockIdOf gen w in
    let isPreExistingIncomplete :=
      bool_decide (blockId ∈ preExistingIncompleteBlocks w) in
    let '(existingDiv, w) := lookupExisting blockId w in
    let isNewRender := match existingDiv with None => true | Some _ => false end in
    (* lines 424-432 *)
    let w :=
      if isNewRender && negb (processed w)
      then setBlock (mkPre (textContent (block w)) (Some blockId)
                       (hasParent (block w)) (insideFunctionBlock (block w))
                       (displayNone (block w)))
             (setProcessed true w)
      else w in
    let previousCompletionStatus :=
      option_map (fun d => negb (loading d)) existingDiv in
    let rawContent := trim (textContent (block w)) in
    let '(tag, content) := extractLanguageTag rawContent in
    (* lines 438-450 *)
    let '(d, w) :=
      match existingDiv with
      | Some d => (d, w)
      | None =>
          (mkDiv blockId false false None None None None false,
           create KFunctionBlock w)
      end in
    let '(d, w) :=
      stateTransitions isNewRender previousCompletionStatus functionInfo
        isPreExistingIncomplete tag d w in
    (* lines 489-491 *)
    let invokeMatch := invokeRegex content in
    let functionName :=
      match invokeMatch with
      | Some (n, _) => n
      | None => js "function"
      end in
    let callId :=
      match invokeMatch with
      | Some (_, Some ((_ :: _) as c)) => c
      | _ => blockId
      end in
    let '(d, w) :=
      renderName functionName callId functionInfo isPreExistingIncomplete d w in
    let '(d, w) := renderParamsIn blockId rawContent d w in
    (* lines 598-608 *)
    let completeParameters :=
      if isComplete functionInfo then extractFunctionParameters rawContent
      else None in
    let contentSignature :=
      match completeParameters with
      | Some p =>
          if isComplete functionInfo
          then Some (generateContentSignature functionName p) else None
      | None => None
      end in
    (* lines 610-619 *)
    if isNewRender && negb (hasParent (block w)) then (false, commit blockId d w)
    else
      let '(d, w) :=
        if isNewRender
        then (setAttached true d,
              setBlock (mkPre (textContent (block w)) (dataBlockId (block w))
                          (hasParent (block w)) (insideFunctionBlock (block w))
                          true) w)
        else (d, w) in
      renderControls functionInfo
        (mkCtx functionName blockId callId contentSignature) o d w.

(** The block of [w] has been rendered under the identifier [bid]: the
    registry holds its rendered block, with a name element carrying a call
    identifier, a parameter container in which (or beside which) every
    parameter of the text has its name and value element, a button
    container and, for a complete call, the raw-content toggle and the
    execute button. *)
Definition renderedFor (bid : jsstring) (w : World) : Prop :=
  dataBlockId (block w) = Some bid /\ bid <> [] /\
  exists d n kids bs,
    renderedFunctionBlocks w !! bid = Some d
    /\ functionNameEl d = Some n /\ is_Some (callIdText n)
    /\ functionParams d = Some kids
    /\ (forall e, In e (extractParams (trim (textContent (block w)))) ->
         nameIn (paramIdOf bid (paramName e)) (mkStore kids (outsideParams w) []) = true
         /\ valueIn (paramIdOf bid (paramName e)) (mkStore kids (outsideParams w) []) = true)
    /\ functionButtons d = Some bs
    /\ (isComplete (containsFunctionCalls (textContent (block w))) = true ->
        hasRawToggle d = true /\ is_Some (firstExecuteButton d)).

End Renderer.

(** [w'] is [w] with the elements [x] created, and possibly other parameter
    elements outside the block updated. *)
Definition frame (w w' : World) (x : list NodeKind) : Prop :=
  block w' = block w /\ processed w' = processed w
  /\ renderedFunctionBlocks w' = renderedFunctionBlocks w
  /\ documentDivs w' = documentDivs w
  /\ preExistingIncompleteBlocks w' = preExistingIncompleteBlocks w
  /\ domObserver w' = domObserver w /\ nextButton w' = nextButton w
  /\ page w' = page w /\ created w' = created w ++ x.

(** The elements created after [w0]. *)
Definition createdSince (w0 w : World) : list NodeKind :=
  drop (length (created w0)) (created w).

(** The identifier is free of the characters that are special inside the
    quoted string of an attribute selector: backslash, double quote, line
    feed, form feed, carriage return, NUL.  For such identifiers the
    selectors of [createOrUpdateParamElement] select by equality, as
    [hasName] and [hasValue] do. *)
Definition selectorSafe (s : jsstring) : bool :=
  forallb (fun c => negb ((c =? 92) || (c =? 34) || (c =? 10) || (c =? 12)
                          || (c =? 13) || (c =? 0))%N) s.

(** How [querySelector] reads the quoted string of the selector
    [[data-param-id="id"]] (lines 893-902), by the first character of [id]
    that is special inside a quoted string.  No such character: the
    selector selects the elements whose attribute equals [id].  A line
    feed, a carriage return or a form feed: the string is not closed on
    its line, the selector is not valid, and [querySelector] throws a
    SyntaxError.  A backslash, a double quote or NUL: the string that is
    read differs from [id], or ends early; that case is not modelled. *)
Inductive SelectorReading :=
| ReadsLiterally
| ThrowsSyntaxError
| ReadsOtherwise.

Fixpoint readSelector (id : jsstring) : SelectorReading :=
  match id with
  | [] => ReadsLiterally
  | c :: id' =>
      if ((c =? 10) || (c =? 12) || (c =? 13))%N then ThrowsSyntaxError
      else if ((c =? 92) || (c =? 34) || (c =? 0))%N then ReadsOtherwise
      else readSelector id'
  end.

(** The loop of lines 563-595 with its way out by exception: the first
    query of [createOrUpdateParamElement] (line 893) throws for a selector
    that is not valid, nothing in the loop or in [renderFunctionCall]
    catches it, and the parameters after it are not rendered. *)
Inductive PassResult :=
| Returned (s : ParamStore)
| Threw
| NotModelled.

Fixpoint paramPass (blockId : jsstring) (ps : list ParamEntry) (s : ParamStore)
    : PassResult :=
  match ps with
  | [] => Returned s
  | e :: ps' =>
      match readSelector (paramIdOf blockId (paramName e)) with
      | ReadsLiterally =>
          paramPass blockId ps'
            (createOrUpdateParamElement (paramName e) (extractedValue e)
               blockId (isParamStreaming e) s)
      | ThrowsSyntaxError => Threw
      | ReadsOtherwise => NotModelled
      end
  end.

(** A generated identifier is new: no rendered block carries it. *)
Definition freshId (gen : jsstring) (w : World) : Prop :=
  match dataBlockId (block w) with
  | Some (_ :: _) => True
  | _ =>
      renderedFunctionBlocks w !! generatedId gen = None
      /\ documentDivs w !! generatedId gen = None
  end.

End Render.

(** ** The execute buttons of a page under the three trigger paths *)

Module Page.
Import Ledger Sched Chain Render.

(** A timeout callback of the scheduler running on the page.  Its closure
    holds the button container and reads the document; it acts by
    dispatching a click and by setting a timeout.  It writes neither the
    registry, nor the raw block, nor the rendered elements. *)
Definition fireOnPage (cb : Callback) (o : Obs) (w : World) : World :=
  setPage (fire cb o (page w)) w.

(** The page as far as the execute buttons are concerned.  Buttons are
    objects with identity; any number of blocks, each with its button, may
    be rendered.  The click handler of a button belongs to
    [addExecuteButton], which is not part of this file: [activations]
    counts, for each button, how often its handler ran, and the effect of
    the handler on the button is a parameter. *)
Record Sys := mkSys {
  sched : State;
  store : Storage;
  buttons : nat -> Button;
  activations : nat -> nat
}.

(** A callback running in [s] reads the storage and the buttons of [s];
    which buttons its queries return is not constrained. *)
Definition observes (s : Sys) (o : Obs) : Prop :=
  storage o = store s /\ forall b, buttonState o b = buttons s b.

(** The buttons a click was dispatched to.  [click()] and [dispatchEvent]
    run the handler before they return, also when it raises. *)
Definition clicked (ev : list Event) : list nat :=
  omap (fun e => match e with
                 | EvClick b | EvClickThrew b => Some b
                 | _ => None
                 end) ev.

Section Steps.

(** The synchronous effect of one run of the handler on its button. *)
Variable handler : Button -> Button.

(** How the rest of the page may change the buttons between two callbacks,
    given the number of activations of each so far. *)
Variable envMay : (nat -> nat) -> (nat -> Button) -> (nat -> Button) -> Prop.

(** The handler of button [b] runs. *)
Definition activate (b : nat) (s : Sys) : Sys :=
  mkSys (sched s) (store s)
        (fun b' => if b' =? b then handler (buttons s b) else buttons s b')
        (fun b' => if b' =? b then S (activations s b) else activations s b').

(** The state after a callback that left the scheduler state [st']: each
    click it dispatched ran the handler of its button. *)
Definition afterCallback (s : Sys) (st' : State) : Sys :=
  fold_left (fun s b => activate b s) (clicked (since (sched s) st'))
            (mkSys st' (store s) (buttons s) (activations s)).

Inductive step : Sys -> Sys -> Prop :=
| step_render (s : Sys) (c : Ctx) (o : Obs) :
    (* a run of renderFunctionCall adds the execute button of a complete
       call and evaluates its auto-execution (lines 646-858) *)
    observes s o ->
    step s (afterCallback s (autoExecuteSection c o (sched s)).2)
| step_timer (s : Sys) (o : Obs) (i : nat) (d : Q) (cb : Callback) :
    (* any pending timeout fires: a retry pass, the periodic scanner, or a
       click the scanner scheduled *)
    timers (sched s) !! i = Some (d, cb) -> observes s o ->
    step s (afterCallback s
              (fire cb o (setTimers (delete i (timers (sched s))) (sched s))))
| step_manual (s : Sys) (b : nat) :
    (* the user clicks a button; a disabled button receives no click *)
    disabled (buttons s b) = false ->
    step s (activate b s)
| step_pause (s : Sys) :
    (* renderFunctionCall ends by pausing the observer (lines 861-868) *)
    step s (mkSys (setTimeout CbSetupDOMObserver 1000 (sched s)) (store s)
                  (buttons s) (activations s))
| step_env (s : Sys) (st' : Storage) (bs' : nat -> Button) (tg : option Pref) :
    (* storage, the preference and the buttons change behind the scenes:
       buttons are created, enabled, disabled *)
    envMay (activations s) (buttons s) bs' ->
    step s (mkSys (setToggle tg (sched s)) st' bs' (activations s)).

(** The page when the module has been loaded: nothing is activated yet. *)
Definition loadedSys (tg : option Pref) (st : Storage) (bs : nat -> Button) : Sys :=
  mkSys (loaded tg) st bs (fun _ => 0).

Definition reachableSys (s : Sys) : Prop :=
  exists tg st bs, rtc step (loadedSys tg st bs) s.

End Steps.

End Page.

(** ** The DOM observer (lines 72-172, 235-246, 861-868) *)

Module Observer.

(** The nodes a mutation record can carry.  Elements have an identity; the
    attribute [data-processed] and the membership in [processedElements]
    are kept by identity, so that an element reached twice is the same
    element. *)
#[local] Unset Elimination Schemes.

Inductive Node :=
| TextNode (data : jsstring)
| CommentNode
| Element (id : nat) (isPre : bool) (children : list Node).

#[local] Set Elimination Schemes.

(** [node.textContent]: the text of the descendants, in document order. *)
Fixpoint textContent (n : Node) : jsstring :=
  match n with
  | TextNode d => d
  | CommentNode => []
  | Element _ _ ch => flat_map textContent ch
  end.

(** The [pre] elements of a subtree, root included, in document order, each
    with its text. *)
Fixpoint presOfSubtree (n : Node) : list (nat * jsstring) :=
  match n with
  | Element i p ch =>
      (if p then [(i, textContent n)] else []) ++ flat_map presOfSubtree ch
  | _ => []
  end.

(** [element.querySelectorAll('pre')]: the descendants only. *)
Definition pres (n : Node) : list (nat * jsstring) :=
  match n with
  | Element _ _ ch => flat_map presOfSubtree ch
  | _ => []
  end.

Definition isElement (n : Node) : bool :=
  match n with Element _ _ _ => true | _ => false end.

Inductive MutationType := ChildList | Attributes | CharacterData.

Record MutationRecord := mkMutation {
  mutationType : MutationType;
  addedNodes : list Node
}.

(** A [MutationObserver] object: whether it observes [document.body]. *)
Record MutationObserver := mkObserver {
  observing : bool
}.

(** What the process callback learns from its call of [renderFunctionCall]:
    whether the block was added to [processedElements] (lines 426-429), and
    whether the call ran to its end, through lines 861-868, rather than
    returning early or throwing. *)
Record RenderOutcome := mkOutcome {
  addsToProcessed : bool;
  reachesEnd : bool
}.

Inductive Timeout :=
| ProcessBlock (block index total : nat) (currentObserverStatus : bool)
| RestoreFlag (currentObserverStatus : bool)
| SetupObserver.

(** The module state and the part of the page the observer works on.  The
    variable [domObserver] is the only reference to the observer object,
    and the object is disconnected before the variable is set to null, so
    the object is kept in place. *)
Record Watch := mkWatch {
  domObserver : option MutationObserver;
  observerEnabled : bool;
  dataProcessed : gset nat;        (* elements with attribute data-processed *)
  processedElements : gset nat;
  now : nat;                       (* the clock, in ms *)
  pending : list (nat * Timeout)   (* pending timeouts: due time, callback;
                                      in the order they were set *)
}.

Definition setObserver (m : option MutationObserver) (st : Watch) : Watch :=
  mkWatch m (observerEnabled st) (dataProcessed st) (processedElements st)
          (now st) (pending st).

Definition setEnabled (b : bool) (st : Watch) : Watch :=
  mkWatch (domObserver st) b (dataProcessed st) (processedElements st)
          (now st) (pending st).

Definition setDataProcessed (s : gset nat) (st : Watch) : Watch :=
  mkWatch (domObserver st) (observerEnabled st) s (processedElements st)
          (now st) (pending st).

Definition setProcessedElements (s : gset nat) (st : Watch) : Watch :=
  mkWatch (domObserver st) (observerEnabled st) (dataProcessed st) s
          (now st) (pending st).

Definition setNow (t : nat) (st : Watch) : Watch :=
  mkWatch (domObserver st) (observerEnabled st) (dataProcessed st)
          (processedElements st) t (pending st).

Definition setPending (ts : list (nat * Timeout)) (st : Watch) : Watch :=
  mkWatch (domObserver st) (observerEnabled st) (dataProcessed st)
          (processedElements st) (now st) ts.

Definition scheduleTimeout (cb : Timeout) (delay : nat) (st : Watch) : Watch :=
  setPending (pending st ++ [(now st + delay, cb)]) st.

(** [domObserver.disconnect()] *)
Definition disconnect (st : Watch) : Watch :=
  setObserver (option_map (fun _ => mkObserver false) (domObserver st)) st.

(** [setupDOMObserver] (lines 78-161), the callback apart. *)
Definition setupDOMObserver (st : Watch) : Watch :=
  match domObserver st with
  | Some _ =>
      if observerEnabled st then st
      else setEnabled true (setObserver (Some (mkObserver true)) st)
  | None => setEnabled true (setObserver (Some (mkObserver true)) st)
  end.

Definition enableDOMObserver (st : Watch) : Watch := setEnabled true st.

Definition disableDOMObserver (st : Watch) : Watch := setEnabled false st.

(** The end of [renderFunctionCall] (lines 861-868). *)
Definition pauseForRender (st : Watch) : Watch :=
  match domObserver st with
  | Some _ => scheduleTimeout SetupObserver 1000 (disconnect st)
  | None => st
  end.

Definition functionCallsTag : jsstring := Eval cbv in js "<function_calls>".

(** [text.includes('<function_calls>')] *)
Definition includesTag (text : jsstring) : bool :=
  match indexOf functionCallsTag text 0 with
  | Some _ => true
  | None => false
  end.

(** The first pass of the callback (lines 93-120).  The state of the pass:
    the elements marked [data-processed], and [functionBlocksToProcess]. *)
Fixpoint examineBlocks (processed : gset nat) (blocks : list (nat * jsstring))
    (st : gset nat * list (nat * jsstring)) : gset nat * list (nat * jsstring) :=
  match blocks with
  | [] => st
  | b :: blocks' =>
      examineBlocks processed blocks'
        ({[ b.1 ]} ∪ st.1,
         if negb (bool_decide (b.1 ∈ processed)) && includesTag b.2
         then st.2 ++ [b] else st.2)
  end.

(** [querySelectorAll('pre:not([data-processed])')] returns a list that does
    not change while the loop marks its members. *)
Definition examineNode (processed : gset nat) (n : Node)
    (st : gset nat * list (nat * jsstring)) : gset nat * list (nat * jsstring) :=
  if isElement n then
    examineBlocks processed
      (List.filter (fun b => negb (bool_decide (b.1 ∈ st.1))) (pres n)) st
  else st.

Definition examineMutation (processed : gset nat) (m : MutationRecord)
    (st : gset nat * list (nat * jsstring)) : gset nat * list (nat * jsstring) :=
  match mutationType m with
  | ChildList => fold_left (fun st n => examineNode processed n st) (addedNodes m) st
  | _ => st
  end.

Definition collect (processed : gset nat) (mutations : list MutationRecord)
    (marked : gset nat) : gset nat * list (nat * jsstring) :=
  fold_left (fun st m => examineMutation processed m st) mutations (marked, []).

(** The second pass (lines 131-148): one timeout per block, 100 ms apart. *)
Fixpoint scheduleBlocks (blocks : list (nat * jsstring)) (index total : nat)
    (status : bool) (st : Watch) : Watch :=
  match blocks with
  | [] => st
  | b :: blocks' =>
      scheduleBlocks blocks' (S index) total status
        (scheduleTimeout (ProcessBlock b.1 index total status) (index * 100) st)
  end.

(** The callback given to [new MutationObserver] (lines 89-150). *)
Definition mutationCallback (mutations : list MutationRecord) (st : Watch) : Watch :=
  if negb (observerEnabled st) then st
  else
    let r := collect (processedElements st) mutations (dataProcessed st) in
    let st := setDataProcessed r.1 st in
    match r.2 with
    | [] => st
    | _ :: _ =>
        let currentObserverStatus := observerEnabled st in
        scheduleBlocks r.2 0 (length r.2) currentObserverStatus
          (setEnabled false st)
    end.

(** The timeout callbacks: processing one block (lines 132-147), restoring
    the flag (lines 142-145), and [setupDOMObserver]. *)
Definition runCallback (cb : Timeout) (o : RenderOutcome) (st : Watch) : Watch :=
  match cb with
  | ProcessBlock block index total status =>
      let st :=
        if addsToProcessed o
        then setProcessedElements ({[ block ]} ∪ processedElements st) st
        else st in
      let st := if reachesEnd o then pauseForRender st else st in
      if index =? total - 1 then scheduleTimeout (RestoreFlag status) 100 st else st
  | RestoreFlag status => setEnabled status st
  | SetupObserver => setupDOMObserver st
  end.

(** The pending timeout that fires next: the one due first; among timeouts
    due at the same time, the one set first.  The result is the timeout and
    the others. *)
Fixpoint earliest (ts : list (nat * Timeout))
    : option ((nat * Timeout) * list (nat * Timeout)) :=
  match ts with
  | [] => None
  | x :: ts' =>
      match earliest ts' with
      | None => Some (x, [])
      | Some (y, rest) =>
          if x.1 <=? y.1 then Some (x, ts') else Some (y, x :: rest)
      end
  end.

(** The next timeout fires, at its due time; the callback takes no time. *)
Definition runNext (o : RenderOutcome) (st : Watch) : Watch :=
  match earliest (pending st) with
  | None => st
  | Some ((due, cb), rest) =>
      runCallback cb o (setNow (Nat.max (now st) due) (setPending rest st))
  end.

(** A run of the event loop with no other event in between: one render
    outcome per timeout that fires. *)
Fixpoint runTimers (env : list RenderOutcome) (st : Watch) : Watch :=
  match env with
  | [] => st
  | o :: env' => runTimers env' (runNext o st)
  end.

(** The module as loaded (lines 74-75, 235-246): no observer yet, and its
    setup pending. *)
Definition loaded : Watch :=
  mkWatch None false ∅ ∅ 0 [(500, SetupObserver)].

(** The nodes the first pass looks at: those added by child-list records. *)
Definition addedByChildList (mutations : list MutationRecord) : list Node :=
  flat_map
    (fun m => match mutationType m with
              | ChildList => addedNodes m
              | _ => []
              end)
    mutations.

(** The [pre] elements the first pass can reach: the descendants of the
    element nodes added by child-list records, in the order of the pass. *)
Definition candidates (mutations : list MutationRecord) : list (nat * jsstring) :=
  flat_map (fun n => if isElement n then pres n else []) (addedByChildList mutations).

(** The block is one the first pass keeps (line 112). *)
Definition keeps (processed : gset nat) (b : nat * jsstring) : bool :=
  negb (bool_decide (b.1 ∈ processed)) && includesTag b.2.

(** The timeouts of the second pass for the blocks [bs], the first of them
    having the index [k]. *)
Definition processTimers (t0 k total : nat) (status : bool)
    (bs : list (nat * jsstring)) : list (nat * Timeout) :=
  imap (fun j b => (t0 + (k + j) * 100, ProcessBlock b.1 (k + j) total status)) bs.

(** The timeouts are calls of [setupDOMObserver] due 1000 ms or more after
    the time [t0]. *)
Definition lateSetups (t0 : nat) (ts : list (nat * Timeout)) : Prop :=
  Forall (fun y => t0 + 1000 <= y.1 /\ y.2 = SetupObserver) ts.

(** Each query of the pass returns distinct elements. *)
Definition distinctPerNode (mutations : list MutationRecord) : Prop :=
  forall n, In n (addedByChildList mutations) -> NoDup (map fst (pres n)).

(** An element has one text during the pass. *)
Definition oneText (l : list (nat * jsstring)) : Prop :=
  forall i t t', In (i, t) l -> In (i, t') l -> t = t'.

End Observer.

(** ** Notions used to state properties of the ledger keys *)

Module Keys.
Import Ledger.

(** The text holds no colon, the separator of the ledger keys. *)
Definition colonFree (s : jsstring) : bool :=
  forallb (fun ch => negb (ch =? colon)%N) s.

(** The tracker after [markFunctionExecuted] was called for each named call
    of the list, oldest first: function name, call identifier, signature. *)
Definition markAll (calls : list (jsstring * jsstring * jsstring))
    (t : ExecutionTracker) : ExecutionTracker :=
  fold_left (fun t x => markFunctionExecuted t x.1.2 x.2 (Some x.1.1)) calls t.

(** Name, identifier and signature are free of colons, and the name is not
    blank. *)
Definition plainCall (x : jsstring * jsstring * jsstring) : bool :=
  colonFree x.1.1 && colonFree x.1.2 && colonFree x.2
  && negb (bool_decide (trim x.1.1 = [])).

End Keys.

(** ** Notions used to state properties of the scheduler *)

Module Buttons.
Import Ledger Sched.

(** The enclosing block of a button is the one the fallback search of
    [retry] looks for: its name text is the function name, or its
    identifier is the block identifier (lines 798-810). *)
Definition blockMatches (c : Ctx) (p : ParentBlock) : bool :=
  match parentNameText p with
  | Some t => str_eqb t (functionName c)
  | None => false
  end
  || match parentBlockId p with
     | Some i => str_eqb i (blockId c)
     | None => false
     end.

(** The button has an enclosing block, and it matches. *)
Definition buttonMatches (c : Ctx) (x : nat * option ParentBlock) : bool :=
  match x.2 with
  | Some p => blockMatches c p
  | None => false
  end.

(** The scanner does not skip the button (line 199). *)
Definition eligible (o : Obs) (b : nat) : bool :=
  negb (disabled (buttonState o b)) && negb (autoExecReadyFalse (buttonState o b)).

(** The click timeouts of one scan: for each eligible button, by its
    position [i] among all execute buttons of the document counted from
    [k], the delay 300 (i + 1). *)
Definition clickTimers (o : Obs) (k : nat) (bs : list (nat * option ParentBlock))
    : list (Q * Callback) :=
  omap id
    (imap (fun i x =>
             if eligible o x.1
             then Some (300 * inject_Z (Z.of_nat (k + i + 1)), CbScannerClick x.1)%Q
             else None) bs).

(** The callback belongs to the periodic scanner. *)
Definition isScannerCallback (cb : Callback) : bool :=
  match cb with
  | CbScanner | CbScannerClick _ => true
  | _ => false
  end.

Definition isClickThrew (e : Event) : bool :=
  match e with EvClickThrew _ => true | _ => false end.

Definition setTracker (t : ExecutionTracker) (st : State) : State :=
  mkState (toggleState st) t (timers st) (log st).

Definition setStorage (s : Storage) (o : Obs) : Obs :=
  mkObs s (buttonState o) (containerButton o) (allButtons o) (clickThrows o).

End Buttons.

(** ** Notions used to state properties of the rendered parameters *)

Module Shown.
Import Ledger Sched Params Render.

(** The text a value element shows. *)
Definition bodyText (b : ValueBody) : jsstring :=
  match b with
  | BodyText t => t
  | BodyPre t => t
  end.

(** The streaming markers of the parameter [id], as the queries of
    [createOrUpdateParamElement] find them: class [streaming-param-name] of
    its name element, attribute [data-streaming] of its value element;
    [false] when the element does not exist. *)
Definition nameMarker (id : jsstring) (s : ParamStore) : bool :=
  match storeName id s with
  | Some e => pnStreaming e
  | None => false
  end.

Definition valueMarker (id : jsstring) (s : ParamStore) : bool :=
  match storeValue id s with
  | Some e => pvStreaming e
  | None => false
  end.

(** The name element of the rendered block holds a spinner. *)
Definition spinnerShown (d : BlockDiv) : bool :=
  match functionNameEl d with
  | Some n => spinner n
  | None => false
  end.

(** The lifecycle marks of a rendered block are consistent: it is not both
    loading and complete, and it shows a spinner only while loading. *)
Definition tidy (d : BlockDiv) : bool :=
  negb (loading d && complete d) && implb (spinnerShown d) (loading d).

Definition isExecuteButtonKind (k : NodeKind) : bool :=
  match k with KExecuteButton => true | _ => false end.

(** The only event is the timeout that sets the observer up again. *)
Definition isObserverTimeout (e : Event) : bool :=
  match e with
  | EvSetTimeout CbSetupDOMObserver _ => true
  | _ => false
  end.

(** The event belongs to an auto-execution: a mark of the ledger, a pass
    of the retry loop, a click, or a timeout of a retry chain. *)
Definition isAutoExecutionEvent (e : Event) : bool :=
  match e with
  | EvSetTimeout (CbSetupAutoExecution _) _ | EvSetTimeout (CbRetry _ _) _ => true
  | EvSetTimeout _ _ => false
  | _ => true
  end.

End Shown.

(** ** Concrete calls, observations and states used in the examples *)

Module Examples.
Import Ledger Sched Chain Page Params Render.

Definition noStorage : Storage :=
  mkStorage (fun _ _ _ => false) (fun _ _ => false).

Definition allStored : Storage :=
  mkStorage (fun _ _ _ => true) (fun _ _ => true).

Definition searchName : jsstring := Eval cbv in js "search".
Definition block1 : jsstring := Eval cbv in js "block-1".
Definition call1 : jsstring := Eval cbv in js "c1".
Definition sig1 : jsstring := Eval cbv in js "sig1".

(** The call search, identifier c1, of block block-1, with signature sig1. *)
Definition ctxSearch : Ctx := mkCtx searchName block1 call1 (Some sig1).

Definition enabledButton : Button := mkButton false false.
Definition disabledButton : Button := mkButton true false.

Definition parentSearch : ParentBlock :=
  mkParent (Some searchName) (Some block1).

(** The block's button is in its container and enabled. *)
Definition obsEnabled : Obs :=
  mkObs noStorage (fun _ => enabledButton) (Some 0) [(0, Some parentSearch)] false.

(** The block's button is in its container and disabled. *)
Definition obsDisabled : Obs :=
  mkObs noStorage (fun _ => disabledButton) (Some 0) [(0, Some parentSearch)] false.

(** As [obsEnabled], and storage holds a record for every key. *)
Definition obsStored : Obs :=
  mkObs allStored (fun _ => enabledButton) (Some 0) [(0, Some parentSearch)] false.

(** Auto-execute on, nothing tracked, nothing pending. *)
Definition stOn : State := mkState (Some (PrefBool true)) emptyTracker [] [].

(** No preference set yet. *)
Definition stFresh : State := mkState None emptyTracker [] [].

(** Auto-execute on, and the in-process set already holds the key of
    [ctxSearch]; storage has no record of it. *)
Definition stMarked : State :=
  mkState (Some (PrefBool true))
          (markFunctionExecuted emptyTracker call1 sig1 (Some searchName)) [] [].

(** The module as loaded, with auto-execute on. *)
Definition stLoaded : State := loaded (Some (PrefBool true)).

(** A second block, block-2, showing the same call. *)
Definition block2 : jsstring := Eval cbv in js "block-2".

Definition ctxSearchAgain : Ctx := mkCtx searchName block2 call1 (Some sig1).

(** The button of the second block, button 1, is in its container. *)
Definition obsSecond : Obs :=
  mkObs noStorage (fun _ => enabledButton) (Some 1)
        [(0, Some parentSearch); (1, Some (mkParent (Some searchName) (Some block2)))]
        false.

(** An activation handler that leaves the control as it is, one that
    leaves it disabled, and a page that does not touch the buttons
    otherwise. *)
Definition idleHandler : Button -> Button := fun b => b.

Definition disablingHandler : Button -> Button := fun _ => disabledButton.

Definition quietEnv : (nat -> nat) -> (nat -> Button) -> (nat -> Button) -> Prop :=
  fun _ bs bs' => bs' = bs.

(** Auto-execute on, every button enabled, the module just loaded. *)
Definition sysStart : Sys :=
  loadedSys (Some (PrefBool true)) noStorage (fun _ => enabledButton).

(** [sysStart] after a rendering saw the call complete and clicked; the
    handler leaves the button disabled. *)
Definition sysRendered : Sys :=
  afterCallback disablingHandler sysStart
    (autoExecuteSection ctxSearch obsEnabled (sched sysStart)).2.

(** A firing of the only pending callback of a scheduling, on a page where
    the button is disabled. *)
Definition firingDisabled : Firing := mkFiring 0 obsDisabled stLoaded.

(** The block block-1 is scheduled on the page just loaded while its
    button is disabled, and the timeouts fire, oldest first, until the
    chain has run out: the setup of the observer, then nine times the
    scanner and a callback of the chain.  Then the block is scheduled once
    more, and again the timeouts fire until the chain has run out. *)
Definition firstScheduling : State :=
  drive (repeat obsDisabled 19) (autoExecuteSection ctxSearch obsDisabled stLoaded).2.

Definition secondScheduling : State :=
  drive (repeat obsDisabled 18)
        (autoExecuteSection ctxSearch obsDisabled firstScheduling).2.

Definition isMarkOfBlock (b : jsstring) (e : Event) : bool :=
  match e with
  | EvMarkBlock b' => str_eqb b' b
  | _ => true
  end.

(** The streaming scenario of the specification: the text seen so far, and
    the completed text. *)
Definition scenarioHead : jsstring :=
  Eval cbv in
    js "<function_calls><invoke name=" ++ [dquote] ++ js "search" ++ [dquote]
    ++ js " call_id=" ++ [dquote] ++ js "c1" ++ [dquote]
    ++ js "><parameter name=" ++ [dquote] ++ js "q" ++ [dquote] ++ js ">".

Definition scenarioPartial : jsstring := Eval cbv in scenarioHead ++ js "hel".

Definition scenarioFinal : jsstring :=
  Eval cbv in scenarioHead ++ js "hel lo</parameter></invoke></function_calls>".

(** A parameter whose name holds a line feed: the letter a, a line feed,
    the letter b. *)
Definition nameWithLineFeed : jsstring := [97; 10; 98]%N.

Definition lineFeedParameter : jsstring :=
  Eval cbv in
    js "<parameter name=" ++ [dquote] ++ nameWithLineFeed ++ [dquote]
    ++ js ">x</parameter>".

(** Two open tags, and no closing tag yet. *)
Definition twoOpenTags : jsstring :=
  Eval cbv in
    js "<parameter name=" ++ [dquote] ++ js "a" ++ [dquote] ++ js ">x"
    ++ js "<parameter name=" ++ [dquote] ++ js "b" ++ [dquote] ++ js ">y".

(** A streaming CDATA value cut in the middle of its terminator. *)
Definition cdataCut : jsstring :=
  Eval cbv in
    js "<parameter name=" ++ [dquote] ++ js "q" ++ [dquote]
    ++ js "><![CDATA[abc]]".

(** Modelled from the spec: the functions of the other modules, for the
    examples.  Section 4.1: the text holds a call when it holds the opening
    tag of the directive, and the call is complete when its closing tag is
    present; section 4.2: the complete parameter map; section 3: a
    signature determined by the function name and the parameter map. *)
Definition openCalls : jsstring := Eval cbv in js "<function_calls>".
Definition closeCalls : jsstring := Eval cbv in js "</function_calls>".

Definition scanTags (s : jsstring) : FunctionInfo :=
  mkInfo (bool_decide (is_Some (indexOf openCalls s 0)))
         (bool_decide (is_Some (indexOf closeCalls s 0))) None.

Definition noLanguageTag (s : jsstring) : option jsstring * jsstring := (None, s).

Definition paramMapOf (s : jsstring) : option (list (jsstring * jsstring)) :=
  Some (map (fun e => (paramName e, extractedValue e)) (extractParams s)).

Definition signatureOf (name : jsstring) (ps : list (jsstring * jsstring)) : jsstring :=
  name ++ flat_map (fun kv => colon :: kv.1 ++ colon :: kv.2) ps.

Definition renderExample : jsstring -> Obs -> World -> bool * World :=
  renderFunctionCall (list (jsstring * jsstring)) scanTags noLanguageTag
    paramMapOf signatureOf.

(** A page on which nothing has been rendered, holding the raw block [b]. *)
Definition worldOf (b : PreBlock) : World :=
  mkWorld b false ∅ ∅ [] ∅ false 0 stOn [].

(** The completed call of the scenario in a block without identifier: once
    detached from the document, once with a parent. *)
Definition worldDetached : World :=
  worldOf (mkPre scenarioFinal None false false false).

Definition worldAttached : World :=
  worldOf (mkPre scenarioFinal None true false false).

(** The digits of two generated identifiers. *)
Definition gen1 : jsstring := Eval cbv in js "1700000000000-k3x9a2b".
Definition gen2 : jsstring := Eval cbv in js "1700000000050-q7m1c4d".

(** A page watched by the observer, and a mutation that adds a [div]
    holding one [pre] block with the completed call of the scenario. *)
Definition watching : Observer.Watch :=
  Observer.mkWatch (Some (Observer.mkObserver true)) true ∅ ∅ 1000 [].

Definition addedDiv : Observer.Node :=
  Observer.Element 0 false
    [Observer.Element 1 true [Observer.TextNode scenarioFinal]].

Definition oneMutation : list Observer.MutationRecord :=
  [Observer.mkMutation Observer.ChildList [addedDiv]].

(** A render that registers the block and runs to its end. *)
Definition rendersFully : Observer.RenderOutcome := Observer.mkOutcome true true.

End Examples.

(** * Properties of the parameter extraction *)

Module ParamsFacts.
Import Params Examples.

(** *** Strings *)

Lemma starts_with_spec (p s : jsstring) :
  starts_with p s = true <-> exists post, s = p ++ post.
Proof.
  revert s. induction p as [|a p IH]; intros s; simpl.
  - split; [intros _; exists s; reflexivity | reflexivity].
  - destruct s as [|b s].
    + split; [discriminate | intros [post H]; discriminate H].
    + rewrite andb_true_iff, N.eqb_eq, IH. split.
      * intros [-> [post ->]]. exists post. reflexivity.
      * intros [post H]. injection H as -> ->. split; [reflexivity | exists post; reflexivity].
Qed.

Lemma str_eqb_spec (a b : jsstring) : str_eqb a b = true <-> a = b.
Proof.
  revert b. induction a as [|x a IH]; intros [|y b]; simpl; try (split; [discriminate|discriminate]); try tauto.
  rewrite andb_true_iff, N.eqb_eq, IH. split; [intros [-> ->]; reflexivity | intros H; injection H; auto].
Qed.

Lemma occursAt_drop (pat s : jsstring) (j : nat) :
  occursAt pat s j <-> j <= length s /\ starts_with pat (drop j s) = true.
Proof.
  unfold occursAt. rewrite starts_with_spec. split.
  - intros (pre & post & -> & <-). split.
    + rewrite length_app. lia.
    + exists post. rewrite drop_app_length. reflexivity.
  - intros [Hj [post H]]. exists (take j s), post. split.
    + rewrite <- H. symmetry. apply take_drop.
    + apply length_take_le. assumption.
Qed.

(** [index_from] returns the first occurrence. *)
Lemma index_from_Some (pat s : jsstring) (i j : nat) :
  index_from pat s i = Some j ->
  i <= j /\ j - i <= length s /\ starts_with pat (drop (j - i) s) = true /\
  forall k, k < j - i -> starts_with pat (drop k s) = false.
Proof.
  revert i. induction s as [|c s IH]; intros i; simpl.
  - destruct (starts_with pat []) eqn:E; [|discriminate].
    intros [= <-]. rewrite Nat.sub_diag. repeat split; try lia. exact E.
  - destruct (starts_with pat (c :: s)) eqn:E.
    + intros [= <-]. rewrite Nat.sub_diag. repeat split; try lia. exact E.
    + intros H. destruct (IH _ H) as (H1 & H2 & H3 & H4).
      replace (j - i) with (S (j - S i)) by lia. simpl.
      repeat split; try lia; try assumption.
      intros [|k] Hk; simpl; [exact E | apply H4; lia].
Qed.

Lemma index_from_None (pat s : jsstring) (i : nat) :
  index_from pat s i = None -> forall k, starts_with pat (drop k s) = false.
Proof.
  revert i. induction s as [|c s IH]; intros i; simpl.
  - destruct (starts_with pat []) eqn:E; [discriminate|].
    intros _ k. rewrite drop_nil. exact E.
  - destruct (starts_with pat (c :: s)) eqn:E; [discriminate|].
    intros H [|k]; simpl; [exact E | apply (IH _ H)].
Qed.

Lemma indexOf_Some (pat s : jsstring) (from j : nat) :
  from <= length s -> indexOf pat s from = Some j ->
  from <= j /\ occursAt pat s j /\
  forall k, from <= k < j -> ~ occursAt pat s k.
Proof.
  intros Hf. unfold indexOf. rewrite Nat.min_l by assumption.
  intros H. destruct (index_from_Some _ _ _ _ H) as (H1 & H2 & H3 & H4).
  rewrite length_drop in H2. rewrite drop_drop in H3.
  replace (from + (j - from)) with j in H3 by lia.
  split; [assumption|]. split.
  - apply occursAt_drop. split; [lia | assumption].
  - intros k Hk Ho. apply occursAt_drop in Ho as [_ Ho].
    specialize (H4 (k - from)). rewrite drop_drop in H4.
    replace (from + (k - from)) with k in H4 by lia.
    rewrite H4 in Ho by lia. discriminate.
Qed.

Lemma indexOf_None (pat s : jsstring) (from : nat) :
  indexOf pat s from = None -> forall k, from <= k -> ~ occursAt pat s k.
Proof.
  unfold indexOf. intros H k Hk Ho. apply occursAt_drop in Ho as [_ Ho].
  pose proof (index_from_None _ _ _ H (k - from)) as Hn.
  rewrite drop_drop in Hn. replace (from + (k - from)) with k in Hn by lia.
  congruence.
Qed.

Lemma span_spec (f : N -> bool) (s a b : jsstring) :
  span f s = (a, b) ->
  s = a ++ b /\ Forall (fun c => f c = true) a /\
  match b with [] => True | c :: _ => f c = false end.
Proof.
  revert a b. induction s as [|c s IH]; intros a b; simpl.
  - intros [= <- <-]. repeat split. constructor.
  - destruct (f c) eqn:E.
    + destruct (span f s) as [a' b'] eqn:Hs. intros [= <- <-].
      destruct (IH _ _ eq_refl) as (-> & Ha & Hb).
      repeat split; [constructor; assumption | assumption].
    + intros [= <- <-]. repeat split; [constructor | exact E].
Qed.

Lemma strip_prefix_spec (p s r : jsstring) :
  strip_prefix p s = Some r -> s = p ++ r.
Proof.
  unfold strip_prefix. destruct (starts_with p s) eqn:E; [|discriminate].
  intros [= <-]. apply starts_with_spec in E as [post ->].
  rewrite drop_app_length. reflexivity.
Qed.

(** A successful match spells out the open tag. *)
Lemma paramStartRegex_shape (s nm : jsstring) (len : nat) :
  paramStartRegex s = Some (nm, len) ->
  exists ws attrs rest,
    s = paramOpen ++ ws ++ nameEq ++ nm ++ dquote :: attrs ++ gt_sign :: rest
    /\ ws <> [] /\ Forall (fun c => is_ws c = true) ws
    /\ nm <> [] /\ Forall (fun c => c <> dquote) nm
    /\ Forall (fun c => c <> gt_sign) attrs
    /\ len = length paramOpen + length ws + length nameEq + length nm + 1
             + length attrs + 1.
Proof.
  unfold paramStartRegex.
  destruct (strip_prefix paramOpen s) as [s1|] eqn:H1; [|discriminate].
  destruct (span is_ws s1) as [ws s2] eqn:H2.
  destruct ws as [|w ws]; [discriminate|].
  destruct (strip_prefix nameEq s2) as [s3|] eqn:H3; [|discriminate].
  destruct (span _ s3) as [nm' s4] eqn:H4.
  destruct nm' as [|n0 nm']; [discriminate|].
  destruct s4 as [|q s5]; [discriminate|].
  destruct (span _ s5) as [attrs s6] eqn:H5.
  destruct s6 as [|g s6]; [discriminate|].
  intros [= <- <-].
  apply strip_prefix_spec in H1, H3.
  apply span_spec in H2 as (E2 & F2 & _).
  apply span_spec in H4 as (E4 & F4 & Q4).
  apply span_spec in H5 as (E5 & F5 & Q5).
  apply negb_false_iff, N.eqb_eq in Q4, Q5. subst q g.
  exists (w :: ws), attrs, s6. subst s s1 s2 s3 s5.
  repeat split; try discriminate; try assumption.
  - eapply Forall_impl; [exact F4|]. intros c Hc. apply negb_true_iff, N.eqb_neq in Hc. exact Hc.
  - eapply Forall_impl; [exact F5|]. intros c Hc. apply negb_true_iff, N.eqb_neq in Hc. exact Hc.
Qed.

Lemma paramStartRegex_len (s nm : jsstring) (len : nat) :
  paramStartRegex s = Some (nm, len) -> 0 < len <= length s.
Proof.
  intros H. apply paramStartRegex_shape in H as (ws & attrs & rest & -> & _ & _ & _ & _ & _ & ->).
  rewrite !length_app. simpl. rewrite !length_app. simpl. lia.
Qed.

Lemma substring_le (s : jsstring) (a b : nat) :
  a <= b -> substring s a b = take (b - a) (drop a s).
Proof. intros H. unfold substring. rewrite Nat.max_r, Nat.min_l by lia. reflexivity. Qed.

(** The body of the loop meets the specification of an entry. *)
Lemma paramOfMatch_spec (raw nm : jsstring) (i len : nat) :
  i <= length raw ->
  paramStartRegex (drop i raw) = Some (nm, len) ->
  entrySpec raw (paramOfMatch raw i nm len)
  /\ matchIndex (paramOfMatch raw i nm len) = i
  /\ startIndex (paramOfMatch raw i nm len) = i + len.
Proof.
  intros Hi Hm. pose proof (paramStartRegex_len _ _ _ Hm) as Hlen.
  rewrite length_drop in Hlen.
  unfold paramOfMatch, entrySpec.
  destruct (indexOf endTag raw (i + len)) as [j|] eqn:Hj; simpl.
  - assert (Hle : i + len <= length raw) by lia.
    destruct (indexOf_Some _ _ _ _ Hle Hj) as (H1 & H2 & H3).
    replace (i + len - i) with len by lia.
    repeat split; try assumption; try lia; try discriminate.
    intros _. exists j. repeat split; try assumption.
    rewrite substring_le by assumption. reflexivity.
  - replace (i + len - i) with len by lia.
    repeat split; try assumption; try lia; try discriminate.
    intros k Hk. apply (indexOf_None _ _ _ Hj). assumption.
Qed.

(** The loop: every entry meets its specification, and the entries come in
    document order, none starting inside the open tag of an earlier one. *)
Lemma scanParams_spec (raw : jsstring) :
  forall (s : jsstring) (i skip : nat),
  s = drop i raw -> i <= length raw ->
  Forall (fun e => i + skip <= matchIndex e /\ entrySpec raw e)
         (scanParams raw s i skip)
  /\ StronglySorted (fun e1 e2 => startIndex e1 <= matchIndex e2)
                    (scanParams raw s i skip).
Proof.
  induction s as [|c s IH]; intros i skip Hs Hi; simpl.
  { split; constructor. }
  assert (Hi' : S i <= length raw).
  { destruct (Nat.eq_dec i (length raw)) as [->|]; [|lia].
    rewrite drop_all in Hs. discriminate. }
  assert (Hs' : s = drop (S i) raw).
  { replace (S i) with (i + 1) by lia. rewrite <- drop_drop, <- Hs. reflexivity. }
  destruct skip as [|k].
  - destruct (paramStartRegex (c :: s)) as [[nm len]|] eqn:Hm.
    + rewrite Hs in Hm.
      destruct (paramOfMatch_spec raw nm i len Hi Hm) as (He & Hmi & Hsi).
      pose proof (paramStartRegex_len _ _ _ Hm) as Hlen.
      destruct (IH (S i) (len - 1) Hs' Hi') as (HF & HS).
      split.
      * constructor; [split; [lia | assumption]|].
        eapply Forall_impl; [exact HF|]. intros e [H1 H2]. split; [lia | assumption].
      * constructor; [assumption|].
        eapply Forall_impl; [exact HF|]. intros e [H1 _]. rewrite Hsi. lia.
    + destruct (IH (S i) 0 Hs' Hi') as (HF & HS). split; [|assumption].
      eapply Forall_impl; [exact HF|]. intros e [H1 H2]. split; [lia | assumption].
  - destruct (IH (S i) k Hs' Hi') as (HF & HS). split; [|assumption].
    eapply Forall_impl; [exact HF|]. intros e [H1 H2]. split; [lia | assumption].
Qed.

Lemma extractParams_entries (raw : jsstring) :
  Forall (entrySpec raw) (extractParams raw)
  /\ StronglySorted (fun e1 e2 => startIndex e1 <= matchIndex e2) (extractParams raw).
Proof.
  destruct (scanParams_spec raw raw 0 0 eq_refl ltac:(lia)) as (HF & HS).
  split; [|exact HS].
  eapply Forall_impl; [exact HF|]. intros e [_ H]. exact H.
Qed.

(** Once a parameter is streaming, every later one is. *)
Lemma streaming_last (raw : jsstring) :
  StronglySorted (fun e1 e2 => isParamStreaming e1 = true -> isParamStreaming e2 = true)
                 (extractParams raw).
Proof.
  destruct (extractParams_entries raw) as (HF & HS).
  induction HS as [|e l HS IH Hall]; [constructor|].
  inversion HF as [|? ? He HF']; subst.
  constructor; [apply IH; assumption|].
  rewrite Forall_forall in *. intros e2 Hin Hstr.
  destruct (isParamStreaming e2) eqn:E2; [reflexivity|].
  destruct He as (_ & _ & _ & Hs1). destruct (Hs1 Hstr) as (Hno & _).
  destruct (HF' e2 Hin) as (_ & Hr2 & Hc2 & _).
  destruct (Hc2 E2) as (j & Hj & Hocc & _).
  exfalso. apply (Hno j); [|assumption].
  specialize (Hall e2 Hin). lia.
Qed.

(** Every position where the open-tag expression matches is reported, or
    lies inside the open tag of a reported parameter. *)
Lemma scanParams_complete (raw : jsstring) :
  forall (s : jsstring) (i skip : nat),
  s = drop i raw -> i <= length raw ->
  forall p, i + skip <= p ->
    paramStartRegex (drop p raw) <> None ->
    Exists (fun e => matchIndex e = p \/ matchIndex e < p < startIndex e)
           (scanParams raw s i skip).
Proof.
  induction s as [|c s IH]; intros i skip Hs Hi p Hp Hm; simpl.
  { exfalso. apply Hm.
    assert (Hge : length raw <= i).
    { apply (f_equal length) in Hs. rewrite length_drop in Hs. simpl in Hs. lia. }
    rewrite drop_ge by lia. reflexivity. }
  assert (Hi' : S i <= length raw).
  { destruct (Nat.eq_dec i (length raw)) as [->|]; [|lia].
    rewrite drop_all in Hs. discriminate. }
  assert (Hs' : s = drop (S i) raw).
  { replace (S i) with (i + 1) by lia. rewrite <- drop_drop, <- Hs. reflexivity. }
  destruct skip as [|k].
  - destruct (paramStartRegex (c :: s)) as [[nm len]|] eqn:Hc.
    + rewrite Hs in Hc.
      destruct (paramOfMatch_spec raw nm i len Hi Hc) as (_ & Hmi & Hsi).
      pose proof (paramStartRegex_len _ _ _ Hc) as Hlen.
      destruct (Nat.lt_ge_cases p (i + len)) as [Hlt|Hge].
      * apply Exists_cons_hd. rewrite Hmi, Hsi. lia.
      * apply Exists_cons_tl. apply (IH (S i) (len - 1)); try assumption. lia.
    + destruct (Nat.eq_dec p i) as [->|Hne].
      * rewrite <- Hs in Hm. contradiction.
      * apply (IH (S i) 0); try assumption. lia.
  - apply (IH (S i) k); try assumption. lia.
Qed.

(** *** Extending the text *)

Lemma starts_with_app (p s x : jsstring) :
  starts_with p s = true -> starts_with p (s ++ x) = true.
Proof.
  rewrite !starts_with_spec. intros [post ->]. exists (post ++ x).
  rewrite app_assoc. reflexivity.
Qed.

Lemma starts_with_app_inv (p s x : jsstring) :
  starts_with p (s ++ x) = true -> length p <= length s -> starts_with p s = true.
Proof.
  revert s. induction p as [|a p IH]; intros s; simpl; [reflexivity|].
  destruct s as [|b s]; simpl; [intros _ H; lia|].
  rewrite !andb_true_iff. intros [H1 H2] Hl. split; [assumption|].
  apply IH; [assumption | lia].
Qed.

Lemma starts_with_length (p s : jsstring) :
  starts_with p s = true -> length p <= length s.
Proof.
  rewrite starts_with_spec. intros [post ->]. rewrite length_app. lia.
Qed.

Lemma index_from_app (pat s x : jsstring) (i j : nat) :
  index_from pat s i = Some j -> index_from pat (s ++ x) i = Some j.
Proof.
  revert i. induction s as [|c s IH]; intros i H.
  - simpl in H. destruct (starts_with pat []) eqn:E; [|discriminate].
    injection H as <-. destruct pat; [|discriminate E].
    destruct x; reflexivity.
  - simpl in H. change ((c :: s) ++ x) with (c :: s ++ x).
    cbn [index_from].
    destruct (starts_with pat (c :: s)) eqn:E.
    + pose proof (starts_with_app _ _ x E) as E2.
      change ((c :: s) ++ x) with (c :: s ++ x) in E2.
      rewrite E2. exact H.
    + destruct (starts_with pat (c :: s ++ x)) eqn:E'.
      * exfalso. destruct (index_from_Some _ _ _ _ H) as (_ & _ & H3 & _).
        apply starts_with_length in H3. rewrite length_drop in H3.
        change (c :: s ++ x) with ((c :: s) ++ x) in E'.
        apply starts_with_app_inv in E'; [congruence | simpl; lia].
      * apply IH. exact H.
Qed.

Lemma indexOf_app (pat s x : jsstring) (from j : nat) :
  from <= length s -> indexOf pat s from = Some j ->
  indexOf pat (s ++ x) from = Some j.
Proof.
  intros Hf. unfold indexOf. rewrite length_app.
  rewrite !Nat.min_l by lia. rewrite drop_app_le by assumption.
  apply index_from_app.
Qed.

(** A parameter whose closing tag is in the text keeps its entry when the
    text grows. *)
Lemma paramOfMatch_app (raw ext nm : jsstring) (i len : nat) :
  i + len <= length raw ->
  isParamStreaming (paramOfMatch raw i nm len) = false ->
  paramOfMatch (raw ++ ext) i nm len = paramOfMatch raw i nm len.
Proof.
  intros Hle. unfold paramOfMatch.
  destruct (indexOf endTag raw (i + len)) as [j|] eqn:Hj; [|discriminate].
  intros _. rewrite (indexOf_app _ _ ext _ _ Hle Hj).
  destruct (indexOf_Some _ _ _ _ Hle Hj) as (H1 & H2 & _).
  apply occursAt_drop in H2 as [H2 _].
  rewrite !substring_le by assumption.
  rewrite drop_app_le by lia. rewrite take_app_le; [reflexivity|].
  rewrite length_drop. lia.
Qed.

Lemma span_app_stop (f : N -> bool) (p r : jsstring) :
  Forall (fun c => f c = true) p ->
  match r with [] => True | c :: _ => f c = false end ->
  span f (p ++ r) = (p, r).
Proof.
  intros Hp Hr. induction Hp as [|c p Hc Hp IH]; simpl.
  - destruct r as [|c r]; [reflexivity|]. simpl. rewrite Hr. reflexivity.
  - rewrite Hc, IH. reflexivity.
Qed.

Lemma strip_prefix_app (p y : jsstring) : strip_prefix p (p ++ y) = Some y.
Proof.
  unfold strip_prefix.
  assert (H : starts_with p (p ++ y) = true) by (apply starts_with_spec; eauto).
  rewrite H, drop_app_length. reflexivity.
Qed.

(** The converse of [paramStartRegex_shape]. *)
Lemma paramStartRegex_of_shape (ws nm attrs rest : jsstring) :
  ws <> [] -> Forall (fun c => is_ws c = true) ws ->
  nm <> [] -> Forall (fun c => c <> dquote) nm ->
  Forall (fun c => c <> gt_sign) attrs ->
  paramStartRegex
    (paramOpen ++ ws ++ nameEq ++ nm ++ dquote :: attrs ++ gt_sign :: rest)
  = Some (nm, length paramOpen + length ws + length nameEq + length nm + 1
              + length attrs + 1).
Proof.
  intros Hws Fws Hnm Fnm Fat. unfold paramStartRegex.
  rewrite strip_prefix_app.
  rewrite (span_app_stop is_ws ws (nameEq ++ _) Fws) by reflexivity.
  destruct ws as [|w ws]; [contradiction|].
  rewrite strip_prefix_app.
  rewrite (span_app_stop _ nm (dquote :: _)).
  2:{ eapply Forall_impl; [exact Fnm|]. intros c Hc. apply negb_true_iff, N.eqb_neq. exact Hc. }
  2:{ reflexivity. }
  destruct nm as [|n0 nm]; [contradiction|].
  rewrite (span_app_stop _ attrs (gt_sign :: rest)).
  2:{ eapply Forall_impl; [exact Fat|]. intros c Hc. apply negb_true_iff, N.eqb_neq. exact Hc. }
  2:{ reflexivity. }
  reflexivity.
Qed.

(** A match that ends inside [a] is a match of [a]. *)
Lemma paramStartRegex_local (a x nm : jsstring) (len : nat) :
  paramStartRegex (a ++ x) = Some (nm, len) -> len <= length a ->
  paramStartRegex a = Some (nm, len).
Proof.
  intros H Hlen.
  destruct (paramStartRegex_shape _ _ _ H)
    as (ws & attrs & rest & E & Hws & Fws & Hnm & Fnm & Fat & ->).
  set (tag := paramOpen ++ ws ++ nameEq ++ nm ++ dquote :: attrs ++ [gt_sign]).
  assert (Et : a ++ x = tag ++ rest).
  { rewrite E. unfold tag. rewrite <- !app_assoc. simpl. rewrite <- !app_assoc. reflexivity. }
  assert (Hl : length tag <= length a).
  { unfold tag. rewrite !length_app. simpl. rewrite !length_app. simpl.
    simpl in Hlen. lia. }
  assert (Ea : a = tag ++ drop (length tag) a).
  { rewrite <- (take_drop (length tag) a) at 1. f_equal.
    apply (f_equal (take (length tag))) in Et.
    rewrite take_app_le in Et by assumption.
    rewrite take_app_length in Et. exact Et. }
  rewrite Ea. unfold tag. rewrite <- !app_assoc. simpl. rewrite <- !app_assoc. simpl.
  apply paramStartRegex_of_shape; assumption.
Qed.

Lemma paramStartRegex_app (s x nm : jsstring) (len : nat) :
  paramStartRegex s = Some (nm, len) -> paramStartRegex (s ++ x) = Some (nm, len).
Proof.
  intros H.
  destruct (paramStartRegex_shape _ _ _ H)
    as (ws & attrs & rest & -> & Hws & Fws & Hnm & Fnm & Fat & ->).
  rewrite <- !app_assoc. simpl. rewrite <- !app_assoc. simpl.
  apply paramStartRegex_of_shape; assumption.
Qed.

Lemma split_marker (A B C D : jsstring) (g : N) :
  A ++ B = C ++ g :: D -> ~ In g B -> exists E, A = C ++ g :: E.
Proof.
  revert A. induction C as [|c C IH]; intros A H Hn; simpl in *.
  - destruct A as [|a A]; simpl in H.
    + subst B. exfalso. apply Hn. left. reflexivity.
    + injection H as -> _. exists A. reflexivity.
  - destruct A as [|a A]; simpl in H.
    + subst B. exfalso. apply Hn. right. apply in_or_app. right. left. reflexivity.
    + injection H as -> H. destruct (IH A H Hn) as [E ->]. exists E. reflexivity.
Qed.

Lemma count_dquote_ws (ws : jsstring) :
  Forall (fun c => is_ws c = true) ws -> count_occ N.eq_dec ws dquote = 0.
Proof.
  intros H. apply count_occ_not_In. intros Hin.
  rewrite List.Forall_forall in H. specialize (H _ Hin). discriminate H.
Qed.

Lemma count_none (l : jsstring) (x : N) :
  Forall (fun c => c <> x) l -> count_occ N.eq_dec l x = 0.
Proof.
  intros H. apply count_occ_not_In. intros Hin.
  rewrite List.Forall_forall in H. exact (H _ Hin eq_refl).
Qed.

(** A match that starts before a complete open tag ends no later than that
    tag: before its closing [>] it would have to pass the two double quotes
    of the inner tag, and it has room for one. *)
Lemma paramStartRegex_before_tag (u t x nm nm_t : jsstring) (len len_t : nat) :
  u <> [] ->
  paramStartRegex t = Some (nm_t, len_t) ->
  paramStartRegex (u ++ t ++ x) = Some (nm, len) ->
  len <= length u + len_t.
Proof.
  intros Hu Ht Ho.
  destruct (paramStartRegex_shape _ _ _ Ht)
    as (ws_t & attrs_t & rest_t & -> & _ & Fws_t & _ & Fnm_t & Fat_t & ->).
  destruct (paramStartRegex_shape _ _ _ Ho)
    as (ws & attrs & rest & E & _ & Fws & _ & Fnm & Fat & ->).
  set (T0 := paramOpen ++ ws_t ++ nameEq ++ nm_t ++ dquote :: attrs_t) in *.
  set (P1 := paramOpen ++ ws ++ nameEq ++ nm) in *.
  destruct (Nat.le_gt_cases
              (length paramOpen + length ws + length nameEq + length nm + 1 + length attrs + 1)
              (length u + (length paramOpen + length ws_t + length nameEq + length nm_t + 1 + length attrs_t + 1)))
    as [Hle|Hgt]; [exact Hle|exfalso].
  assert (E' : (P1 ++ dquote :: attrs) ++ gt_sign :: rest
               = (u ++ T0) ++ gt_sign :: rest_t ++ x).
  { transitivity (paramOpen ++ ws ++ nameEq ++ nm ++ dquote :: attrs ++ gt_sign :: rest).
    - unfold P1. rewrite <- ?app_assoc. simpl. rewrite <- ?app_assoc. reflexivity.
    - rewrite <- E. unfold T0. rewrite <- ?app_assoc. simpl.
      rewrite <- ?app_assoc. simpl. rewrite <- ?app_assoc. reflexivity. }
  assert (Hlen : length ((u ++ T0) ++ [gt_sign]) <= length (P1 ++ dquote :: attrs)).
  { unfold P1, T0. repeat first [rewrite length_app | progress simpl].
    simpl in Hgt. lia. }
  assert (Epre : exists y, P1 ++ dquote :: attrs = (u ++ T0) ++ gt_sign :: y).
  { apply (f_equal (take (length (P1 ++ dquote :: attrs)))) in E'.
    rewrite take_app_length in E'.
    change ((u ++ T0) ++ gt_sign :: rest_t ++ x)
      with ((u ++ T0) ++ [gt_sign] ++ (rest_t ++ x)) in E'.
    rewrite app_assoc in E'. rewrite take_app_ge in E' by exact Hlen.
    rewrite <- app_assoc in E'. eexists. exact E'. }
  destruct Epre as [y Ey].
  destruct (split_marker P1 (dquote :: attrs) (u ++ T0) y gt_sign Ey) as [F EF].
  { intros [Hd|Hin]; [discriminate Hd|].
    rewrite List.Forall_forall in Fat. exact (Fat _ Hin eq_refl). }
  apply (f_equal (fun l => count_occ N.eq_dec l dquote)) in EF.
  unfold P1, T0 in EF.
  repeat first [rewrite count_occ_app in EF | progress simpl in EF].
  rewrite (count_dquote_ws _ Fws), (count_dquote_ws _ Fws_t) in EF.
  rewrite (count_none _ _ Fnm), (count_none _ _ Fnm_t) in EF.
  lia.
Qed.

(** If the text did not match at a position and the longer text does, no
    open tag of the text starts after that position. *)
Lemma no_match_after_late_match (x ext : jsstring) :
  paramStartRegex x = None -> paramStartRegex (x ++ ext) <> None ->
  forall d, 1 <= d -> paramStartRegex (drop d x) = None.
Proof.
  intros Hx Hxe d Hd.
  destruct (paramStartRegex (drop d x)) as [[nm_t len_t]|] eqn:Ht; [exfalso|reflexivity].
  destruct (paramStartRegex (x ++ ext)) as [[nm len]|] eqn:Ho; [|contradiction].
  pose proof (paramStartRegex_len _ _ _ Ht) as Hlt. rewrite length_drop in Hlt.
  assert (Hu : take d x <> []).
  { intros Hnil. apply (f_equal length) in Hnil. rewrite length_take in Hnil.
    simpl in Hnil. lia. }
  rewrite <- (take_drop d x) in Ho. rewrite <- app_assoc in Ho.
  pose proof (paramStartRegex_before_tag _ _ _ _ _ _ _ Hu Ht Ho) as Hle.
  rewrite length_take in Hle.
  rewrite app_assoc, take_drop in Ho.
  rewrite (paramStartRegex_local x ext nm len Ho) in Hx by lia.
  discriminate.
Qed.

Lemma scanParams_no_match (raw : jsstring) :
  forall (s : jsstring) (i skip : nat),
  (forall d, paramStartRegex (drop d s) = None) ->
  scanParams raw s i skip = [].
Proof.
  induction s as [|c s IH]; intros i skip H; simpl; [reflexivity|].
  assert (H' : forall d, paramStartRegex (drop d s) = None)
    by (intros d; exact (H (S d))).
  destruct skip as [|k]; [|apply IH; assumption].
  pose proof (H 0) as H0. simpl in H0. rewrite H0. apply IH. assumption.
Qed.

Lemma entryIn_paramOfMatch (raw raw' nm : jsstring) (i len : nat) :
  entryIn raw' (paramOfMatch raw i nm len) = paramOfMatch raw' i nm len.
Proof.
  assert (H : matchIndex (paramOfMatch raw i nm len) = i
              /\ paramName (paramOfMatch raw i nm len) = nm
              /\ startIndex (paramOfMatch raw i nm len) = i + len).
  { unfold paramOfMatch. destruct (indexOf endTag raw (i + len)); repeat split. }
  destruct H as (H1 & H2 & H3). unfold entryIn. rewrite H1, H2, H3.
  replace (i + len - i) with len by lia. reflexivity.
Qed.

(** Scanning the longer text reports the open tags of the shorter one
    first, in the same order. *)
Lemma scanParams_app (raw ext : jsstring) :
  forall (s : jsstring) (i skip : nat),
  exists more,
    scanParams (raw ++ ext) (s ++ ext) i skip
    = map (entryIn (raw ++ ext)) (scanParams raw s i skip) ++ more.
Proof.
  induction s as [|c s IH]; intros i skip.
  { simpl. eexists. reflexivity. }
  change ((c :: s) ++ ext) with (c :: s ++ ext). cbn [scanParams].
  destruct skip as [|k]; [|apply IH].
  destruct (paramStartRegex (c :: s)) as [[nm len]|] eqn:Hm.
  - pose proof (paramStartRegex_app _ ext _ _ Hm) as Hm'.
    change ((c :: s) ++ ext) with (c :: s ++ ext) in Hm'. rewrite Hm'.
    destruct (IH (S i) (len - 1)) as [more Hmore].
    exists more. rewrite Hmore. simpl. rewrite entryIn_paramOfMatch. reflexivity.
  - destruct (paramStartRegex (c :: s ++ ext)) as [[nm' len']|] eqn:Hm'; [|apply IH].
    rewrite (scanParams_no_match raw s (S i) 0).
    + simpl. eexists. reflexivity.
    + intros d. apply (no_match_after_late_match (c :: s) ext Hm) with (d := S d); [|lia].
      change ((c :: s) ++ ext) with (c :: s ++ ext). rewrite Hm'. discriminate.
Qed.

Lemma scanParams_canonical (raw : jsstring) :
  forall (s : jsstring) (i skip : nat),
  Forall (fun e => entryIn raw e = e) (scanParams raw s i skip).
Proof.
  induction s as [|c s IH]; intros i skip; simpl; [constructor|].
  destruct skip as [|k]; [|apply IH].
  destruct (paramStartRegex (c :: s)) as [[nm len]|]; [|apply IH].
  constructor; [apply entryIn_paramOfMatch | apply IH].
Qed.

(** Final values are final: a parameter whose closing tag is present is
    reported at the same place, with the same value, when the text grows. *)
Lemma final_values_stable (raw ext : jsstring) (k : nat) (e : ParamEntry) :
  extractParams raw !! k = Some e -> isParamStreaming e = false ->
  extractParams (raw ++ ext) !! k = Some e.
Proof.
  intros Hk Hs. unfold extractParams in *.
  destruct (scanParams_app raw ext raw 0 0) as [more ->].
  rewrite lookup_app_l by (rewrite length_map; eapply lookup_lt_Some; eassumption).
  rewrite list_lookup_fmap, Hk. simpl. f_equal.
  pose proof (scanParams_canonical raw raw 0 0) as Hc.
  destruct (extractParams_entries raw) as (HF & _). unfold extractParams in HF.
  rewrite List.Forall_forall in Hc, HF.
  assert (Hin : In e (scanParams raw raw 0 0)).
  { apply list_elem_of_In. eapply list_elem_of_lookup_2. eassumption. }
  specialize (Hc _ Hin). destruct (HF _ Hin) as (_ & Hr & _).
  rewrite <- Hc at 2. unfold entryIn. apply paramOfMatch_app.
  - lia.
  - fold (entryIn raw e). rewrite Hc. assumption.
Qed.


(** *** The entries in terms of the text alone *)

Lemma trimStart_spec (s : jsstring) :
  exists a, s = a ++ trimStart s /\ Forall (fun c => is_ws c = true) a
            /\ (forall c r, trimStart s = c :: r -> is_ws c = false).
Proof.
  induction s as [|c s (a & Hs & Ha & Hh)].
  - exists []. split; [reflexivity|]. split; [constructor|]. intros c r H; discriminate H.
  - cbn [trimStart]. destruct (is_ws c) eqn:E.
    + exists (c :: a). split; [cbn; rewrite <- Hs; reflexivity|].
      split; [constructor; assumption | exact Hh].
    + exists []. split; [reflexivity|]. split; [constructor|].
      intros c' r [= <- _]. exact E.
Qed.

Lemma trim_spec (v : jsstring) :
  exists a b,
    v = a ++ trim v ++ b
    /\ Forall (fun c => is_ws c = true) a
    /\ Forall (fun c => is_ws c = true) b
    /\ (forall c r, trim v = c :: r -> is_ws c = false)
    /\ (forall c r, trim v = r ++ [c] -> is_ws c = false).
Proof.
  destruct (trimStart_spec v) as (a & Hv & Ha & Hh).
  destruct (trimStart_spec (rev (trimStart v))) as (b' & Hr & Hb & Hh').
  assert (Hm : trimStart v = trim v ++ rev b').
  { unfold trim, trimEnd. rewrite <- rev_app_distr, <- Hr, rev_involutive. reflexivity. }
  exists a, (rev b'). split; [rewrite <- Hm; exact Hv|]. split; [exact Ha|].
  split; [apply Forall_rev; exact Hb|]. split.
  - intros c r H. apply (Hh c (r ++ rev b')). rewrite Hm, H. reflexivity.
  - intros c r H. apply (Hh' c (rev r)).
    unfold trim, trimEnd in H. apply (f_equal (@rev N)) in H.
    rewrite rev_involutive, rev_app_distr in H. exact H.
Qed.

Lemma cdataGroup_spec (y : jsstring) :
  y = cdataGroup y ++ cdataClose
  \/ (cdataGroup y = y /\ ~ endsWith cdataClose y).
Proof.
  induction y as [|c y IH].
  - right. split; [reflexivity|]. intros (p & H).
    apply (f_equal (@length N)) in H. rewrite length_app in H. cbn in H. lia.
  - cbn [cdataGroup]. destruct (str_eqb (c :: y) cdataClose) eqn:E.
    + left. apply str_eqb_spec in E. rewrite E. reflexivity.
    + destruct IH as [IH|(IH & Hn)].
      * left. cbn. rewrite <- IH. reflexivity.
      * right. rewrite IH. split; [reflexivity|]. intros (p & H).
        destruct p as [|c' p].
        -- cbn in H. rewrite H in E.
           assert (T : str_eqb cdataClose cdataClose = true) by reflexivity.
           congruence.
        -- injection H as _ H. apply Hn. exists p. exact H.
Qed.

Lemma occursAt_head (pat s : jsstring) :
  starts_with pat s = true <-> occursAt pat s 0.
Proof.
  rewrite starts_with_spec. split.
  - intros (r & ->). exists [], r. split; reflexivity.
  - intros (pre & post & -> & Hl). destruct pre; [|discriminate Hl]. exists post. reflexivity.
Qed.

Lemma occursAt_cons (pat : jsstring) (c : N) (s : jsstring) (k : nat) :
  occursAt pat (c :: s) (S k) <-> occursAt pat s k.
Proof.
  split.
  - intros (pre & post & H & Hl). destruct pre as [|c' pre]; [discriminate Hl|].
    injection H as _ H. injection Hl as Hl. exists pre, post. split; assumption.
  - intros (pre & post & -> & Hl). exists (c :: pre), post. split; [reflexivity|].
    cbn. rewrite Hl. reflexivity.
Qed.

Lemma cdataMatch_spec (v : jsstring) :
  match cdataMatch v with
  | Some g =>
      exists u y, v = u ++ cdataOpen ++ y
                  /\ (forall k, k < length u -> ~ occursAt cdataOpen v k)
                  /\ g = cdataGroup y
  | None => forall k, ~ occursAt cdataOpen v k
  end.
Proof.
  induction v as [|c v IH].
  - cbn. intros k (pre & post & H & _).
    apply (f_equal (@length N)) in H. rewrite !length_app in H. cbn in H. lia.
  - cbn [cdataMatch]. destruct (starts_with cdataOpen (c :: v)) eqn:E.
    + apply starts_with_spec in E. destruct E as (r & E).
      exists [], r. split; [exact E|]. split; [intros k Hk; cbn in Hk; lia|].
      rewrite E, drop_app_length. reflexivity.
    + assert (H0 : ~ occursAt cdataOpen (c :: v) 0).
      { intros H. apply occursAt_head in H. congruence. }
      destruct (cdataMatch v) as [g|].
      * destruct IH as (u & y & -> & Hleft & ->).
        exists (c :: u), y. split; [reflexivity|]. split; [|reflexivity].
        intros [|k] Hk; [exact H0|]. rewrite occursAt_cons. apply Hleft. cbn in Hk. lia.
      * intros [|k]; [exact H0|]. rewrite occursAt_cons. apply IH.
Qed.

(** The value shown is determined by the text of the value alone. *)
Lemma cleanValue_cleaned (v : jsstring) : cleaned v (cleanValue v).
Proof.
  unfold cleanValue. pose proof (cdataMatch_spec v) as H.
  destruct (cdataMatch v) as [g|].
  - left. destruct H as (u & y & Hv & Hl & ->). exists u, y.
    split; [exact Hv|]. split; [exact Hl|].
    destruct (cdataGroup_spec y) as [Hy|(Hy & Hn)].
    + left. exact Hy.
    + right. split; [exact Hy | exact Hn].
  - right. split; [exact H|]. apply trim_spec.
Qed.

Lemma isOpenTag_match (s nm : jsstring) (len : nat) :
  paramStartRegex s = Some (nm, len) ->
  exists t rest, isOpenTag t nm /\ s = t ++ rest /\ length t = len.
Proof.
  intros H. apply paramStartRegex_shape in H.
  destruct H as (ws & attrs & rest & -> & Hws & Fws & Hnm & Fnm & Fat & ->).
  exists (paramOpen ++ ws ++ nameEq ++ nm ++ dquote :: attrs ++ [gt_sign]), rest.
  split; [exists ws, attrs; repeat split; assumption|]. split.
  - rewrite <- !app_assoc. cbn. rewrite <- !app_assoc. reflexivity.
  - rewrite !length_app. cbn [length]. rewrite !length_app. cbn [length]. lia.
Qed.

Lemma match_isOpenTag (t nm rest : jsstring) :
  isOpenTag t nm -> paramStartRegex (t ++ rest) <> None.
Proof.
  intros (ws & attrs & -> & Hws & Fws & Hnm & Fnm & Fat).
  replace ((paramOpen ++ ws ++ nameEq ++ nm ++ dquote :: attrs ++ [gt_sign]) ++ rest)
    with (paramOpen ++ ws ++ nameEq ++ nm ++ dquote :: attrs ++ gt_sign :: rest).
  - rewrite paramStartRegex_of_shape by assumption. discriminate.
  - rewrite <- !app_assoc. cbn. rewrite <- !app_assoc. reflexivity.
Qed.

Lemma entrySpec_entryOf (raw : jsstring) (e : ParamEntry) :
  entrySpec raw e -> entryOf raw e.
Proof.
  intros (Hm & (Hlt & Hle) & Hf & Hs). split; [|split].
  - destruct (isOpenTag_match _ _ _ Hm) as (t & rest & Ht & Hd & Hl).
    exists t. split; [exact Ht|]. split.
    + exists (take (matchIndex e) raw), rest. split.
      * rewrite <- Hd, take_drop. reflexivity.
      * rewrite length_take. lia.
    + lia.
  - intros H. destruct (Hf H) as (j & Hj & Ho & Hmin & ->).
    exists j. split; [exact Hj|]. split; [exact Ho|]. split; [exact Hmin|].
    apply cleanValue_cleaned.
  - intros H. destruct (Hs H) as (Hno & ->). split; [exact Hno|].
    apply cleanValue_cleaned.
Qed.

Lemma readSelector_safe (id : jsstring) :
  Render.selectorSafe id = true -> Render.readSelector id = Render.ReadsLiterally.
Proof.
  induction id as [|c id IH]; [reflexivity|].
  cbn [Render.selectorSafe forallb Render.readSelector]. intros H.
  apply andb_true_iff in H. destruct H as (Hc & Hid).
  apply negb_true_iff in Hc.
  repeat (apply orb_false_iff in Hc; destruct Hc as (Hc & ?)).
  repeat match goal with E : (_ =? _)%N = false |- _ => rewrite E; clear E end.
  cbn [orb]. apply IH. exact Hid.
Qed.

Lemma selectorSafe_paramId (bid name : jsstring) :
  Render.selectorSafe bid = true -> Render.selectorSafe name = true ->
  Render.selectorSafe (Render.paramIdOf bid name) = true.
Proof.
  intros Hb Hn. unfold Render.selectorSafe, Render.paramIdOf in *.
  rewrite forallb_app, Hb. cbn [forallb andb]. rewrite Hn. reflexivity.
Qed.

Lemma paramPass_safe (bid : jsstring) (ps : list ParamEntry) :
  Render.selectorSafe bid = true ->
  forallb (fun e => Render.selectorSafe (paramName e)) ps = true ->
  forall s, Render.paramPass bid ps s = Render.Returned (Render.renderParams bid ps s).
Proof.
  intros Hb. induction ps as [|e ps IH]; intros Hps s; [reflexivity|].
  cbn [forallb] in Hps. apply andb_true_iff in Hps. destruct Hps as (He & Hps).
  cbn [Render.paramPass].
  rewrite (readSelector_safe _ (selectorSafe_paramId _ _ Hb He)).
  rewrite (IH Hps). reflexivity.
Qed.

Lemma open_tag_found (raw : jsstring) (p : nat) (t nm : jsstring) :
  isOpenTag t nm -> occursAt t raw p ->
  Exists (fun e => (matchIndex e = p /\ paramName e = nm
                    /\ startIndex e = p + length t)
                   \/ matchIndex e < p < startIndex e)
         (extractParams raw).
Proof.
  intros Ht (pre & post & Hraw & Hp).
  assert (Hd : drop p raw = t ++ post).
  { rewrite Hraw, <- Hp, drop_app_length. reflexivity. }
  assert (Hm : paramStartRegex (drop p raw) <> None).
  { rewrite Hd. exact (match_isOpenTag t nm post Ht). }
  pose proof (scanParams_complete raw raw 0 0 eq_refl (Nat.le_0_l _) p (Nat.le_0_l _) Hm) as Hex.
  fold (extractParams raw) in Hex.
  destruct (extractParams_entries raw) as (HF & _).
  rewrite List.Forall_forall in HF.
  apply List.Exists_exists in Hex. destruct Hex as (e & Hin & He).
  apply List.Exists_exists. exists e. split; [exact Hin|].
  destruct He as [He|He]; [left | right; exact He].
  split; [exact He|].
  destruct (HF e Hin) as (Hre & _). rewrite He, Hd in Hre.
  destruct Ht as (ws & attrs & -> & Hws & Fws & Hnm & Fnm & Fat).
  replace ((paramOpen ++ ws ++ nameEq ++ nm ++ dquote :: attrs ++ [gt_sign]) ++ post)
    with (paramOpen ++ ws ++ nameEq ++ nm ++ dquote :: attrs ++ gt_sign :: post) in Hre
    by (rewrite <- !app_assoc; cbn; rewrite <- !app_assoc; reflexivity).
  rewrite paramStartRegex_of_shape in Hre by assumption.
  injection Hre as Hn Hl. split; [symmetry; exact Hn|].
  destruct (HF e Hin) as (_ & (Hlt & _) & _).
  rewrite !length_app. cbn [length]. rewrite !length_app. cbn [length].
  change (length paramOpen) with 10. change (length nameEq) with 6. lia.
Qed.

(** C6, amended.  What the extraction loop returns, in terms of the text
    alone.  Each entry stands for an open tag of the text, with the name of
    the tag; it is marked streaming exactly when no closing tag occurs
    after the open tag, and its value is then made of the rest of the
    text; otherwise its value is made of the text up to the first closing
    tag.  The value is the text after the CDATA opener, without a complete
    terminator at its end, or else the text without the white space at its
    ends.  The entries come in the order of the text and do not overlap;
    once an entry is streaming, the later ones are; every open tag of the
    text has its entry, unless it starts inside an earlier open tag; an
    entry that is final stays as it is when the text grows.  The loop ends
    without an exception when the block identifier and the parameter names
    hold no character that is special inside a quoted attribute
    selector. *)
Theorem extractParams_spec (rawContent : jsstring) :
  Forall (entryOf rawContent) (extractParams rawContent)
  /\ StronglySorted (fun e1 e2 => startIndex e1 <= matchIndex e2)
                    (extractParams rawContent)
  /\ StronglySorted (fun e1 e2 => isParamStreaming e1 = true ->
                                  isParamStreaming e2 = true)
                    (extractParams rawContent)
  /\ (forall p t nm, isOpenTag t nm -> occursAt t rawContent p ->
        Exists (fun e => (matchIndex e = p /\ paramName e = nm
                          /\ startIndex e = p + length t)
                         \/ matchIndex e < p < startIndex e)
               (extractParams rawContent))
  /\ (forall ext k e,
        extractParams rawContent !! k = Some e -> isParamStreaming e = false ->
        extractParams (rawContent ++ ext) !! k = Some e)
  /\ (forall blockId s,
        Render.selectorSafe blockId = true ->
        forallb (fun e => Render.selectorSafe (paramName e))
                (extractParams rawContent) = true ->
        Render.paramPass blockId (extractParams rawContent) s
        = Render.Returned (Render.renderParams blockId (extractParams rawContent) s)).
Proof.
  destruct (extractParams_entries rawContent) as (HF & HS).
  split; [|split; [exact HS|]].
  { eapply List.Forall_impl; [|exact HF]. intros e. apply entrySpec_entryOf. }
  split; [apply streaming_last|]. split; [apply open_tag_found|]. split.
  - intros ext k e. apply final_values_stable.
  - intros bid s Hb Hps. apply paramPass_safe; assumption.
Qed.

(** C6, as stated, fails: the pass does throw.  For a parameter whose name
    holds a line feed the loop extracts the name and the value, and the
    first query of line 893 throws a SyntaxError, whatever the block and
    the page.  And more than one parameter can be streaming: with two open
    tags and no closing tag, both entries are. *)
Lemma pass_throws_on_line_feed :
  extractParams lineFeedParameter
  = [mkParam 0 nameWithLineFeed 22 (js "x") false]
  /\ (forall blockId s,
        Render.selectorSafe blockId = true ->
        Render.paramPass blockId (extractParams lineFeedParameter) s = Render.Threw)
  /\ map (fun e => (paramName e, isParamStreaming e)) (extractParams twoOpenTags)
     = [(js "a", true); (js "b", true)].
Proof.
  split; [reflexivity|]. split; [|reflexivity].
  intros bid s Hb.
  change (extractParams lineFeedParameter)
    with [mkParam 0 nameWithLineFeed 22 (js "x") false].
  assert (H : Render.readSelector (Render.paramIdOf bid nameWithLineFeed)
              = Render.ThrowsSyntaxError).
  { unfold Render.paramIdOf. induction bid as [|c bid IH]; [reflexivity|].
    cbn [Render.selectorSafe forallb] in Hb.
    apply andb_true_iff in Hb. destruct Hb as (Hc & Hb).
    apply negb_true_iff in Hc.
    repeat (apply orb_false_iff in Hc; destruct Hc as (Hc & ?)).
    cbn [app Render.readSelector].
    repeat match goal with E : (_ =? _)%N = false |- _ => rewrite E; clear E end.
    cbn [orb]. apply IH. exact Hb. }
  cbn [Render.paramPass paramName]. rewrite H. reflexivity.
Qed.

(** The scenario of the specification: first the streaming value hel, then
    the final value hel lo. *)
Example scenario_streaming :
  extractParams scenarioPartial = [mkParam 51 (js "q") 71 (js "hel") true].
Proof. reflexivity. Qed.

Example scenario_final :
  extractParams scenarioFinal = [mkParam 51 (js "q") 71 (js "hel lo") false].
Proof. reflexivity. Qed.

(** *** CDATA and trimming *)

Lemma str_eqb_length (a b : jsstring) : str_eqb a b = true -> length a = length b.
Proof. intros H. apply str_eqb_spec in H. subst. reflexivity. Qed.

(** A complete terminator at the very end of the value is dropped. *)
Lemma cdataGroup_terminated (inner : jsstring) :
  cdataGroup (inner ++ cdataClose) = inner.
Proof.
  induction inner as [|c inner IH]; [reflexivity|].
  change ((c :: inner) ++ cdataClose) with (c :: inner ++ cdataClose).
  cbn [cdataGroup].
  destruct (str_eqb (c :: inner ++ cdataClose) cdataClose) eqn:E.
  - apply str_eqb_length in E. simpl in E. rewrite length_app in E. simpl in E. lia.
  - rewrite IH. reflexivity.
Qed.

Lemma cleanValue_cdata (y : jsstring) :
  cleanValue (cdataOpen ++ y) = cdataGroup y.
Proof. reflexivity. Qed.

(** A value wrapped in a complete CDATA section yields the inner text,
    whitespace included. *)
Lemma cleanValue_cdata_complete (inner : jsstring) :
  cleanValue (cdataOpen ++ inner ++ cdataClose) = inner.
Proof. rewrite cleanValue_cdata. apply cdataGroup_terminated. Qed.

(** A value that holds no CDATA opener is trimmed. *)
Lemma cleanValue_plain (v : jsstring) :
  cdataMatch v = None -> cleanValue v = trim v.
Proof. unfold cleanValue. intros ->. reflexivity. Qed.

(** C7, on the code: the value streamed so far is a CDATA section cut in
    the middle of its terminator; the extractor returns the inner text with
    the two closing brackets still attached, where the specification (and the
    comment of line 583) has the partial terminator removed. *)
Theorem cdata_partial_terminator_kept :
  cleanValue (js "<![CDATA[abc]]") = js "abc]]"
  /\ extractParams cdataCut = [mkParam 0 (js "q") 20 (js "abc]]") true].
Proof. split; reflexivity. Qed.

End ParamsFacts.

(** * Properties of the scheduler *)

Module SchedFacts.
Import Ledger Sched Examples.

(** *** Retry delays *)

Lemma pow15_succ (n : nat) :
  ((3 # 2) ^ (Z.of_nat (S n)) == (3 # 2) * (3 # 2) ^ (Z.of_nat n))%Q.
Proof.
  rewrite Nat2Z.inj_succ. unfold Z.succ.
  rewrite Qpower_plus by (intro H; discriminate H).
  rewrite Qmult_comm. apply Qmult_comp; [|reflexivity]. reflexivity.
Qed.

Lemma pow15_pos (n : nat) : (0 < (3 # 2) ^ (Z.of_nat n))%Q.
Proof. apply Qpower_0_lt. reflexivity. Qed.

Lemma retryDelay_succ_exp (n : nat) :
  (retryDelay (S n) == Qmin (150 * (3 # 2) ^ (Z.of_nat n)) 1000)%Q.
Proof.
  unfold retryDelay.
  replace (Z.of_nat (S n) - 1)%Z with (Z.of_nat n) by lia. reflexivity.
Qed.

Lemma retryDelay_first : (retryDelay 1 == 150)%Q.
Proof. reflexivity. Qed.

Lemma retryDelay_growth (n : nat) :
  (retryDelay (S (S n)) == Qmin ((3 # 2) * retryDelay (S n)) 1000)%Q.
Proof.
  rewrite !retryDelay_succ_exp, pow15_succ.
  pose proof (pow15_pos n) as Hp.
  set (p := ((3 # 2) ^ Z.of_nat n)%Q) in *.
  destruct (Q.min_spec (150 * p) 1000) as [[H1 H2]|[H1 H2]]; rewrite H2.
  - assert (E : ((3 # 2) * (150 * p) == 150 * ((3 # 2) * p))%Q) by ring.
    rewrite E. reflexivity.
  - rewrite Q.min_r by lra. rewrite Q.min_r by lra. reflexivity.
Qed.

Lemma retryDelay_cap (n : nat) : (retryDelay n <= 1000)%Q.
Proof. unfold retryDelay. apply Q.le_min_r. Qed.

Lemma retryDelay_mono (n : nat) : (retryDelay (S n) <= retryDelay (S (S n)))%Q.
Proof.
  rewrite retryDelay_growth.
  pose proof (retryDelay_cap (S n)).
  assert (0 < retryDelay (S n))%Q.
  { rewrite retryDelay_succ_exp. pose proof (pow15_pos n).
    apply Q.min_glb_lt; lra. }
  apply Q.min_glb; lra.
Qed.

(** *** The retry chain *)

Lemma countAttempts_app l1 l2 :
  countAttempts (l1 ++ l2) = countAttempts l1 + countAttempts l2.
Proof. unfold countAttempts. rewrite List.filter_app, length_app. reflexivity. Qed.

Lemma countClicks_app l1 l2 :
  countClicks (l1 ++ l2) = countClicks l1 + countClicks l2.
Proof. unfold countClicks. rewrite List.filter_app, length_app. reflexivity. Qed.

Lemma since_app st0 st ev : log st = log st0 ++ ev -> since st0 st = ev.
Proof. intros H. unfold since. rewrite H. apply drop_app_length. Qed.

(** What one invocation of [retry] does, by cases on what it observes. *)
Lemma retry_cases (c : Ctx) (n : nat) (o : Obs) (st : State) :
  let st' := retry c n o st in
  tracker st' = tracker st /\ toggleState st' = toggleState st /\
  ( (* give up, or a ledger hit in storage *)
    ((MAX_AUTO_EXECUTE_ATTEMPTS <= n \/ storedNow c o = true) /\ st' = st)
  \/ (* a failed pass: one more timeout *)
    (n < MAX_AUTO_EXECUTE_ATTEMPTS /\ attemptFails c o = true /\
     timers st' = timers st ++ [(retryDelay (S n), CbRetry c (S n))] /\
     exists ev, log st' = log st ++ EvAttempt (S n) :: ev /\
                countAttempts ev = 0 /\ countClicks ev = 0)
  \/ (* the activation is dispatched *)
    (n < MAX_AUTO_EXECUTE_ATTEMPTS /\ storedNow c o = false /\
     actionable c o = true /\ timers st' = timers st /\
     exists b, buttonFor c o = Some b /\
               disabled (buttonState o b) = false /\
               log st' = log st ++ [EvAttempt (S n); EvClick b]) ).
Proof.
  unfold retry, attemptFails, actionable, storedNow.
  destruct (MAX_AUTO_EXECUTE_ATTEMPTS <? S n) eqn:Hmax.
  { apply Nat.ltb_lt in Hmax. simpl. repeat split; try reflexivity.
    left. split; [left; unfold MAX_AUTO_EXECUTE_ATTEMPTS in *; lia | reflexivity]. }
  apply Nat.ltb_ge in Hmax.
  assert (Hn : n < MAX_AUTO_EXECUTE_ATTEMPTS) by (unfold MAX_AUTO_EXECUTE_ATTEMPTS in *; lia).
  destruct (getPreviousExecution _ _ _ _) eqn:Hst.
  { simpl. repeat split; try reflexivity. left. split; [right|]; reflexivity. }
  destruct (buttonFor c o) as [b|] eqn:Hb; simpl.
  - destruct (disabled (buttonState o b)) eqn:Hd; simpl.
    + repeat split; try reflexivity. right; left.
      repeat split; try assumption.
      exists [EvSetTimeout (CbRetry c (S n)) (retryDelay (S n))].
      repeat split. rewrite <- app_assoc. reflexivity.
    + destruct (clickThrows o) eqn:Ht; simpl.
      * repeat split; try reflexivity. right; left.
        repeat split; try assumption.
        exists [EvClickThrew b; EvSetTimeout (CbRetry c (S n)) (retryDelay (S n))].
        repeat split. rewrite <- !app_assoc. reflexivity.
      * repeat split; try reflexivity. right; right.
        repeat split; try assumption.
        exists b. repeat split; try assumption.
        rewrite <- app_assoc. reflexivity.
  - repeat split; try reflexivity. right; left.
    repeat split; try assumption.
    exists [EvSetTimeout (CbRetry c (S n)) (retryDelay (S n))].
    repeat split. rewrite <- app_assoc. reflexivity.
Qed.

Lemma mark_monotone_function k t a b n :
  k ∈ executedFunctions t -> k ∈ executedFunctions (markFunctionExecuted t a b n).
Proof. unfold markFunctionExecuted. simpl. set_solver. Qed.

(** Shape of the result of the scheduling body. *)
Lemma autoExecuteSection_cases (c : Ctx) (o : Obs) (st : State) :
  let r := autoExecuteSection c o st in
  (preChecksPass c o st = false /\ r.1 = true /\
   log r.2 = log st /\ timers r.2 = timers st /\ tracker r.2 = tracker st)
  \/
  (preChecksPass c o st = true /\ r.1 = false /\
   scheduledKey c ∈ executedFunctions (tracker r.2) /\
   exists ev,
     log r.2 = log st ++ EvMarkFunction (scheduledKey c) :: ev /\
     countAttempts ev = 0 /\
     ( (exists b, containerButton o = Some b /\
                  disabled (buttonState o b) = false /\ clickThrows o = false /\
                  countClicks ev = 1 /\ timers r.2 = timers st /\
                  forall e, In e ev -> e = EvClick b \/ isAttemptOrTimer e = false)
       \/
       (countClicks ev = 0 /\
        timers r.2 = timers st ++ [(50%Q, CbSetupAutoExecution c)] /\
        (containerButton o = None \/ clickThrows o = true \/
         exists b, containerButton o = Some b /\ disabled (buttonState o b) = true)) )).
Proof.
  cbv zeta. unfold autoExecuteSection, preChecksPass, executeDirectly, startRetries, scheduledKey.
  destruct c as [fn bid cid sig]; cbn [functionName blockId extractedCallId contentSignature].
  assert (Hmem : forall t k a b n, k ∈ executedFunctions t ->
                   k ∈ executedFunctions (markFunctionExecuted t a b n))
    by (intros; apply mark_monotone_function; assumption).
  assert (Hin : forall t a b n, markKey a b n ∈ executedFunctions (markFunctionExecuted t a b n))
    by (intros; unfold markFunctionExecuted; simpl; set_solver).
  destruct sig as [[|x s]|]; cbn [sigText];
    try destruct (getPreviousExecution (storage o) fn cid (x :: s)) eqn:Hs;
    cbn [negb andb fst snd]; try (left; repeat split; fail).
  all: destruct (toggleState st) as [[| [|] |]|] eqn:Htg; cbn [negb andb autoExecuteIsTrue DEFAULT_AUTO_EXECUTE fst snd];
    try (left; repeat split; fail).
  all: destruct (isBlockExecuted (tracker (setToggle _ st)) bid && (0 <? getAttempts (tracker (setToggle _ st)) bid)) eqn:Hb;
    cbn [tracker setToggle] in Hb; rewrite Hb; cbn [negb andb fst snd];
    [left; repeat split|].
  all: right; split; [reflexivity|].
  all: destruct (containerButton o) as [b|] eqn:Hcb; cbn [fst snd].
  all: try destruct (disabled (buttonState o b)) eqn:Hd; cbn [fst snd].
  all: try destruct (clickThrows o) eqn:Hth; cbn [fst snd].
  all: split; [reflexivity|].
  all: split; [clear; cbn; set_solver|].
  all: cbn [log emit setTimeout markFunction markBlock setToggle timers];
       rewrite <- ?app_assoc; cbn [app].
  all: eexists; split; [reflexivity|].
  all: split; [reflexivity|].
  all: first [ right; split; [reflexivity|]; split; [reflexivity|]; eauto; fail
             | left; exists b; repeat split; try reflexivity; try assumption;
               intros e He; simpl in He; intuition (subst; auto) ].
Qed.

(** After the mark, the ledger reports the call executed, whatever storage
    holds. *)
Lemma isFunctionExecuted_of_scheduledKey (c : Ctx) (t : ExecutionTracker) (s : Storage) :
  scheduledKey c ∈ executedFunctions t ->
  isFunctionExecuted t s (extractedCallId c) (sigText (contentSignature c))
    (Some (functionName c)) = true.
Proof.
  unfold scheduledKey, markKey, isFunctionExecuted. intros H.
  destruct (trim (functionName c)) eqn:E.
  - rewrite (bool_decide_eq_true_2 _ H).
    destruct (_ || _); [reflexivity|]. reflexivity.
  - rewrite (bool_decide_eq_true_2 _ H). reflexivity.
Qed.

(** The delays of the eight passes. *)
Example retryDelay_table :
  map (fun n => Qred (retryDelay n)) [1; 2; 3; 4; 5; 6; 7; 8]
  = [150; 225; 675 # 2; 2025 # 4; 6075 # 8; 1000; 1000; 1000]%Q.
Proof. reflexivity. Qed.

(** C5. A failed pass number k = n + 1 of the retry loop sets its timeout
    with delay min(150 * 1.5^(k-1), 1000) milliseconds: the first delay is
    150, each delay is 1.5 times the previous one, capped at 1000, so the
    delays never decrease and never exceed one second. *)
Theorem retry_backoff (c : Ctx) (n : nat) (o : Obs) (st : State) :
  n < MAX_AUTO_EXECUTE_ATTEMPTS -> attemptFails c o = true ->
  timers (retry c n o st)
    = timers st ++ [(retryDelay (S n), CbRetry c (S n))]
  /\ (retryDelay (S n) == Qmin (150 * (3 # 2) ^ (Z.of_nat n)) 1000)%Q
  /\ (retryDelay 1 == 150)%Q
  /\ (retryDelay (S (S n)) == Qmin ((3 # 2) * retryDelay (S n)) 1000)%Q
  /\ (retryDelay (S n) <= retryDelay (S (S n)))%Q
  /\ (retryDelay (S n) <= 1000)%Q.
Proof.
  intros Hn Hf.
  split.
  { destruct (retry_cases c n o st) as (_ & _ & [[[Hge|Hst] _]|[(_ & _ & Htm & _)|(_ & _ & Hact & _)]]).
    - lia.
    - unfold attemptFails in Hf. rewrite Hst in Hf. discriminate.
    - assumption.
    - unfold attemptFails in Hf. rewrite Hact, andb_false_r in Hf. discriminate. }
  split; [apply retryDelay_succ_exp|].
  split; [apply retryDelay_first|].
  split; [apply retryDelay_growth|].
  split; [apply retryDelay_mono | apply retryDelay_cap].
Qed.

Lemma retry_backoff_witness :
  0 < MAX_AUTO_EXECUTE_ATTEMPTS /\ attemptFails ctxSearch obsDisabled = true /\
  timers (retry ctxSearch 0 obsDisabled stOn)
    = [(retryDelay 1, CbRetry ctxSearch 1)].
Proof.
  assert (H0 : 0 < MAX_AUTO_EXECUTE_ATTEMPTS) by (unfold MAX_AUTO_EXECUTE_ATTEMPTS; lia).
  split; [exact H0|]. split; [reflexivity|].
  exact (proj1 (retry_backoff ctxSearch 0 obsDisabled stOn H0 eq_refl)).
Defined.

(** C2, as stated, fails: the in-process set holds the key, so
    [isFunctionExecuted] reports the call executed, and the scheduler still
    marks and activates the control, because its pre-check asks storage
    only. *)
Lemma ledger_hit_in_memory_still_executes :
  isFunctionExecuted (tracker stMarked) (storage obsEnabled) call1 sig1
    (Some searchName) = true
  /\ log (autoExecuteSection ctxSearch obsEnabled stMarked).2
     = [EvMarkFunction (scheduledKey ctxSearch); EvMarkBlock block1;
        EvMarkBlock block1; EvMarkFunction (scheduledKey ctxSearch);
        EvClick 0].
Proof. split; vm_compute; reflexivity. Qed.

(** C2, amended. When the execute button is first added and storage holds
    a record for (function name, call id, non-empty signature), the
    scheduler stops: it returns early, logs no mark, no attempt and no
    activation, sets no timeout and leaves the tracker as it was. *)
Theorem stored_call_is_noop (c : Ctx) (o : Obs) (st : State) (s : jsstring) :
  contentSignature c = Some s -> s <> [] ->
  getPreviousExecution (storage o) (functionName c) (extractedCallId c) s = true ->
  let r := autoExecuteSection c o st in
  r.1 = true /\ log r.2 = log st /\ timers r.2 = timers st
  /\ tracker r.2 = tracker st.
Proof.
  intros Hs Hne Hst. cbv zeta. unfold autoExecuteSection.
  rewrite Hs. destruct s as [|x s]; [contradiction|].
  rewrite Hst. simpl. repeat split.
Qed.

Lemma stored_call_is_noop_witness :
  contentSignature ctxSearch = Some sig1 /\ sig1 <> [] /\
  log (autoExecuteSection ctxSearch obsStored stOn).2 = [].
Proof.
  assert (Hne : sig1 <> []) by discriminate.
  split; [reflexivity|]. split; [exact Hne|].
  exact (proj1 (proj2 (stored_call_is_noop ctxSearch obsStored stOn sig1
                         eq_refl Hne eq_refl))).
Defined.

(** The retry pass never reads the auto-execute flag. *)
Lemma retry_ignores_toggle (c : Ctx) (n : nat) (o : Obs) (st : State) (p : option Pref) :
  retry c n o (setToggle p st) = setToggle p (retry c n o st).
Proof.
  unfold retry.
  destruct (MAX_AUTO_EXECUTE_ATTEMPTS <? S n); [reflexivity|].
  destruct (getPreviousExecution _ _ _ _); [reflexivity|].
  destruct (buttonFor c o) as [b|]; [|reflexivity].
  destruct (disabled (buttonState o b)); [reflexivity|].
  destruct (clickThrows o); reflexivity.
Qed.

(** C9, on the code: the flag is on when the call is scheduled and the
    button is still disabled; the user then turns the flag off; the first
    retry pass finds the button enabled and activates it all the same. *)
Theorem retry_clicks_after_disable :
  let scheduled := (autoExecuteSection ctxSearch obsDisabled stOn).2 in
  let turnedOff := setToggle (Some (PrefBool false)) scheduled in
  let after := drive [obsEnabled] turnedOff in
  toggleState after = Some (PrefBool false)
  /\ since scheduled after = [EvAttempt 1; EvClick 0].
Proof. split; vm_compute; reflexivity. Qed.




End SchedFacts.

(** * Properties of the rendering: one run, and a second run on the same text *)

Module RenderFacts.
Import Ledger Sched Params Render Examples ParamsFacts.
Local Open Scope nat_scope.

(** *** Parameter elements *)

Lemma getName_hasName (id : jsstring) (l : list ParamChild) :
  getName id l = None <-> hasName id l = false.
Proof.
  induction l as [|[e|e] l IH]; simpl; [tauto| |exact IH].
  destruct (str_eqb (pnId e) id); simpl; [split; discriminate | exact IH].
Qed.

Lemma getValue_hasValue (id : jsstring) (l : list ParamChild) :
  getValue id l = None <-> hasValue id l = false.
Proof.
  induction l as [|[e|e] l IH]; simpl; [tauto|exact IH|].
  destruct (str_eqb (pvId e) id); simpl; [split; discriminate | exact IH].
Qed.

Lemma storeName_nameIn (id : jsstring) (s : ParamStore) :
  storeName id s = None <-> nameIn id s = false.
Proof.
  unfold storeName, nameIn. rewrite orb_false_iff, <- !getName_hasName.
  destruct (getName id (container s)); [split; [discriminate | intros [H _]; discriminate]|tauto].
Qed.

Lemma storeValue_valueIn (id : jsstring) (s : ParamStore) :
  storeValue id s = None <-> valueIn id s = false.
Proof.
  unfold storeValue, valueIn. rewrite orb_false_iff, <- !getValue_hasValue.
  destruct (getValue id (container s)); [split; [discriminate | intros [H _]; discriminate]|tauto].
Qed.

Lemma hasName_app (id : jsstring) (l k : list ParamChild) :
  hasName id (l ++ k) = hasName id l || hasName id k.
Proof. apply existsb_app. Qed.

Lemma hasValue_app (id : jsstring) (l k : list ParamChild) :
  hasValue id (l ++ k) = hasValue id l || hasValue id k.
Proof. apply existsb_app. Qed.

Lemma hasName_setNameStreaming (id id' : jsstring) (b : bool) (l : list ParamChild) :
  hasName id' (setNameStreaming id b l) = hasName id' l.
Proof.
  induction l as [|[e|e] l IH]; simpl; [reflexivity| |exact IH].
  destruct (str_eqb (pnId e) id); simpl; [reflexivity | rewrite IH; reflexivity].
Qed.

Lemma hasValue_setNameStreaming (id id' : jsstring) (b : bool) (l : list ParamChild) :
  hasValue id' (setNameStreaming id b l) = hasValue id' l.
Proof.
  induction l as [|[e|e] l IH]; simpl; [reflexivity| |rewrite IH; reflexivity].
  destruct (str_eqb (pnId e) id); simpl; [reflexivity | exact IH].
Qed.

Lemma hasName_setValue (id id' : jsstring) bd st v (l : list ParamChild) :
  hasName id' (setValue id bd st v l) = hasName id' l.
Proof.
  induction l as [|[e|e] l IH]; simpl; [reflexivity|rewrite IH; reflexivity|].
  destruct (str_eqb (pvId e) id); simpl; [reflexivity | exact IH].
Qed.

Lemma hasValue_setValue (id id' : jsstring) bd st v (l : list ParamChild) :
  hasValue id' (setValue id bd st v l) = hasValue id' l.
Proof.
  induction l as [|[e|e] l IH]; simpl; [reflexivity|exact IH|].
  destruct (str_eqb (pvId e) id); simpl; [reflexivity | rewrite IH; reflexivity].
Qed.

Lemma writeValue_frame (id : jsstring) bd st v (s : ParamStore) :
  (forall id', nameIn id' (writeValue id bd st v s) = nameIn id' s)
  /\ (forall id', valueIn id' (writeValue id bd st v s) = valueIn id' s)
  /\ madeNodes (writeValue id bd st v s) = madeNodes s.
Proof.
  unfold writeValue, nameIn, valueIn.
  destruct (hasValue id (container s)); simpl;
    repeat split; intros; rewrite ?hasName_setValue, ?hasValue_setValue; reflexivity.
Qed.

Lemma writeNameStreaming_frame (id : jsstring) (b : bool) (s : ParamStore) :
  (forall id', nameIn id' (writeNameStreaming id b s) = nameIn id' s)
  /\ (forall id', valueIn id' (writeNameStreaming id b s) = valueIn id' s)
  /\ madeNodes (writeNameStreaming id b s) = madeNodes s.
Proof.
  unfold writeNameStreaming, nameIn, valueIn.
  destruct (hasName id (container s)); simpl;
    repeat split; intros;
    rewrite ?hasName_setNameStreaming, ?hasValue_setNameStreaming; reflexivity.
Qed.

Lemma str_eqb_refl (a : jsstring) : str_eqb a a = true.
Proof. apply str_eqb_spec. reflexivity. Qed.

(** One call of [createOrUpdateParamElement]: afterwards the elements of its
    parameter exist, every other element is still there, and a name or value
    element is created only if it was missing. *)
Lemma createOrUpdate_spec (name value blockId : jsstring) (str : bool) (s : ParamStore) :
  let id := paramIdOf blockId name in
  let s' := createOrUpdateParamElement name value blockId str s in
  (forall id', nameIn id' s' = nameIn id' s || str_eqb id id')
  /\ (forall id', valueIn id' s' = valueIn id' s || str_eqb id id')
  /\ exists extra,
       madeNodes s' = madeNodes s ++ extra
       /\ (nameIn id s = true -> valueIn id s = true ->
           Forall (fun k => structural k = false) extra).
Proof.
  cbv zeta. unfold createOrUpdateParamElement.
  set (id := paramIdOf blockId name).
  (* the name element *)
  set (s1 := match storeName id s with Some _ => s | None => _ end).
  assert (H1 : (forall id', nameIn id' s1 = nameIn id' s || str_eqb id id')
               /\ (forall id', valueIn id' s1 = valueIn id' s)
               /\ exists x1, madeNodes s1 = madeNodes s ++ x1
                    /\ (nameIn id s = true -> x1 = [])).
  { unfold s1. destruct (storeName id s) eqn:E.
    - assert (Hn : nameIn id s = true).
      { destruct (nameIn id s) eqn:F; [reflexivity|].
        apply storeName_nameIn in F. congruence. }
      split; [|split].
      + intros id'. destruct (str_eqb id id') eqn:F; [|rewrite orb_false_r; reflexivity].
        apply str_eqb_spec in F. subst id'. rewrite Hn. reflexivity.
      + reflexivity.
      + exists []. rewrite app_nil_r. auto.
    - apply storeName_nameIn in E. split; [|split].
      + intros id'. unfold nameIn. simpl. rewrite hasName_app. simpl.
        rewrite orb_false_r.
        destruct (hasName id' (container s)), (hasName id' (outside s)), (str_eqb id id');
          reflexivity.
      + intros id'. unfold valueIn. simpl. rewrite hasValue_app. simpl.
        rewrite orb_false_r. reflexivity.
      + exists [KParamName]. split; [reflexivity|]. congruence. }
  clearbody s1. destruct H1 as (N1 & V1 & x1 & M1 & X1).
  (* the value element *)
  set (s2 := match storeValue id s1 with Some _ => s1 | None => _ end).
  assert (H2 : (forall id', nameIn id' s2 = nameIn id' s1)
               /\ (forall id', valueIn id' s2 = valueIn id' s1 || str_eqb id id')
               /\ exists x2, madeNodes s2 = madeNodes s1 ++ x2
                    /\ (valueIn id s1 = true -> x2 = [])).
  { unfold s2. destruct (storeValue id s1) eqn:E.
    - assert (Hn : valueIn id s1 = true).
      { destruct (valueIn id s1) eqn:F; [reflexivity|].
        apply storeValue_valueIn in F. congruence. }
      split; [|split].
      + reflexivity.
      + intros id'. destruct (str_eqb id id') eqn:F; [|rewrite orb_false_r; reflexivity].
        apply str_eqb_spec in F. subst id'. rewrite Hn. reflexivity.
      + exists []. rewrite app_nil_r. auto.
    - apply storeValue_valueIn in E. split; [|split].
      + intros id'. unfold nameIn. simpl. rewrite hasName_app. simpl.
        rewrite orb_false_r. reflexivity.
      + intros id'. unfold valueIn. simpl. rewrite hasValue_app. simpl.
        rewrite orb_false_r.
        destruct (hasValue id' (container s1)), (hasValue id' (outside s1)), (str_eqb id id');
          reflexivity.
      + exists [KParamValue]. split; [reflexivity|]. congruence. }
  clearbody s2. destruct H2 as (N2 & V2 & x2 & M2 & X2).
  (* the pre element *)
  set (usePre := str || _). set (hadPre := match storeValue id s2 with Some e => match pvBody e with BodyPre _ => true | _ => false end | None => false end).
  set (s3 := if usePre && negb hadPre then _ else s2).
  assert (H3 : (forall id', nameIn id' s3 = nameIn id' s2)
               /\ (forall id', valueIn id' s3 = valueIn id' s2)
               /\ exists x3, madeNodes s3 = madeNodes s2 ++ x3
                    /\ Forall (fun k => structural k = false) x3).
  { unfold s3. destruct (usePre && negb hadPre).
    - repeat split. exists [KPre]. split; [reflexivity|]. repeat constructor.
    - repeat split. exists []. rewrite app_nil_r. split; [reflexivity | constructor]. }
  clearbody s3. destruct H3 as (N3 & V3 & x3 & M3 & X3).
  (* the writes *)
  assert (H4 : forall t, (forall id', nameIn id' t = nameIn id' s3) ->
                 (forall id', valueIn id' t = valueIn id' s3) ->
                 madeNodes t = madeNodes s3 ->
    (forall id', nameIn id' t = nameIn id' s || str_eqb id id')
    /\ (forall id', valueIn id' t = valueIn id' s || str_eqb id id')
    /\ exists extra, madeNodes t = madeNodes s ++ extra
         /\ (nameIn id s = true -> valueIn id s = true ->
             Forall (fun k => structural k = false) extra)).
  { intros t Nt Vt Mt. split; [|split].
    - intros id'. rewrite Nt, N3, N2, N1. reflexivity.
    - intros id'. rewrite Vt, V3, V2, V1. reflexivity.
    - exists (x1 ++ x2 ++ x3). split.
      + rewrite Mt, M3, M2, M1, <- !app_assoc. reflexivity.
      + intros Hn Hv. rewrite (X1 Hn). rewrite X2 by (rewrite V1; exact Hv).
        exact X3. }
  destruct str.
  - destruct (writeNameStreaming_frame id true s3) as (A1 & A2 & A3).
    destruct (writeValue_frame id (if usePre then BodyPre value else BodyText value) true (Some value)
                (writeNameStreaming id true s3)) as (B1 & B2 & B3).
    apply H4; intros; rewrite ?B1, ?B2, ?B3, ?A1, ?A2, ?A3; reflexivity.
  - destruct (match storeName id s3 with Some e => pnStreaming e | None => false end).
    + destruct (writeNameStreaming_frame id false s3) as (A1 & A2 & A3).
      destruct (writeValue_frame id (if usePre then BodyPre value else BodyText value) false (Some value)
                  (writeNameStreaming id false s3)) as (B1 & B2 & B3).
      apply H4; intros; rewrite ?B1, ?B2, ?B3, ?A1, ?A2, ?A3; reflexivity.
    + match goal with |- context [writeValue id ?bd ?st ?v s3] =>
        destruct (writeValue_frame id bd st v s3) as (B1 & B2 & B3) end.
      apply H4; intros; rewrite ?B1, ?B2, ?B3; reflexivity.
Qed.

Lemma renderParams_spec (bid : jsstring) (ps : list ParamEntry) :
  forall s : ParamStore,
  let s' := renderParams bid ps s in
  (forall id', nameIn id' s'
     = nameIn id' s || existsb (fun e => str_eqb (paramIdOf bid (paramName e)) id') ps)
  /\ (forall id', valueIn id' s'
     = valueIn id' s || existsb (fun e => str_eqb (paramIdOf bid (paramName e)) id') ps)
  /\ exists extra,
       madeNodes s' = madeNodes s ++ extra
       /\ ((forall e, In e ps ->
              nameIn (paramIdOf bid (paramName e)) s = true
              /\ valueIn (paramIdOf bid (paramName e)) s = true) ->
           Forall (fun k => structural k = false) extra).
Proof.
  induction ps as [|e ps IH]; intros s; cbv zeta; simpl.
  - repeat split; intros; rewrite ?orb_false_r; try reflexivity.
    exists []. rewrite app_nil_r. split; [reflexivity | constructor].
  - destruct (createOrUpdate_spec (paramName e) (extractedValue e) bid (isParamStreaming e) s)
      as (N1 & V1 & x1 & M1 & X1).
    destruct (IH (createOrUpdateParamElement (paramName e) (extractedValue e) bid
                    (isParamStreaming e) s)) as (N2 & V2 & x2 & M2 & X2).
    unfold renderParams in *. split; [|split].
    + intros id'. rewrite N2, N1, orb_assoc. reflexivity.
    + intros id'. rewrite V2, V1, orb_assoc. reflexivity.
    + exists (x1 ++ x2). split; [rewrite M2, M1, app_assoc; reflexivity|].
      intros H. apply Forall_app. split.
      * destruct (H e (or_introl eq_refl)) as [Hn Hv]. exact (X1 Hn Hv).
      * apply X2. intros e' He'. destruct (H e' (or_intror He')) as [Hn Hv].
        rewrite N1, V1, Hn, Hv. split; reflexivity.
Qed.

Lemma existsb_paramId (bid : jsstring) (ps : list ParamEntry) (e : ParamEntry) :
  In e ps ->
  existsb (fun e' => str_eqb (paramIdOf bid (paramName e')) (paramIdOf bid (paramName e))) ps
  = true.
Proof.
  intros H. apply existsb_exists. exists e. split; [exact H | apply str_eqb_refl].
Qed.

(** *** The steps of renderFunctionCall *)

Lemma frame_refl (w : World) : frame w w [].
Proof. unfold frame. rewrite app_nil_r. repeat split. Qed.

Lemma frame_create (k : NodeKind) (w : World) : frame w (create k w) [k].
Proof. unfold frame. repeat split. Qed.

Lemma frame_trans (w1 w2 w3 : World) (x y : list NodeKind) :
  frame w1 w2 x -> frame w2 w3 y -> frame w1 w3 (x ++ y).
Proof.
  unfold frame. intros (A1 & A2 & A3 & A4 & A5 & A6 & A7 & A8 & A9)
                       (B1 & B2 & B3 & B4 & B5 & B6 & B7 & B8 & B9).
  repeat split; try congruence. rewrite B9, A9, app_assoc. reflexivity.
Qed.

Lemma stateTransitions_spec (isNew : bool) (prev : option bool) (info : FunctionInfo)
    (pre : bool) (tag : option jsstring) (d : BlockDiv) (w : World) :
  let r := stateTransitions isNew prev info pre tag d w in
  exists x, frame w r.2 x /\ outsideParams r.2 = outsideParams w
    /\ (isNew = false -> x = [])
    /\ Forall (fun k => structural k = false) x
    /\ functionParams r.1 = functionParams d
    /\ functionButtons r.1 = functionButtons d
    /\ match functionNameEl d with
       | None => functionNameEl r.1 = None
       | Some n => exists n', functionNameEl r.1 = Some n'
                              /\ callIdText n' = callIdText n
       end.
Proof.
  cbv zeta. unfold stateTransitions. destruct isNew.
  - destruct (truthy tag) as [t|]; [|destruct (truthy (languageTag info)) as [t|]];
      simpl.
    1,2: exists [KLanguageTag]; split; [apply frame_create|]; split; [reflexivity|];
         split; [discriminate|]; split; [repeat constructor|];
         destruct (negb (isComplete info) && negb pre); simpl;
         repeat split; destruct (functionNameEl d); eauto.
    exists []. split; [apply frame_refl|]. split; [reflexivity|].
    split; [reflexivity|]. split; [constructor|].
    destruct (negb (isComplete info) && negb pre); simpl;
      repeat split; destruct (functionNameEl d); eauto.
  - exists []. destruct prev as [[|]|]; [destruct (isComplete info)|destruct (isComplete info)|];
      simpl; (split; [apply frame_refl|]); (split; [reflexivity|]);
      (split; [reflexivity|]); (split; [constructor|]);
      repeat split; destruct (functionNameEl d); simpl; eauto.
Qed.

Lemma renderName_spec (fn cid : jsstring) (info : FunctionInfo) (pre : bool)
    (d : BlockDiv) (w : World) :
  cid <> [] ->
  let r := renderName fn cid info pre d w in
  exists x, frame w r.2 x /\ outsideParams r.2 = outsideParams w
    /\ (forall n, functionNameEl d = Some n -> is_Some (callIdText n) -> x = [])
    /\ (exists n', functionNameEl r.1 = Some n' /\ is_Some (callIdText n'))
    /\ functionParams r.1 = functionParams d
    /\ functionButtons r.1 = functionButtons d.
Proof.
  intros Hc. cbv zeta. unfold renderName.
  destruct cid as [|c0 cid]; [contradiction|].
  destruct (functionNameEl d) as [n|] eqn:En.
  - destruct (callIdText n) as [t|] eqn:Et; simpl.
    + exists []. split; [apply frame_refl|]. split; [reflexivity|].
      split; [reflexivity|]. split; [eexists; split; [reflexivity|simpl; eauto]|].
      split; reflexivity.
    + exists [KCallId]. split; [apply frame_create|]. split; [reflexivity|].
      split; [intros n0 [= <-] [t Ht]; congruence|].
      split; [eexists; split; [reflexivity|simpl; eauto]|]. split; reflexivity.
  - destruct (negb (isComplete info) && negb pre); simpl.
    + exists [KFunctionName; KFunctionNameText; KCallId; KSpinner].
      split; [unfold frame; simpl; rewrite <- !app_assoc; repeat split|].
      split; [reflexivity|]. split; [discriminate|].
      split; [eexists; split; [reflexivity|simpl; eauto]|]. split; reflexivity.
    + exists [KFunctionName; KFunctionNameText; KCallId].
      split; [unfold frame; simpl; rewrite <- !app_assoc; repeat split|].
      split; [reflexivity|]. split; [discriminate|].
      split; [eexists; split; [reflexivity|simpl; eauto]|]. split; reflexivity.
Qed.

Lemma renderParamsIn_spec (bid raw : jsstring) (d : BlockDiv) (w : World) :
  let r := renderParamsIn bid raw d w in
  exists x kids', frame w r.2 x
    /\ functionParams r.1 = Some kids'
    /\ (forall e, In e (extractParams raw) ->
          nameIn (paramIdOf bid (paramName e)) (mkStore kids' (outsideParams r.2) []) = true
          /\ valueIn (paramIdOf bid (paramName e)) (mkStore kids' (outsideParams r.2) []) = true)
    /\ functionNameEl r.1 = functionNameEl d
    /\ functionButtons r.1 = functionButtons d
    /\ (forall kids, functionParams d = Some kids ->
          (forall e, In e (extractParams raw) ->
             nameIn (paramIdOf bid (paramName e)) (mkStore kids (outsideParams w) []) = true
             /\ valueIn (paramIdOf bid (paramName e)) (mkStore kids (outsideParams w) []) = true) ->
          Forall (fun k => structural k = false) x).
Proof.
  cbv zeta. unfold renderParamsIn.
  destruct (functionParams d) as [kids|] eqn:Ek.
  - destruct (renderParams_spec bid (extractParams raw) (mkStore kids (outsideParams w) []))
      as (N & V & x & M & X).
    set (s := renderParams bid (extractParams raw) (mkStore kids (outsideParams w) [])) in *.
    exists (madeNodes s), (container s). simpl.
    split; [unfold frame; simpl; repeat split|].
    split; [reflexivity|]. split.
    { intros e He. change (nameIn (paramIdOf bid (paramName e)) s = true
                           /\ valueIn (paramIdOf bid (paramName e)) s = true).
      rewrite N, V, (existsb_paramId bid _ e He), !orb_true_r. split; reflexivity. }
    split; [reflexivity|]. split; [reflexivity|].
    intros kids0 [= <-] H. simpl in M. rewrite M. apply X. exact H.
  - destruct (renderParams_spec bid (extractParams raw) (mkStore [] (outsideParams w) []))
      as (N & V & x & M & X).
    set (s := renderParams bid (extractParams raw) (mkStore [] (outsideParams w) [])) in *.
    exists (KFunctionParams :: madeNodes s), (container s). simpl.
    split; [unfold frame; simpl; rewrite <- app_assoc; repeat split|].
    split; [reflexivity|]. split.
    { intros e He. change (nameIn (paramIdOf bid (paramName e)) s = true
                           /\ valueIn (paramIdOf bid (paramName e)) s = true).
      rewrite N, V, (existsb_paramId bid _ e He), !orb_true_r. split; reflexivity. }
    split; [reflexivity|]. split; [reflexivity|].
    intros kids0 H. discriminate H.
Qed.

Lemma created_commit (bid : jsstring) (d : BlockDiv) (w : World) :
  created (commit bid d w) = created w.
Proof. reflexivity. Qed.

Lemma created_pauseObserver (w : World) : created (pauseObserver w) = created w.
Proof. unfold pauseObserver. destruct (domObserver w); reflexivity. Qed.

Lemma firstExecuteButton_app (bs : list ButtonChild) (i : nat) (d : BlockDiv) :
  is_Some (firstExecuteButton (setButtons (Some (bs ++ [ExecuteButton i])) d)).
Proof.
  unfold firstExecuteButton. simpl. rewrite omap_app. simpl.
  destruct (omap _ bs); simpl; eauto.
Qed.

(** What the last part of the rendering leaves behind: the block is in the
    registry with a button container and, for a complete call, the toggle
    and the execute button; it creates nothing when they were there. *)
Lemma renderControls_spec (info : FunctionInfo) (c : Ctx) (o : Obs)
    (d : BlockDiv) (w : World) :
  let r := renderControls info c o d w in
  r.1 = true
  /\ block r.2 = block w /\ outsideParams r.2 = outsideParams w
  /\ exists x d',
       created r.2 = created w ++ x
       /\ renderedFunctionBlocks r.2 !! blockId c = Some d'
       /\ functionNameEl d' = functionNameEl d
       /\ functionParams d' = functionParams d
       /\ is_Some (functionButtons d')
       /\ (isComplete info = true ->
           hasRawToggle d' = true /\ is_Some (firstExecuteButton d'))
       /\ (is_Some (functionButtons d) ->
           (isComplete info = true ->
            hasRawToggle d = true /\ is_Some (firstExecuteButton d)) ->
           x = []).
Proof.
  cbv zeta. unfold renderControls.
  (* the container *)
  set (r1 := match functionButtons d with Some _ => (d, w) | None => _ end).
  assert (H1 : exists x1, frame w r1.2 x1 /\ outsideParams r1.2 = outsideParams w
                 /\ functionNameEl r1.1 = functionNameEl d
                 /\ functionParams r1.1 = functionParams d
                 /\ is_Some (functionButtons r1.1)
                 /\ (is_Some (functionButtons d) -> x1 = [] /\ r1.1 = d)).
  { unfold r1. destruct (functionButtons d) as [bs|] eqn:E.
    - exists []. split; [apply frame_refl|]. simpl. rewrite E. repeat split; eauto.
    - exists [KFunctionButtons; KSpacer]. simpl.
      split; [unfold frame; simpl; rewrite <- app_assoc; repeat split|].
      split; [reflexivity|]. split; [reflexivity|]. split; [reflexivity|].
      split; [eexists; reflexivity|]. intros [? ?]; discriminate. }
  destruct r1 as [d1 w1]. destruct H1 as (x1 & F1 & O1 & N1 & P1 & [bs1 B1] & K1).
  cbn [fst snd] in *.
  (* the toggle *)
  set (r2 := if isComplete info && negb (hasRawToggle d1) then addRawXmlToggle d1 w1 else (d1, w1)).
  assert (H2 : exists x2, frame w1 r2.2 x2 /\ outsideParams r2.2 = outsideParams w1
                 /\ functionNameEl r2.1 = functionNameEl d1
                 /\ functionParams r2.1 = functionParams d1
                 /\ is_Some (functionButtons r2.1)
                 /\ (isComplete info = true -> hasRawToggle r2.1 = true)
                 /\ (is_Some (firstExecuteButton d1) -> is_Some (firstExecuteButton r2.1))
                 /\ ((isComplete info = true -> hasRawToggle d1 = true) ->
                     x2 = [] /\ r2.1 = d1)).
  { unfold r2. destruct (isComplete info) eqn:Hc; cbn [andb].
    - destruct (hasRawToggle d1) eqn:Ht; cbn [negb].
      + exists []. split; [apply frame_refl|]. simpl. rewrite B1.
        split; [reflexivity|]. split; [reflexivity|]. split; [reflexivity|].
        split; [eexists; reflexivity|]. split; [intros _; exact Ht|].
        split; [intros H; exact H|]. intros _. split; reflexivity.
      + exists [KRawToggle]. split; [apply frame_create|]. simpl.
        split; [reflexivity|]. split; [reflexivity|]. split; [reflexivity|].
        split; [eexists; reflexivity|].
        split.
        { intros _. unfold hasRawToggle. simpl. rewrite existsb_app. simpl.
          apply orb_true_r. }
        split.
        { unfold firstExecuteButton. simpl. rewrite B1, omap_app. simpl.
          rewrite app_nil_r. trivial. }
        intros H. specialize (H eq_refl). discriminate.
    - exists []. split; [apply frame_refl|]. simpl. rewrite B1.
      split; [reflexivity|]. split; [reflexivity|]. split; [reflexivity|].
      split; [eexists; reflexivity|]. split; [discriminate|].
      split; [intros H; exact H|]. intros _. split; reflexivity. }
  destruct r2 as [d2 w2]. destruct H2 as (x2 & F2 & O2 & N2 & P2 & [bs2 B2] & T2 & E2 & K2).
  cbn [fst snd] in *.
  pose proof (frame_trans _ _ _ _ _ F1 F2) as F12.
  destruct F12 as (Fb & _ & _ & _ & _ & _ & _ & _ & Fc).
  assert (Hkeep : is_Some (functionButtons d) ->
                  (isComplete info = true ->
                   hasRawToggle d = true /\ is_Some (firstExecuteButton d)) ->
                  x1 = [] /\ x2 = [] /\ d2 = d).
  { intros Hb Hc. destruct (K1 Hb) as [-> ->].
    destruct K2 as [-> ->]; [intros H; exact (proj1 (Hc H))|]. auto. }
  destruct (isComplete info) eqn:Hc; cbn [andb].
  - destruct (firstExecuteButton d2) as [b|] eqn:Hx.
    + (* the button is there *)
      split; [reflexivity|]. cbn [snd].
      split; [unfold commit, pauseObserver; destruct (domObserver w2); simpl; exact Fb|].
      split; [unfold commit, pauseObserver; destruct (domObserver w2); simpl; congruence|].
      exists (x1 ++ x2), d2.
      rewrite created_commit, created_pauseObserver.
      split; [exact Fc|].
      split; [unfold commit, pauseObserver; destruct (domObserver w2); simpl;
              apply lookup_insert_eq|].
      split; [congruence|]. split; [congruence|]. split; [eauto|].
      split; [intros _; split; [apply T2; reflexivity | rewrite Hx; eauto]|].
      intros Hb Hcc. destruct (Hkeep Hb Hcc) as (-> & -> & _). reflexivity.
    + (* the button is added and its auto-execution scheduled *)
      unfold addExecuteButton. rewrite B2. cbn [default].
      set (d3 := setButtons (Some (bs2 ++ [ExecuteButton (nextButton w2)])) d2).
      set (w3 := setNextButton (S (nextButton w2)) (create KExecuteButton w2)).
      destruct (autoExecuteSection c _ (page w3)) as [early p].
      assert (Hd3 : hasRawToggle d3 = true /\ is_Some (firstExecuteButton d3)).
      { split; [|apply firstExecuteButton_app].
        specialize (T2 eq_refl). unfold hasRawToggle in *. rewrite B2 in T2.
        simpl. rewrite existsb_app, T2. reflexivity. }
      assert (Hres : forall w', block w' = block w3 -> outsideParams w' = outsideParams w3 ->
                       created w' = created w3 ->
                       (true, commit (blockId c) d3 w').1 = true
                       /\ block (true, commit (blockId c) d3 w').2 = block w
                       /\ outsideParams (true, commit (blockId c) d3 w').2 = outsideParams w
                       /\ exists x d',
                            created (true, commit (blockId c) d3 w').2 = created w ++ x
                            /\ renderedFunctionBlocks (true, commit (blockId c) d3 w').2
                                 !! blockId c = Some d'
                            /\ functionNameEl d' = functionNameEl d
                            /\ functionParams d' = functionParams d
                            /\ is_Some (functionButtons d')
                            /\ (true = true -> hasRawToggle d' = true
                                               /\ is_Some (firstExecuteButton d'))
                            /\ (is_Some (functionButtons d) ->
                                (true = true -> hasRawToggle d = true
                                                /\ is_Some (firstExecuteButton d)) ->
                                x = [])).
      { intros w' Hb' Ho' Hc'. cbn [fst snd].
        split; [reflexivity|]. split; [simpl; rewrite Hb'; exact Fb|].
        split; [simpl; rewrite Ho'; simpl; congruence|].
        exists (x1 ++ x2 ++ [KExecuteButton]), d3.
        split; [simpl; rewrite Hc'; simpl; rewrite Fc, <- !app_assoc; reflexivity|].
        split; [simpl; apply lookup_insert_eq|].
        split; [simpl; congruence|]. split; [simpl; congruence|].
        split; [simpl; eauto|]. split; [intros _; exact Hd3|].
        intros Hb Hcc. destruct (Hkeep Hb Hcc) as (_ & _ & ->).
        destruct (Hcc eq_refl) as [_ [b Hb2]]. congruence. }
      destruct early.
      * apply Hres; reflexivity.
      * apply Hres; unfold pauseObserver; simpl; destruct (domObserver w2); reflexivity.
  - split; [reflexivity|]. cbn [snd].
    split; [unfold commit, pauseObserver; destruct (domObserver w2); simpl; exact Fb|].
    split; [unfold commit, pauseObserver; destruct (domObserver w2); simpl; congruence|].
    exists (x1 ++ x2), d2.
    rewrite created_commit, created_pauseObserver.
    split; [exact Fc|].
    split; [unfold commit, pauseObserver; destruct (domObserver w2); simpl;
            apply lookup_insert_eq|].
    split; [congruence|]. split; [congruence|]. split; [eauto|].
    split; [discriminate|].
    intros Hb Hcc. destruct (Hkeep Hb Hcc) as (-> & -> & _). reflexivity.
Qed.

Lemma pipeline_spec (isNew : bool) (prev : option bool) (info : FunctionInfo)
    (pre : bool) (tag : option jsstring) (fn cid bid raw : jsstring)
    (d : BlockDiv) (w : World) :
  cid <> [] ->
  let r1 := stateTransitions isNew prev info pre tag d w in
  let r2 := renderName fn cid info pre r1.1 r1.2 in
  let r3 := renderParamsIn bid raw r2.1 r2.2 in
  exists x kids' n',
    frame w r3.2 x
    /\ functionNameEl r3.1 = Some n' /\ is_Some (callIdText n')
    /\ functionParams r3.1 = Some kids'
    /\ (forall e, In e (extractParams raw) ->
          nameIn (paramIdOf bid (paramName e)) (mkStore kids' (outsideParams r3.2) []) = true
          /\ valueIn (paramIdOf bid (paramName e)) (mkStore kids' (outsideParams r3.2) []) = true)
    /\ functionButtons r3.1 = functionButtons d
    /\ (isNew = false ->
        forall n kids,
          functionNameEl d = Some n -> is_Some (callIdText n) ->
          functionParams d = Some kids ->
          (forall e, In e (extractParams raw) ->
             nameIn (paramIdOf bid (paramName e)) (mkStore kids (outsideParams w) []) = true
             /\ valueIn (paramIdOf bid (paramName e)) (mkStore kids (outsideParams w) []) = true) ->
          Forall (fun k => structural k = false) x).
Proof.
  intros Hc. cbv zeta.
  destruct (stateTransitions_spec isNew prev info pre tag d w)
    as (x1 & F1 & O1 & X1 & S1 & P1 & B1 & N1).
  destruct (stateTransitions isNew prev info pre tag d w) as [d1 w1]. cbn [fst snd] in *.
  destruct (renderName_spec fn cid info pre d1 w1 Hc)
    as (x2 & F2 & O2 & X2 & (n2 & N2 & C2) & P2 & B2).
  destruct (renderName fn cid info pre d1 w1) as [d2 w2]. cbn [fst snd] in *.
  destruct (renderParamsIn_spec bid raw d2 w2)
    as (x3 & kids' & F3 & P3 & K3 & N3 & B3 & X3).
  destruct (renderParamsIn bid raw d2 w2) as [d3 w3]. cbn [fst snd] in *.
  exists (x1 ++ x2 ++ x3), kids', n2.
  split; [exact (frame_trans _ _ _ _ _ F1 (frame_trans _ _ _ _ _ F2 F3))|].
  split; [congruence|]. split; [exact C2|]. split; [exact P3|].
  split; [exact K3|]. split; [congruence|].
  intros Hn n kids En Cn Ek Hk.
  rewrite (X1 Hn). rewrite En in N1. destruct N1 as (n1 & En1 & Cn1).
  rewrite (X2 n1 En1) by (rewrite Cn1; exact Cn).
  simpl. apply (X3 kids); [congruence|]. rewrite O2, O1. exact Hk.
Qed.

Lemma generatedId_nonempty (gen : jsstring) : generatedId gen <> [].
Proof. unfold generatedId. discriminate. Qed.

Lemma blockIdOf_nonempty (gen : jsstring) (w : World) : blockIdOf gen w <> [].
Proof.
  unfold blockIdOf. destruct (dataBlockId (block w)) as [[|c i]|];
    [apply generatedId_nonempty | discriminate | apply generatedId_nonempty].
Qed.

Lemma blockIdOf_attr (gen bid : jsstring) (w : World) :
  dataBlockId (block w) = Some bid -> bid <> [] -> blockIdOf gen w = bid.
Proof.
  unfold blockIdOf. intros -> H. destruct bid; [contradiction | reflexivity].
Qed.

Lemma blockIdOf_fresh (gen : jsstring) (w : World) :
  freshId gen w ->
  dataBlockId (block w) = Some (blockIdOf gen w)
  \/ (renderedFunctionBlocks w !! blockIdOf gen w = None
      /\ documentDivs w !! blockIdOf gen w = None).
Proof.
  unfold freshId, blockIdOf. destruct (dataBlockId (block w)) as [[|c i]|]; auto.
Qed.

Lemma lookupExisting_spec (bid : jsstring) (w : World) :
  let r := lookupExisting bid w in
  block r.2 = block w /\ outsideParams r.2 = outsideParams w
  /\ created r.2 = created w
  /\ match r.1 with
     | Some d =>
         renderedFunctionBlocks r.2 !! bid = Some d
         /\ (forall d', renderedFunctionBlocks w !! bid = Some d' -> d' = d)
         /\ (is_Some (renderedFunctionBlocks w !! bid)
             \/ is_Some (documentDivs w !! bid))
     | None =>
         renderedFunctionBlocks r.2 !! bid = None
         /\ renderedFunctionBlocks w !! bid = None
         /\ processed r.2 = false
     end.
Proof.
  cbv zeta. unfold lookupExisting.
  destruct (renderedFunctionBlocks w !! bid) as [d|] eqn:E; cbn [fst snd].
  - repeat split; auto. congruence.
  - destruct (processed w) eqn:Ep.
    + destruct (documentDivs w !! bid) as [d|] eqn:Ed; cbn [fst snd]; simpl.
      * repeat split; auto; [apply lookup_insert_eq | discriminate].
      * repeat split; auto.
    + cbn [fst snd]. repeat split; auto.
Qed.

Lemma callId_nonempty (m : option (jsstring * option jsstring)) (bid : jsstring) :
  bid <> [] ->
  match m with
  | Some (_, Some ((_ :: _) as c)) => c
  | _ => bid
  end <> [].
Proof.
  intros H. destruct m as [[n [[|c cs]|]]|]; try exact H. discriminate.
Qed.

Section Idempotence.

Variable ParamMap : Type.
Variable containsFunctionCalls : jsstring -> FunctionInfo.
Variable extractLanguageTag : jsstring -> option jsstring * jsstring.
Variable extractFunctionParameters : jsstring -> option ParamMap.
Variable generateContentSignature : jsstring -> ParamMap -> jsstring.

Local Abbreviation render :=
  (renderFunctionCall ParamMap containsFunctionCalls extractLanguageTag
     extractFunctionParameters generateContentSignature).
Local Abbreviation rendered := (renderedFor containsFunctionCalls).

(** One run of the renderer on a block that holds a call and is not inside
    a rendered block: the text stays; if the block has a parent, the block
    is rendered afterwards; if it was rendered before, no name, call-id,
    parameter or control element is created. *)
Lemma render_spec (gen : jsstring) (o : Obs) (w : World) :
  hasFunctionCalls (containsFunctionCalls (textContent (block w))) = true ->
  insideFunctionBlock (block w) = false ->
  let bid := blockIdOf gen w in
  let r := render gen o w in
  textContent (block r.2) = textContent (block w)
  /\ insideFunctionBlock (block r.2) = insideFunctionBlock (block w)
  /\ exists x,
       created r.2 = created w ++ x
       /\ (hasParent (block w) = true -> freshId gen w -> rendered bid r.2)
       /\ (rendered bid w -> Forall (fun k => structural k = false) x).
Proof.
  intros Hf Hi. cbv zeta. unfold renderFunctionCall. rewrite Hf, Hi. cbn [negb orb].
  set (bid := blockIdOf gen w).
  set (info := containsFunctionCalls (textContent (block w))).
  assert (Hbid : bid <> []) by apply blockIdOf_nonempty.
  destruct (lookupExisting_spec bid w) as (Lb & Lo & Lc & Lx).
  destruct (lookupExisting bid w) as [ex w0]. cbn [fst snd] in *.
  destruct ex as [d0|].
  - (* an update of the rendered block *)
    destruct Lx as (Lr & Lu & Le).
    cbn [andb option_map]. rewrite Lb.
    destruct (extractLanguageTag (trim (textContent (block w)))) as [tag content].
    set (cid := match invokeRegex content with
                | Some (_, Some ((_ :: _) as c)) => c | _ => bid end).
    set (fn := match invokeRegex content with Some (n, _) => n | None => _ end).
    assert (Hcid : cid <> []) by (apply callId_nonempty; exact Hbid).
    destruct (pipeline_spec false (Some (negb (loading d0))) info
                (bool_decide (bid ∈ preExistingIncompleteBlocks w)) tag fn cid bid
                (trim (textContent (block w))) d0 w0 Hcid)
      as (x & kids' & n' & F & En & Cn & Ek & Hk & Eb & X).
    destruct (stateTransitions _ _ _ _ _ d0 w0) as [d1 w1]. cbn [fst snd] in *.
    destruct (renderName _ _ _ _ d1 w1) as [d2 w2]. cbn [fst snd] in *.
    destruct (renderParamsIn _ _ d2 w2) as [d3 w3]. cbn [fst snd] in *.
    destruct F as (Fb & _ & _ & _ & _ & _ & _ & _ & Fc).
    match goal with |- context [renderControls info ?c o d3 w3] =>
      destruct (renderControls_spec info c o d3 w3)
        as (_ & Cb & Co & y & d' & Cc & Cr & Cn' & Cp & Cbs & Cx & Cy);
      destruct (renderControls info c o d3 w3) as [ok w4] end.
    cbn [fst snd blockId] in *.
    split; [congruence|]. split; [congruence|].
    exists (x ++ y). split; [rewrite Cc, Fc, Lc, app_assoc; reflexivity|]. split.
    + intros Hp Hfr. unfold renderedFor.
      assert (Ha : dataBlockId (block w) = Some bid).
      { destruct (blockIdOf_fresh gen w Hfr) as [H|[H1 H2]]; [exact H|].
        fold bid in H1, H2. rewrite H1, H2 in Le.
        destruct Le as [[? H]|[? H]]; discriminate. }
      split; [congruence|]. split; [exact Hbid|].
      destruct Cbs as [bs Cbs]. exists d', n', kids', bs.
      split; [exact Cr|]. split; [congruence|]. split; [exact Cn|].
      split; [congruence|]. split.
      { rewrite Cb, Fb, Lb, Co. exact Hk. }
      split; [exact Cbs|]. rewrite Cb, Fb, Lb. exact Cx.
    + intros (Ha & _ & d & n & kids & bs & Er & En0 & Cn0 & Ek0 & Hk0 & Eb0 & Hc0).
      specialize (Lu d Er). subst d0.
      apply Forall_app. split.
      * apply (X eq_refl n kids En0 Cn0 Ek0). rewrite Lo. exact Hk0.
      * rewrite Cy; [constructor| |].
        -- rewrite Eb, Eb0. eauto.
        -- intros H. unfold hasRawToggle, firstExecuteButton in *. rewrite Eb.
           apply Hc0. exact H.
  - (* a new render *)
    destruct Lx as (Lr & Ln & Lp).
    rewrite Lp. cbn [andb negb option_map]. cbn [block textContent setBlock].
    rewrite Lb.
    destruct (extractLanguageTag (trim (textContent (block w)))) as [tag content].
    set (cid := match invokeRegex content with
                | Some (_, Some ((_ :: _) as c)) => c | _ => bid end).
    set (fn := match invokeRegex content with Some (n, _) => n | None => _ end).
    assert (Hcid : cid <> []) by (apply callId_nonempty; exact Hbid).
    set (wa := create KFunctionBlock _).
    set (da := mkDiv bid false false None None None None false).
    destruct (pipeline_spec true None info
                (bool_decide (bid ∈ preExistingIncompleteBlocks w)) tag fn cid bid
                (trim (textContent (block w))) da wa Hcid)
      as (x & kids' & n' & F & En & Cn & Ek & Hk & Eb & X).
    destruct (stateTransitions _ _ _ _ _ da wa) as [d1 w1]. cbn [fst snd] in *.
    destruct (renderName _ _ _ _ d1 w1) as [d2 w2]. cbn [fst snd] in *.
    destruct (renderParamsIn _ _ d2 w2) as [d3 w3]. cbn [fst snd] in *.
    destruct F as (Fb & _ & _ & _ & _ & _ & _ & _ & Fc).
    assert (Hwa : created wa = created w ++ [KFunctionBlock])
      by (unfold wa; simpl; rewrite Lc; reflexivity).
    assert (Hba : block wa = mkPre (textContent (block w)) (Some bid)
                    (hasParent (block w)) (insideFunctionBlock (block w))
                    (displayNone (block w)))
      by (unfold wa; simpl; rewrite ?Lb; reflexivity).
    rewrite Fb, Hba. cbn [hasParent].
    destruct (hasParent (block w)) eqn:Hp; cbn [negb].
    + match goal with |- context [renderControls info ?c o ?d ?w'] =>
        destruct (renderControls_spec info c o d w')
          as (_ & Cb & Co & y & d' & Cc & Cr & Cn' & Cp & Cbs & Cx & Cy);
        destruct (renderControls info c o d w') as [ok w4] end.
      cbn [fst snd blockId] in *. simpl in Cb, Co, Cc, Cn', Cp.
      rewrite Cb. cbn [textContent insideFunctionBlock].
      split; [reflexivity|]. split; [congruence|].
      exists (KFunctionBlock :: x ++ y).
      split; [rewrite Cc, Fc, Hwa, <- !app_assoc; reflexivity|]. split.
      * intros _ _. unfold renderedFor. rewrite Cb. cbn [dataBlockId textContent].
        split; [reflexivity|]. split; [exact Hbid|].
        destruct Cbs as [bs Cbs]. exists d', n', kids', bs.
        split; [exact Cr|]. split; [congruence|]. split; [exact Cn|].
        split; [congruence|]. split.
        { rewrite Co. exact Hk. }
        split; [exact Cbs|]. exact Cx.
      * intros (_ & _ & d & _ & _ & _ & Er & _). congruence.
    + cbn [fst snd]. unfold commit. cbn [block setRegistry created].
      rewrite Fb, Hba. cbn [textContent insideFunctionBlock].
      split; [reflexivity|]. split; [congruence|].
      exists (KFunctionBlock :: x).
      split; [rewrite Fc, Hwa, <- app_assoc; reflexivity|]. split.
      * discriminate.
      * intros (_ & _ & d & _ & _ & _ & Er & _). congruence.
Qed.

Lemma render_skips (gen : jsstring) (o : Obs) (w : World) :
  negb (hasFunctionCalls (containsFunctionCalls (textContent (block w))))
  || insideFunctionBlock (block w) = true ->
  render gen o w = (false, w).
Proof. intros H. unfold renderFunctionCall. rewrite H. reflexivity. Qed.

(** C8 (amended): the block has a parent node, an identifier generated for
    it is new, and the identifier and the parameter names are free of the
    characters that are special in a quoted attribute selector.  Then a
    second run of the render-update path on the unchanged text, right
    after the first, creates no function-name, call-id, parameter-name,
    parameter-value, raw-content-toggle or execute-button element. *)
Theorem render_twice_creates_no_structural_node
    (g1 g2 : jsstring) (o1 o2 : Obs) (w : World) :
  hasParent (block w) = true ->
  freshId g1 w ->
  selectorSafe (blockIdOf g1 w) = true ->
  forallb (fun e => selectorSafe (paramName e))
          (extractParams (trim (textContent (block w)))) = true ->
  let w1 := (render g1 o1 w).2 in
  let w2 := (render g2 o2 w1).2 in
  textContent (block w1) = textContent (block w)
  /\ Forall (fun k => structural k = false) (createdSince w1 w2).
Proof.
  intros Hp Hfr _ _. cbv zeta. unfold createdSince.
  destruct (negb (hasFunctionCalls (containsFunctionCalls (textContent (block w))))
            || insideFunctionBlock (block w)) eqn:Hs.
  - rewrite (render_skips g1 o1 w Hs). cbn [snd].
    rewrite (render_skips g2 o2 w Hs). cbn [snd].
    rewrite drop_all. split; [reflexivity | constructor].
  - apply orb_false_iff in Hs. destruct Hs as [Hf Hi].
    apply negb_false_iff in Hf.
    destruct (render_spec g1 o1 w Hf Hi) as (T1 & I1 & x1 & C1 & R1 & _).
    specialize (R1 Hp Hfr).
    set (w1 := (render g1 o1 w).2) in *.
    split; [exact T1|].
    assert (Hf1 : hasFunctionCalls (containsFunctionCalls (textContent (block w1))) = true)
      by (rewrite T1; exact Hf).
    assert (Hi1 : insideFunctionBlock (block w1) = false) by congruence.
    destruct (render_spec g2 o2 w1 Hf1 Hi1) as (_ & _ & x2 & C2 & _ & X2).
    rewrite C2, drop_app_length. apply X2.
    assert (E : blockIdOf g2 w1 = blockIdOf g1 w).
    { destruct R1 as (Ha & Hn & _). apply blockIdOf_attr; assumption. }
    rewrite E. exact R1.
Qed.

End Idempotence.

(** C8, as stated, fails: the block of the completed call has no parent
    node.  The first run builds the rendered block, registers it and gives
    up before the controls (lines 611-619); the second run, on the same
    text, finds the registered block, takes the update path and adds the
    button container, the raw-content toggle and the execute button. *)
Lemma detached_block_gets_controls_on_second_run :
  let w1 := (renderExample gen1 obsEnabled worldDetached).2 in
  let w2 := (renderExample gen2 obsEnabled w1).2 in
  textContent (block w1) = textContent (block worldDetached)
  /\ dataBlockId (block w1) = Some (generatedId gen1)
  /\ createdSince w1 w2 = [KFunctionButtons; KSpacer; KRawToggle; KExecuteButton]
  /\ ~ Forall (fun k => structural k = false) (createdSince w1 w2).
Proof.
  cbv zeta.
  assert (E : createdSince (renderExample gen1 obsEnabled worldDetached).2
                (renderExample gen2 obsEnabled
                   (renderExample gen1 obsEnabled worldDetached).2).2
              = [KFunctionButtons; KSpacer; KRawToggle; KExecuteButton])
    by (vm_compute; reflexivity).
  split; [vm_compute; reflexivity|]. split; [vm_compute; reflexivity|].
  split; [exact E|]. rewrite E. intros H.
  apply Forall_cons in H as [_ H]. apply Forall_cons in H as [_ H].
  apply Forall_cons in H as [H _]. discriminate H.
Qed.

Lemma render_twice_witness :
  hasParent (block worldAttached) = true
  /\ freshId gen1 worldAttached
  /\ selectorSafe (blockIdOf gen1 worldAttached) = true
  /\ forallb (fun e => selectorSafe (paramName e))
             (extractParams (trim (textContent (block worldAttached)))) = true
  /\ textContent (block (renderExample gen1 obsEnabled worldAttached).2)
     = textContent (block worldAttached)
  /\ Forall (fun k => structural k = false)
       (createdSince (renderExample gen1 obsEnabled worldAttached).2
          (renderExample gen2 obsEnabled
             (renderExample gen1 obsEnabled worldAttached).2).2).
Proof.
  assert (H1 : hasParent (block worldAttached) = true) by reflexivity.
  assert (H2 : freshId gen1 worldAttached) by (split; reflexivity).
  assert (H3 : selectorSafe (blockIdOf gen1 worldAttached) = true) by reflexivity.
  assert (H4 : forallb (fun e => selectorSafe (paramName e))
                 (extractParams (trim (textContent (block worldAttached)))) = true)
    by (vm_compute; reflexivity).
  split; [exact H1|]. split; [exact H2|]. split; [exact H3|]. split; [exact H4|].
  exact (render_twice_creates_no_structural_node _ scanTags noLanguageTag paramMapOf
           signatureOf gen1 gen2 obsEnabled obsEnabled worldAttached H1 H2 H3 H4).
Defined.

End RenderFacts.

(** * Properties of the execution ledger *)

Module LedgerFacts.
Import Ledger Sched Keys Examples ParamsFacts RenderFacts.
Local Open Scope nat_scope.

(** *** Keys *)

Lemma split_colonFree (a : jsstring) :
  colonFree a = true -> split colon a = [a].
Proof.
  induction a as [|ch a IH]; simpl; [reflexivity|].
  intros H. apply andb_true_iff in H as [H1 H2].
  apply negb_true_iff in H1. rewrite H1, (IH H2). reflexivity.
Qed.

Lemma split_app_colon (a r : jsstring) :
  colonFree a = true -> split colon (a ++ colon :: r) = a :: split colon r.
Proof.
  induction a as [|ch a IH]; simpl; intros H.
  - reflexivity.
  - apply andb_true_iff in H as [H1 H2]. apply negb_true_iff in H1.
    rewrite H1, (IH H2). reflexivity.
Qed.

Lemma split_key3 (n c s : jsstring) :
  colonFree n = true -> colonFree c = true -> colonFree s = true ->
  split colon (key3 n c s) = [n; c; s].
Proof.
  intros Hn Hc Hs. unfold key3.
  rewrite (split_app_colon n _ Hn), (split_app_colon c _ Hc), (split_colonFree s Hs).
  reflexivity.
Qed.

Lemma keyMatches_key3 (n c s : jsstring) :
  colonFree n = true -> colonFree c = true -> colonFree s = true ->
  keyMatches c s (key3 n c s) = true.
Proof.
  intros Hn Hc Hs. unfold keyMatches. rewrite (split_key3 n c s Hn Hc Hs).
  rewrite !str_eqb_refl. reflexivity.
Qed.

Lemma app_colon_inj (a a' r r' : jsstring) :
  colonFree a = true -> colonFree a' = true ->
  a ++ colon :: r = a' ++ colon :: r' -> a = a' /\ r = r'.
Proof.
  revert a'. induction a as [|ch a IH]; intros [|ch' a'] Ha Ha' E; simpl in *.
  - injection E as E. auto.
  - injection E as E1 E2. subst ch'. discriminate Ha'.
  - injection E as E1 E2. subst ch. discriminate Ha.
  - injection E as E1 E2. subst ch'.
    apply andb_true_iff in Ha as [_ Ha]. apply andb_true_iff in Ha' as [_ Ha'].
    destruct (IH a' Ha Ha' E2) as [-> ->]. auto.
Qed.

Lemma key3_inj (n c s n' c' s' : jsstring) :
  colonFree n = true -> colonFree c = true ->
  colonFree n' = true -> colonFree c' = true ->
  key3 n c s = key3 n' c' s' -> n = n' /\ c = c' /\ s = s'.
Proof.
  unfold key3. intros Hn Hc Hn' Hc' E.
  destruct (app_colon_inj _ _ _ _ Hn Hn' E) as [-> E2].
  destruct (app_colon_inj _ _ _ _ Hc Hc' E2) as [-> ->]. auto.
Qed.

(** *** Marking and asking *)

Lemma isFunctionExecuted_mono (t t' : ExecutionTracker) (st : Storage)
    (c s : jsstring) (n : option jsstring) :
  executedFunctions t ⊆ executedFunctions t' ->
  isFunctionExecuted t st c s n = true ->
  isFunctionExecuted t' st c s n = true.
Proof.
  intros Hsub. unfold isFunctionExecuted.
  assert (Hm : forall k, bool_decide (k ∈ executedFunctions t) = true ->
                         bool_decide (k ∈ executedFunctions t') = true).
  { intros k H. apply bool_decide_eq_true in H. apply bool_decide_eq_true. set_solver. }
  assert (He : existsb (keyMatches c s) (elements (executedFunctions t)) = true ->
               existsb (keyMatches c s) (elements (executedFunctions t')) = true).
  { intros H. apply existsb_exists in H as (k & Hk & Hkm).
    apply existsb_exists. exists k. split; [|exact Hkm].
    apply list_elem_of_In, elem_of_elements.
    apply list_elem_of_In, elem_of_elements in Hk. set_solver. }
  destruct n as [f|].
  - destruct (bool_decide (key3 f c s ∈ executedFunctions t)) eqn:E1.
    + rewrite (Hm _ E1). reflexivity.
    + cbn [orb]. destruct (getPreviousExecution st f c s); [rewrite orb_true_r; reflexivity|].
      rewrite orb_false_r.
      destruct (bool_decide (key3 f c s ∈ executedFunctions t')); [reflexivity|].
      intros H. apply orb_true_iff in H as [H|H]; [|rewrite H, orb_true_r; reflexivity].
      apply orb_true_iff in H as [H|H]; rewrite (Hm _ H); [reflexivity|].
      rewrite orb_true_r. reflexivity.
  - destruct (existsb (keyMatches c s) (elements (executedFunctions t))) eqn:E2.
    + rewrite (He eq_refl). reflexivity.
    + destruct (existsb (keyMatches c s) (elements (executedFunctions t'))); [reflexivity|].
      intros H. apply orb_true_iff in H as [H|H]; [|rewrite H, orb_true_r; reflexivity].
      apply orb_true_iff in H as [H|H]; rewrite (Hm _ H); [reflexivity|].
      rewrite orb_true_r. reflexivity.
Qed.

(** Whatever the name given (a name, a blank name, none) and whatever
    storage holds, a call that was marked is reported executed when asked
    with the same arguments. *)
Theorem marked_is_executed (t : ExecutionTracker) (st : Storage)
    (c s : jsstring) (n : option jsstring) :
  isFunctionExecuted (markFunctionExecuted t c s n) st c s n = true.
Proof.
  unfold isFunctionExecuted, markFunctionExecuted, markKey. cbn [executedFunctions].
  destruct n as [f|].
  - destruct (trim f) as [|ch r].
    + destruct (bool_decide (key3 f c s ∈ _) || getPreviousExecution st f c s);
        [reflexivity|].
      rewrite (bool_decide_eq_true_2 (legacyKey c s ∈ _)) by set_solver. reflexivity.
    + rewrite (bool_decide_eq_true_2 (key3 f c s ∈ _)) by set_solver. reflexivity.
  - destruct (existsb _ _); [reflexivity|].
    rewrite (bool_decide_eq_true_2 (legacyKey c s ∈ _)) by set_solver. reflexivity.
Qed.

(** An entry of the ledger never expires: once a call is reported executed,
    no operation of the tracker makes the report false again. *)
Theorem executed_never_expires (t : ExecutionTracker) (st : Storage)
    (c s : jsstring) (n : option jsstring) :
  isFunctionExecuted t st c s n = true ->
  (forall c' s' n', isFunctionExecuted (markFunctionExecuted t c' s' n') st c s n = true)
  /\ (forall b, isFunctionExecuted (markBlockExecuted t b) st c s n = true)
  /\ (forall b, isFunctionExecuted (incrementAttempts t b).1 st c s n = true)
  /\ (forall b, isFunctionExecuted (cleanupBlock t b) st c s n = true).
Proof.
  intros H. repeat split; intros;
    (eapply isFunctionExecuted_mono; [|exact H]); simpl; set_solver.
Qed.

Lemma executed_never_expires_witness :
  isFunctionExecuted (tracker stMarked) noStorage call1 sig1 (Some searchName) = true
  /\ isFunctionExecuted (cleanupBlock (tracker stMarked) block1) noStorage
       call1 sig1 (Some searchName) = true.
Proof.
  assert (H : isFunctionExecuted (tracker stMarked) noStorage call1 sig1
                (Some searchName) = true) by (vm_compute; reflexivity).
  split; [exact H|].
  exact (proj2 (proj2 (proj2 (executed_never_expires _ _ _ _ _ H))) block1).
Defined.

(** Asked without a name, the ledger finds a call that was marked with
    one, when name, identifier and signature hold no colon. *)
Theorem marked_with_name_found_without (t : ExecutionTracker) (st : Storage)
    (n c s : jsstring) :
  plainCall (n, c, s) = true ->
  isFunctionExecuted (markFunctionExecuted t c s (Some n)) st c s None = true.
Proof.
  unfold plainCall. cbn [fst snd]. intros H.
  apply andb_true_iff in H as [H Hb]. apply andb_true_iff in H as [H Hs].
  apply andb_true_iff in H as [Hn Hc].
  apply negb_true_iff, bool_decide_eq_false in Hb.
  unfold isFunctionExecuted, markFunctionExecuted, markKey. cbn [executedFunctions].
  destruct (trim n) as [|ch r] eqn:E; [contradiction|].
  assert (X : existsb (keyMatches c s)
                (elements ({[key3 n c s]} ∪ executedFunctions t)) = true).
  { apply existsb_exists. exists (key3 n c s). split.
    - apply list_elem_of_In, elem_of_elements. set_solver.
    - apply keyMatches_key3; assumption. }
  rewrite X. reflexivity.
Qed.

Lemma marked_with_name_found_without_witness :
  plainCall (searchName, call1, sig1) = true
  /\ isFunctionExecuted (markFunctionExecuted emptyTracker call1 sig1 (Some searchName))
       allStored call1 sig1 None = true.
Proof.
  assert (H : plainCall (searchName, call1, sig1) = true) by (vm_compute; reflexivity).
  split; [exact H|].
  exact (marked_with_name_found_without emptyTracker allStored _ _ _ H).
Defined.

(** *** The ledger is exact for plain calls *)

Lemma colonFree_app_colon (a b : jsstring) : colonFree (a ++ colon :: b) = false.
Proof.
  unfold colonFree. rewrite forallb_app. simpl. apply andb_false_r.
Qed.

Lemma plainCall_parts (x : jsstring * jsstring * jsstring) :
  plainCall x = true ->
  colonFree x.1.1 = true /\ colonFree x.1.2 = true /\ colonFree x.2 = true
  /\ trim x.1.1 <> [].
Proof.
  unfold plainCall. intros H.
  apply andb_true_iff in H as [H Hb]. apply andb_true_iff in H as [H Hs].
  apply andb_true_iff in H as [Hn Hc].
  apply negb_true_iff, bool_decide_eq_false in Hb. auto.
Qed.

Lemma markKey_plain (x : jsstring * jsstring * jsstring) :
  plainCall x = true -> markKey x.1.2 x.2 (Some x.1.1) = key3 x.1.1 x.1.2 x.2.
Proof.
  intros H. apply plainCall_parts in H as (_ & _ & _ & Hb).
  unfold markKey. destruct (trim x.1.1); [contradiction | reflexivity].
Qed.

Lemma executedFunctions_markAll (calls : list (jsstring * jsstring * jsstring)) :
  forall (t : ExecutionTracker) (k : jsstring),
  k ∈ executedFunctions (markAll calls t)
  <-> k ∈ executedFunctions t
      \/ exists x, In x calls /\ k = markKey x.1.2 x.2 (Some x.1.1).
Proof.
  induction calls as [|x calls IH]; intros t k; simpl.
  - split; [auto | intros [H|(x & [] & _)]; exact H].
  - unfold markAll in *. simpl. rewrite IH. simpl. split.
    + intros [H|(y & Hy & ->)].
      * apply elem_of_union in H as [H|H]; [|auto].
        apply elem_of_singleton in H. right. exists x. auto.
      * right. exists y. auto.
    + intros [H|(y & [<-|Hy] & ->)].
      * left. apply elem_of_union. right. exact H.
      * left. apply elem_of_union. left. apply elem_of_singleton. reflexivity.
      * right. exists y. auto.
Qed.

Lemma legacyKey_not_key3 (c s n' c' s' : jsstring) :
  colonFree c = true -> colonFree s = true -> colonFree n' = true ->
  legacyKey c s <> key3 n' c' s'.
Proof.
  unfold legacyKey, key3. intros Hc Hs Hn' E.
  destruct (app_colon_inj _ _ _ _ Hc Hn' E) as [_ E2].
  rewrite E2, colonFree_app_colon in Hs. discriminate.
Qed.

Lemma legacyKey2_not_key3 (c s n' c' s' : jsstring) :
  colonFree n' = true -> n' <> [] -> legacyKey2 c s <> key3 n' c' s'.
Proof.
  unfold legacyKey2, key3. intros Hn' Hne E.
  destruct n' as [|ch r]; [contradiction|].
  simpl in E. injection E as E1 E2. subst ch. discriminate Hn'.
Qed.

Lemma trim_nonempty (n : jsstring) : trim n <> [] -> n <> [].
Proof. intros H ->. apply H. reflexivity. Qed.

(** For calls whose name, identifier and signature hold no colon, and a
    storage without a record of the call asked for, the ledger is exact:
    after any sequence of marks on a fresh tracker, a call is reported
    executed exactly when it was marked; asked without a name, exactly when
    it was marked under some name. *)
Theorem ledger_exact_for_plain_calls
    (calls : list (jsstring * jsstring * jsstring)) (st : Storage)
    (n c s : jsstring) :
  forallb plainCall calls = true ->
  plainCall (n, c, s) = true ->
  getPreviousExecution st n c s = false ->
  getPreviousExecutionLegacy st c s = false ->
  (isFunctionExecuted (markAll calls emptyTracker) st c s (Some n) = true
   <-> In (n, c, s) calls)
  /\ (isFunctionExecuted (markAll calls emptyTracker) st c s None = true
      <-> exists n', In (n', c, s) calls).
Proof.
  intros Hcalls Hq Hst Hleg.
  apply plainCall_parts in Hq as (Hn & Hc & Hs & Hb). cbn [fst snd] in *.
  rewrite forallb_forall in Hcalls.
  assert (Hin : forall k, k ∈ executedFunctions (markAll calls emptyTracker)
                  <-> exists x, In x calls /\ k = key3 x.1.1 x.1.2 x.2).
  { intros k. rewrite executedFunctions_markAll. split.
    - intros [H|(x & Hx & ->)]; [simpl in H; set_solver|].
      exists x. split; [exact Hx | apply markKey_plain, Hcalls, Hx].
    - intros (x & Hx & ->). right. exists x. split; [exact Hx|].
      symmetry. apply markKey_plain, Hcalls, Hx. }
  assert (Hl1 : bool_decide (legacyKey c s ∈ executedFunctions (markAll calls emptyTracker))
                = false).
  { apply bool_decide_eq_false. rewrite Hin. intros (x & Hx & E).
    destruct (plainCall_parts x (Hcalls x Hx)) as (Hxn & _).
    exact (legacyKey_not_key3 _ _ _ _ _ Hc Hs Hxn E). }
  assert (Hl2 : bool_decide (legacyKey2 c s ∈ executedFunctions (markAll calls emptyTracker))
                = false).
  { apply bool_decide_eq_false. rewrite Hin. intros (x & Hx & E).
    destruct (plainCall_parts x (Hcalls x Hx)) as (Hxn & _ & _ & Hxb).
    exact (legacyKey2_not_key3 _ _ _ _ _ Hxn (trim_nonempty _ Hxb) E). }
  unfold isFunctionExecuted. rewrite Hst, Hleg, Hl1, Hl2. cbn [orb]. split.
  - rewrite orb_false_r.
    destruct (bool_decide (key3 n c s ∈ _)) eqn:E.
    + split; [intros _|reflexivity].
      apply bool_decide_eq_true, Hin in E as ([[n' c'] s'] & Hx & E).
      destruct (plainCall_parts _ (Hcalls _ Hx)) as (Hxn & Hxc & _).
      cbn [fst snd] in *.
      destruct (key3_inj _ _ _ _ _ _ Hn Hc Hxn Hxc E) as (-> & -> & ->). exact Hx.
    + split; [discriminate|]. intros Hx.
      apply bool_decide_eq_false in E. exfalso. apply E, Hin.
      exists (n, c, s). auto.
  - destruct (existsb _ _) eqn:E.
    + split; [intros _|reflexivity].
      apply existsb_exists in E as (k & Hk & Hm).
      apply list_elem_of_In, elem_of_elements, Hin in Hk as ([[n' c'] s'] & Hx & ->).
      destruct (plainCall_parts _ (Hcalls _ Hx)) as (Hxn & Hxc & Hxs & _).
      cbn [fst snd] in *. unfold keyMatches in Hm.
      rewrite (split_key3 _ _ _ Hxn Hxc Hxs) in Hm.
      apply andb_true_iff in Hm as [M1 M2].
      apply str_eqb_spec in M1, M2. subst. exists n'. exact Hx.
    + split; [discriminate|]. intros (n' & Hx). exfalso.
      assert (X : existsb (keyMatches c s)
                    (elements (executedFunctions (markAll calls emptyTracker))) = true).
      { apply existsb_exists. exists (key3 n' c s). split.
        - apply list_elem_of_In, elem_of_elements, Hin. exists (n', c, s). auto.
        - destruct (plainCall_parts _ (Hcalls _ Hx)) as (Hxn & Hxc & Hxs & _).
          apply keyMatches_key3; assumption. }
      congruence.
Qed.

Lemma ledger_exact_witness :
  forallb plainCall [(searchName, call1, sig1)] = true
  /\ plainCall (searchName, block1, sig1) = true
  /\ isFunctionExecuted (markAll [(searchName, call1, sig1)] emptyTracker)
       noStorage block1 sig1 (Some searchName) = false.
Proof.
  assert (H1 : forallb plainCall [(searchName, call1, sig1)] = true)
    by (vm_compute; reflexivity).
  assert (H2 : plainCall (searchName, block1, sig1) = true) by (vm_compute; reflexivity).
  split; [exact H1|]. split; [exact H2|].
  destruct (ledger_exact_for_plain_calls [(searchName, call1, sig1)] noStorage
              searchName block1 sig1 H1 H2 eq_refl eq_refl) as [[H _] _].
  destruct (isFunctionExecuted _ _ _ _ _); [|reflexivity].
  exfalso. destruct (H eq_refl) as [E|[]]. discriminate E.
Defined.

(** The key is the plain concatenation of its parts: a mark for the
    identifier [c:x] with signature [s] also answers for the identifier [c]
    with signature [x:s]. *)
Theorem colon_shifts_between_identifier_and_signature
    (t : ExecutionTracker) (st : Storage) (n c x s : jsstring) :
  trim n <> [] ->
  isFunctionExecuted (markFunctionExecuted t (c ++ colon :: x) s (Some n)) st
                     c (x ++ colon :: s) (Some n) = true.
Proof.
  intros Hb. unfold isFunctionExecuted, markFunctionExecuted, markKey.
  cbn [executedFunctions]. destruct (trim n) as [|ch r]; [contradiction|].
  assert (E : key3 n (c ++ colon :: x) s = key3 n c (x ++ colon :: s)).
  { unfold key3. rewrite <- !app_assoc. reflexivity. }
  rewrite E. rewrite (bool_decide_eq_true_2 (key3 n c (x ++ colon :: s) ∈ _)) by set_solver.
  reflexivity.
Qed.

Lemma colon_shift_witness :
  trim searchName <> []
  /\ isFunctionExecuted
       (markFunctionExecuted emptyTracker (call1 ++ colon :: block1) sig1 (Some searchName))
       noStorage call1 (block1 ++ colon :: sig1) (Some searchName) = true.
Proof.
  assert (H : trim searchName <> []) by (vm_compute; discriminate).
  split; [exact H|].
  exact (colon_shifts_between_identifier_and_signature emptyTracker noStorage
           searchName call1 block1 sig1 H).
Defined.

(** *** Attempts *)

Lemma getAttempts_increment (t : ExecutionTracker) (b : jsstring) :
  getAttempts (incrementAttempts t b).1 b = getAttempts t b + 1.
Proof.
  unfold getAttempts, incrementAttempts. cbn. rewrite lookup_insert_eq. reflexivity.
Qed.

(** The attempt counter of a block starts at 0, [incrementAttempts] adds one
    and returns the new count, [cleanupBlock] puts it back to 0; neither
    touches the counter of another block, and neither changes which blocks
    and calls are marked. *)
Theorem attempts_counter (t : ExecutionTracker) (b b' : jsstring) :
  getAttempts emptyTracker b = 0
  /\ (incrementAttempts t b).2 = getAttempts t b + 1
  /\ getAttempts (incrementAttempts t b).1 b = getAttempts t b + 1
  /\ getAttempts (cleanupBlock t b) b = 0
  /\ (forall k, getAttempts (Nat.iter k (fun t => (incrementAttempts t b).1)
                               (cleanupBlock t b)) b = k)
  /\ (b' <> b ->
      getAttempts (incrementAttempts t b).1 b' = getAttempts t b'
      /\ getAttempts (cleanupBlock t b) b' = getAttempts t b')
  /\ isBlockExecuted (incrementAttempts t b).1 b' = isBlockExecuted t b'
  /\ isBlockExecuted (cleanupBlock t b) b' = isBlockExecuted t b'
  /\ executedFunctions (incrementAttempts t b).1 = executedFunctions t
  /\ executedFunctions (cleanupBlock t b) = executedFunctions t.
Proof.
  split; [reflexivity|]. split; [reflexivity|].
  split; [apply getAttempts_increment|].
  split; [unfold getAttempts, cleanupBlock; cbn; rewrite lookup_delete_eq; reflexivity|].
  split.
  { intros k. induction k as [|k IH].
    - unfold getAttempts, cleanupBlock. cbn. rewrite lookup_delete_eq. reflexivity.
    - rewrite Nat.iter_succ, getAttempts_increment, IH. lia. }
  split.
  { intros Hne. unfold getAttempts, incrementAttempts, cleanupBlock. cbn.
    rewrite lookup_insert_ne, lookup_delete_ne by congruence. split; reflexivity. }
  repeat split.
Qed.

End LedgerFacts.

(** * Further properties of the scheduler and the scanner *)

Module SchedulerFacts.
Import Ledger Sched Buttons Examples SchedFacts.
Local Open Scope nat_scope.

(** *** The fallback search *)

(** The fallback search of a retry pass returns the first execute button of
    the document whose enclosing block carries the function name or the
    block identifier; it returns none exactly when there is no such button,
    and never a button outside a block. *)
Theorem fallbackSearch_first_match (c : Ctx) (bs : list (nat * option ParentBlock)) :
  match fallbackSearch c bs with
  | Some b =>
      exists pre p post,
        bs = pre ++ (b, Some p) :: post
        /\ blockMatches c p = true
        /\ forallb (fun x => negb (buttonMatches c x)) pre = true
  | None => forallb (fun x => negb (buttonMatches c x)) bs = true
  end.
Proof.
  induction bs as [|[b [p|]] bs IH]; cbn [fallbackSearch].
  - reflexivity.
  - destruct (match parentNameText p with Some t => str_eqb t (functionName c) | None => false end)
      eqn:E1.
    { exists [], p, bs. unfold blockMatches. rewrite E1. repeat split. }
    destruct (match parentBlockId p with Some i => str_eqb i (blockId c) | None => false end)
      eqn:E2.
    { exists [], p, bs. unfold blockMatches. rewrite E1, E2. repeat split. }
    assert (Hnm : negb (buttonMatches c (b, Some p)) = true).
    { unfold buttonMatches, blockMatches. cbn [snd]. rewrite E1, E2. reflexivity. }
    destruct (fallbackSearch c bs) as [b'|].
    + destruct IH as (pre & p' & post & -> & Hm & Hpre).
      exists ((b, Some p) :: pre), p', post. split; [reflexivity|]. split; [exact Hm|].
      cbn [forallb]. rewrite Hnm. exact Hpre.
    + cbn [forallb]. rewrite Hnm. exact IH.
  - destruct (fallbackSearch c bs) as [b'|].
    + destruct IH as (pre & p' & post & -> & Hm & Hpre).
      exists ((b, None) :: pre), p', post. split; [reflexivity|]. split; [exact Hm|].
      exact Hpre.
    + exact IH.
Qed.

(** *** The periodic scanner *)

Lemma clickTimers_cons (o : Obs) (k : nat) (x : nat * option ParentBlock)
    (bs : list (nat * option ParentBlock)) :
  clickTimers o k (x :: bs)
  = (if eligible o x.1
     then [(300 * inject_Z (Z.of_nat (k + 1)), CbScannerClick x.1)%Q] else [])
    ++ clickTimers o (S k) bs.
Proof.
  unfold clickTimers. rewrite imap_cons. cbn [omap].
  assert (E : imap ((fun i y => if eligible o y.1
                                then Some (300 * inject_Z (Z.of_nat (k + i + 1)),
                                           CbScannerClick y.1)%Q
                                else None) ∘ S) bs
              = imap (fun i y => if eligible o y.1
                                 then Some (300 * inject_Z (Z.of_nat (S k + i + 1)),
                                            CbScannerClick y.1)%Q
                                 else None) bs).
  { apply imap_ext. intros i y _. cbn.
    replace (k + S i + 1) with (S (k + i + 1)) by lia. reflexivity. }
  rewrite E. rewrite Nat.add_0_r.
  destruct (eligible o x.1); reflexivity.
Qed.

Lemma scanButtons_spec (o : Obs) (bs : list (nat * option ParentBlock)) :
  forall (k : nat) (st : State),
  scanButtons o bs k st
  = mkState (toggleState st) (tracker st) (timers st ++ clickTimers o k bs)
            (log st ++ map (fun x => EvSetTimeout x.2 x.1) (clickTimers o k bs)).
Proof.
  induction bs as [|[b p] bs IH]; intros k st.
  - cbn. rewrite !app_nil_r. destruct st; reflexivity.
  - cbn [scanButtons]. rewrite IH, clickTimers_cons. unfold eligible. cbn [fst].
    destruct (disabled (buttonState o b)); cbn [orb negb andb app].
    + reflexivity.
    + destruct (autoExecReadyFalse (buttonState o b)); cbn [negb app].
      * reflexivity.
      * cbn [setTimeout toggleState tracker timers log map app fst snd].
        rewrite <- !app_assoc. reflexivity.
Qed.

Lemma scanner_schedule_eq (o : Obs) (st : State) :
  autoExecuteButtonScanner o st
  = mkState (toggleState st) (tracker st)
            (timers st
             ++ (if autoExecuteIsTrue (toggleState st)
                 then clickTimers o 0 (allButtons o) else [])
             ++ [(match allButtons o with [] => 1000%Q | _ => 3000%Q end, CbScanner)])
            (log st ++ map (fun x => EvSetTimeout x.2 x.1)
                           ((if autoExecuteIsTrue (toggleState st)
                             then clickTimers o 0 (allButtons o) else [])
                            ++ [(match allButtons o with [] => 1000%Q | _ => 3000%Q end,
                                 CbScanner)])).
Proof.
  unfold autoExecuteButtonScanner.
  destruct (allButtons o) as [|x bs] eqn:E.
  - unfold clickTimers. cbn. destruct (autoExecuteIsTrue (toggleState st)); reflexivity.
  - destruct (autoExecuteIsTrue (toggleState st)).
    + rewrite scanButtons_spec. unfold setTimeout.
      cbn [toggleState tracker timers log]. rewrite map_app, <- !app_assoc. reflexivity.
    + reflexivity.
Qed.

Lemma clickTimers_lookup (o : Obs) (bs : list (nat * option ParentBlock)) :
  forall (k : nat) (d : Q) (cb : Callback),
  In (d, cb) (clickTimers o k bs)
  <-> exists i b p, bs !! i = Some (b, p) /\ eligible o b = true
                    /\ cb = CbScannerClick b
                    /\ d = (300 * inject_Z (Z.of_nat (k + i + 1)))%Q.
Proof.
  induction bs as [|[b p] bs IH]; intros k d cb.
  - split; [intros [] | intros (i & b & p & H & _); discriminate H].
  - rewrite clickTimers_cons, in_app_iff, IH. cbn [fst]. split.
    + intros [H|(i & b' & p' & Hl & He & -> & ->)].
      * destruct (eligible o b) eqn:E; [|destruct H].
        destruct H as [[= <- <-]|[]]. exists 0, b, p.
        rewrite Nat.add_0_r. auto.
      * exists (S i), b', p'. split; [exact Hl|]. split; [exact He|].
        split; [reflexivity|]. replace (k + S i + 1) with (S k + i + 1) by lia.
        reflexivity.
    + intros ([|i] & b' & p' & Hl & He & -> & ->).
      * injection Hl as -> ->. left. rewrite He, Nat.add_0_r. left. reflexivity.
      * right. exists i, b', p'. split; [exact Hl|]. split; [exact He|].
        split; [reflexivity|]. replace (k + S i + 1) with (S k + i + 1) by lia.
        reflexivity.
Qed.

(** One run of the scanner clicks nothing itself and leaves the ledger and
    the preference alone.  When auto-execute is on it sets one click
    timeout for each execute button that is enabled and not marked as not
    ready, with the delay 300 (i + 1) ms for the button at position i among
    all execute buttons of the document; it always sets exactly one timeout
    for its next run: after 1000 ms when the document has no execute
    button, after 3000 ms otherwise. *)
Theorem scanner_schedule (o : Obs) (st : State) :
  let clicks :=
    if autoExecuteIsTrue (toggleState st) then clickTimers o 0 (allButtons o)
    else [] in
  let rescan := match allButtons o with [] => 1000%Q | _ => 3000%Q end in
  autoExecuteButtonScanner o st
  = mkState (toggleState st) (tracker st)
            (timers st ++ clicks ++ [(rescan, CbScanner)])
            (log st ++ map (fun x => EvSetTimeout x.2 x.1)
                           (clicks ++ [(rescan, CbScanner)]))
  /\ (forall d cb,
        In (d, cb) (clickTimers o 0 (allButtons o))
        <-> exists i b p,
              allButtons o !! i = Some (b, p) /\ eligible o b = true
              /\ cb = CbScannerClick b
              /\ d = (300 * inject_Z (Z.of_nat (i + 1)))%Q).
Proof.
  cbv zeta. split; [apply scanner_schedule_eq|].
  intros d cb. apply (clickTimers_lookup o (allButtons o) 0).
Qed.

Lemma fire_log_grows (cb : Callback) (o : Obs) (st : State) :
  exists ev, log (fire cb o st) = log st ++ ev.
Proof.
  destruct cb; cbn [fire]; unfold setupAutoExecution.
  - destruct (retry_cases c 0 o st) as (_ & _ & [[_ ->]|[(_ & _ & _ & ev & -> & _)|(_ & _ & _ & _ & b & _ & _ & ->)]]);
      eexists; try reflexivity. rewrite app_nil_r. reflexivity.
  - destruct (retry_cases c retryCount o st) as (_ & _ & [[_ ->]|[(_ & _ & _ & ev & -> & _)|(_ & _ & _ & _ & b & _ & _ & ->)]]);
      eexists; try reflexivity. rewrite app_nil_r. reflexivity.
  - rewrite scanner_schedule_eq. eexists. reflexivity.
  - unfold scannerClick.
    destruct (_ && _); [destruct (clickThrows o)|]; cbn [emit log];
      eexists; try reflexivity. rewrite app_nil_r. reflexivity.
  - exists []. rewrite app_nil_r. reflexivity.
Qed.

Lemma drive_log_grows (env : list Obs) :
  forall s : State, exists ev, log (drive env s) = log s ++ ev.
Proof.
  induction env as [|o env IH]; intros s; cbn [drive].
  - exists []. rewrite app_nil_r. reflexivity.
  - destruct (IH (fireNext o s)) as (ev2 & ->).
    assert (Hone : exists e1, log (fireNext o s) = log s ++ e1).
    { unfold fireNext. destruct (timers s) as [|[d cb] rest];
        [exists []; rewrite app_nil_r; reflexivity|].
      exact (fire_log_grows cb o (setTimers rest s)). }
    destruct Hone as (e1 & ->). exists (e1 ++ ev2). rewrite app_assoc. reflexivity.
Qed.

Lemma since_self_app (st : State) (ev : list Event) (t : option Pref)
    (tr : ExecutionTracker) (ts : list (Q * Callback)) :
  since st (mkState t tr ts (log st ++ ev)) = ev.
Proof. apply since_app. reflexivity. Qed.

Lemma fire_scanner_disabled (cb : Callback) (o : Obs) (st : State) :
  isScannerCallback cb = true ->
  autoExecuteIsTrue (toggleState st) = false ->
  exists ts,
    fire cb o st
    = mkState (toggleState st) (tracker st) (timers st ++ ts)
              (log st ++ map (fun x => EvSetTimeout x.2 x.1) ts)
    /\ forallb (fun x => isScannerCallback x.2) ts = true.
Proof.
  intros Hcb Hoff. destruct cb; try discriminate Hcb; cbn [fire].
  - rewrite scanner_schedule_eq, Hoff. eexists. split; [reflexivity|]. reflexivity.
  - unfold scannerClick. rewrite Hoff. cbn [andb]. exists [].
    rewrite !app_nil_r. destruct st; split; reflexivity.
Qed.

Lemma timeouts_hold_no_click (ts : list (Q * Callback)) :
  countClicks (map (fun x => EvSetTimeout x.2 x.1) ts) = 0
  /\ existsb isClickThrew (map (fun x => EvSetTimeout x.2 x.1) ts) = false.
Proof.
  induction ts as [|x ts [IH1 IH2]]; [split; reflexivity|].
  split; [exact IH1 | exact IH2].
Qed.

Lemma existsb_app_false {A} (f : A -> bool) (l k : list A) :
  existsb f l = false -> existsb f k = false -> existsb f (l ++ k) = false.
Proof. intros H1 H2. rewrite existsb_app, H1, H2. reflexivity. Qed.

(** While auto-execute is not on, the scanner path activates nothing:
    whatever the pending runs of the scanner and the clicks it scheduled
    earlier observe, they dispatch no activation; the scanner only keeps
    rescheduling itself.  The clicks it scheduled while auto-execute was on
    ask again when they fire. *)
Theorem scanner_inert_while_disabled (env : list Obs) (st : State) :
  autoExecuteIsTrue (toggleState st) = false ->
  forallb (fun x => isScannerCallback x.2) (timers st) = true ->
  let st' := drive env st in
  countClicks (since st st') = 0
  /\ existsb isClickThrew (since st st') = false
  /\ toggleState st' = toggleState st
  /\ tracker st' = tracker st
  /\ forallb (fun x => isScannerCallback x.2) (timers st') = true.
Proof.
  revert st. induction env as [|o env IH]; intros st Hoff Hts; cbn [drive].
  - unfold since. rewrite drop_all. repeat split. exact Hts.
  - assert (Hstep : exists ev,
              log (fireNext o st) = log st ++ ev
              /\ countClicks ev = 0 /\ existsb isClickThrew ev = false
              /\ toggleState (fireNext o st) = toggleState st
              /\ tracker (fireNext o st) = tracker st
              /\ forallb (fun x => isScannerCallback x.2) (timers (fireNext o st)) = true).
    { unfold fireNext. destruct (timers st) as [|[d cb] rest] eqn:E.
      - exists []. rewrite app_nil_r, E. repeat split.
      - cbn [forallb snd] in Hts. apply andb_true_iff in Hts as [Hcb Hrest].
        destruct (fire_scanner_disabled cb o (setTimers rest st) Hcb Hoff)
          as (ts & -> & Hsc).
        exists (map (fun x => EvSetTimeout x.2 x.1) ts).
        destruct (timeouts_hold_no_click ts) as [K1 K2].
        cbn [log timers toggleState tracker setTimers].
        repeat split; try assumption.
        rewrite forallb_app, Hrest, Hsc. reflexivity. }
    destruct Hstep as (ev & Hl & K1 & K2 & Htg & Htr & Hts').
    destruct (IH (fireNext o st)) as (J1 & J2 & J3 & J4 & J5);
      [rewrite Htg; exact Hoff | exact Hts' |].
    destruct (drive_log_grows env (fireNext o st)) as (ev2 & Hl2).
    assert (Hs : since st (drive env (fireNext o st))
                 = ev ++ since (fireNext o st) (drive env (fireNext o st))).
    { rewrite (since_app (fireNext o st) _ ev2 Hl2).
      apply since_app. rewrite Hl2, Hl, app_assoc. reflexivity. }
    rewrite Hs, countClicks_app, K1, J1.
    split; [reflexivity|]. split; [apply existsb_app_false; assumption|].
    split; [congruence|]. split; [congruence|]. exact J5.
Qed.

Lemma scanner_inert_witness :
  let st := setToggle (Some (PrefBool false)) (autoExecuteButtonScanner obsEnabled stOn) in
  autoExecuteIsTrue (toggleState st) = false
  /\ timers st = [((300 * inject_Z (Z.of_nat 1))%Q, CbScannerClick 0); (3000%Q, CbScanner)]
  /\ countClicks (since st (drive [obsEnabled; obsEnabled; obsEnabled] st)) = 0.
Proof.
  cbv zeta.
  assert (H1 : autoExecuteIsTrue
                 (toggleState (setToggle (Some (PrefBool false))
                                 (autoExecuteButtonScanner obsEnabled stOn))) = false)
    by reflexivity.
  assert (H2 : forallb (fun x => isScannerCallback x.2)
                 (timers (setToggle (Some (PrefBool false))
                            (autoExecuteButtonScanner obsEnabled stOn))) = true)
    by reflexivity.
  split; [exact H1|]. split; [reflexivity|].
  exact (proj1 (scanner_inert_while_disabled [obsEnabled; obsEnabled; obsEnabled] _ H1 H2)).
Defined.

(** No timer callback of this file writes the ledger or the preference: a
    retry pass or a scanner click that activates the control records
    nothing.  The scanner and its clicks do not read the ledger or storage
    either: they do the same whatever these hold. *)
Theorem callbacks_leave_ledger_alone (cb : Callback) (o : Obs) (st : State) :
  tracker (fire cb o st) = tracker st
  /\ toggleState (fire cb o st) = toggleState st
  /\ (isScannerCallback cb = true ->
      forall (t : ExecutionTracker) (s : Storage),
        fire cb (setStorage s o) (setTracker t st) = setTracker t (fire cb o st)).
Proof.
  destruct cb; cbn [fire isScannerCallback]; unfold setupAutoExecution.
  - destruct (retry_cases c 0 o st) as (H1 & H2 & _).
    split; [exact H1|]. split; [exact H2 | discriminate].
  - destruct (retry_cases c retryCount o st) as (H1 & H2 & _).
    split; [exact H1|]. split; [exact H2 | discriminate].
  - rewrite scanner_schedule_eq. split; [reflexivity|]. split; [reflexivity|].
    intros _ t s. rewrite scanner_schedule_eq. reflexivity.
  - unfold scannerClick. cbn [setStorage setTracker buttonState clickThrows toggleState].
    destruct (_ && _); [destruct (clickThrows o)|];
      (split; [reflexivity|]); (split; [reflexivity|]); intros _ t s; reflexivity.
  - split; [reflexivity|]. split; [reflexivity|]. discriminate.
Qed.

End SchedulerFacts.

(** * Further properties of the rendering *)

Module ElementFacts.
Import Ledger Sched Params Render Shown Examples ParamsFacts RenderFacts.
Local Open Scope nat_scope.

(** *** Reading and writing parameter elements *)

Lemma str_eqb_neq (a b : jsstring) : a <> b -> str_eqb a b = false.
Proof.
  intros H. destruct (str_eqb a b) eqn:E; [|reflexivity].
  apply str_eqb_spec in E. contradiction.
Qed.

Lemma getValue_id (id : jsstring) (l : list ParamChild) (e : ParamValueEl) :
  getValue id l = Some e -> pvId e = id.
Proof.
  induction l as [|[n|v] l IH]; simpl; [discriminate|exact IH|].
  destruct (str_eqb (pvId v) id) eqn:E; [|exact IH].
  intros [= <-]. apply str_eqb_spec. exact E.
Qed.

Lemma getName_id (id : jsstring) (l : list ParamChild) (e : ParamNameEl) :
  getName id l = Some e -> pnId e = id.
Proof.
  induction l as [|[n|v] l IH]; simpl; [discriminate| |exact IH].
  destruct (str_eqb (pnId n) id) eqn:E; [|exact IH].
  intros [= <-]. apply str_eqb_spec. exact E.
Qed.

Lemma getValue_app (id : jsstring) (l k : list ParamChild) :
  getValue id (l ++ k)
  = match getValue id l with Some e => Some e | None => getValue id k end.
Proof.
  induction l as [|[n|v] l IH]; simpl; [reflexivity|exact IH|].
  destruct (str_eqb (pvId v) id); [reflexivity | exact IH].
Qed.

Lemma getName_app (id : jsstring) (l k : list ParamChild) :
  getName id (l ++ k)
  = match getName id l with Some e => Some e | None => getName id k end.
Proof.
  induction l as [|[n|v] l IH]; simpl; [reflexivity| |exact IH].
  destruct (str_eqb (pnId n) id); [reflexivity | exact IH].
Qed.

Lemma getValue_setValue (id id' : jsstring) bd st v (l : list ParamChild) :
  getValue id' (setValue id bd st v l)
  = if str_eqb id id'
    then option_map (fun e => mkPValue (pvId e) (pvName e) bd st v) (getValue id l)
    else getValue id' l.
Proof.
  destruct (str_eqb id id') eqn:E.
  - apply str_eqb_spec in E. subst id'.
    induction l as [|[n|e] l IH]; simpl; [reflexivity|exact IH|].
    destruct (str_eqb (pvId e) id) eqn:F; simpl; rewrite F; [reflexivity | exact IH].
  - induction l as [|[n|e] l IH]; simpl; [reflexivity|exact IH|].
    destruct (str_eqb (pvId e) id) eqn:F; simpl.
    + apply str_eqb_spec in F. rewrite F, E. reflexivity.
    + destruct (str_eqb (pvId e) id'); [reflexivity | exact IH].
Qed.

Lemma getName_setValue (id id' : jsstring) bd st v (l : list ParamChild) :
  getName id' (setValue id bd st v l) = getName id' l.
Proof.
  induction l as [|[n|e] l IH]; simpl; [reflexivity| |].
  - destruct (str_eqb (pnId n) id'); [reflexivity | exact IH].
  - destruct (str_eqb (pvId e) id); simpl; [reflexivity | exact IH].
Qed.

Lemma getName_setNameStreaming (id id' : jsstring) (b : bool) (l : list ParamChild) :
  getName id' (setNameStreaming id b l)
  = if str_eqb id id'
    then option_map (fun e => mkPName (pnId e) (pnText e) b) (getName id l)
    else getName id' l.
Proof.
  destruct (str_eqb id id') eqn:E.
  - apply str_eqb_spec in E. subst id'.
    induction l as [|[n|e] l IH]; simpl; [reflexivity| |exact IH].
    destruct (str_eqb (pnId n) id) eqn:F; simpl; rewrite F; [reflexivity | exact IH].
  - induction l as [|[n|e] l IH]; simpl; [reflexivity| |exact IH].
    destruct (str_eqb (pnId n) id) eqn:F; simpl.
    + apply str_eqb_spec in F. rewrite F, E. reflexivity.
    + destruct (str_eqb (pnId n) id'); [reflexivity | exact IH].
Qed.

Lemma getValue_setNameStreaming (id id' : jsstring) (b : bool) (l : list ParamChild) :
  getValue id' (setNameStreaming id b l) = getValue id' l.
Proof.
  induction l as [|[n|e] l IH]; simpl; [reflexivity| |].
  - destruct (str_eqb (pnId n) id); simpl; [reflexivity | exact IH].
  - destruct (str_eqb (pvId e) id'); [reflexivity | exact IH].
Qed.

Lemma hasValue_getValue (id : jsstring) (l : list ParamChild) :
  hasValue id l = match getValue id l with Some _ => true | None => false end.
Proof.
  destruct (getValue id l) eqn:E.
  - destruct (hasValue id l) eqn:F; [reflexivity|].
    apply getValue_hasValue in F. congruence.
  - apply getValue_hasValue. exact E.
Qed.

Lemma hasName_getName (id : jsstring) (l : list ParamChild) :
  hasName id l = match getName id l with Some _ => true | None => false end.
Proof.
  destruct (getName id l) eqn:E.
  - destruct (hasName id l) eqn:F; [reflexivity|].
    apply getName_hasName in F. congruence.
  - apply getName_hasName. exact E.
Qed.

Lemma storeValue_writeValue (id id' : jsstring) bd st v (s : ParamStore) :
  storeValue id' (writeValue id bd st v s)
  = if str_eqb id id'
    then option_map (fun e => mkPValue (pvId e) (pvName e) bd st v) (storeValue id s)
    else storeValue id' s.
Proof.
  unfold writeValue, storeValue. rewrite hasValue_getValue.
  destruct (getValue id (container s)) as [e|] eqn:E; cbn [container outside].
  - rewrite getValue_setValue, E. destruct (str_eqb id id'); reflexivity.
  - rewrite getValue_setValue. destruct (str_eqb id id') eqn:F.
    + apply str_eqb_spec in F. subst id'. rewrite E.
      destruct (getValue id (outside s)); reflexivity.
    + reflexivity.
Qed.

Lemma storeName_writeValue (id id' : jsstring) bd st v (s : ParamStore) :
  storeName id' (writeValue id bd st v s) = storeName id' s.
Proof.
  unfold writeValue, storeName.
  destruct (hasValue id (container s)); cbn [container outside];
    rewrite ?getName_setValue; reflexivity.
Qed.

Lemma storeName_writeNameStreaming (id id' : jsstring) (b : bool) (s : ParamStore) :
  storeName id' (writeNameStreaming id b s)
  = if str_eqb id id'
    then option_map (fun e => mkPName (pnId e) (pnText e) b) (storeName id s)
    else storeName id' s.
Proof.
  unfold writeNameStreaming, storeName. rewrite hasName_getName.
  destruct (getName id (container s)) as [e|] eqn:E; cbn [container outside].
  - rewrite getName_setNameStreaming, E. destruct (str_eqb id id'); reflexivity.
  - rewrite getName_setNameStreaming. destruct (str_eqb id id') eqn:F.
    + apply str_eqb_spec in F. subst id'. rewrite E.
      destruct (getName id (outside s)); reflexivity.
    + reflexivity.
Qed.

Lemma storeValue_writeNameStreaming (id id' : jsstring) (b : bool) (s : ParamStore) :
  storeValue id' (writeNameStreaming id b s) = storeValue id' s.
Proof.
  unfold writeNameStreaming, storeValue.
  destruct (hasName id (container s)); cbn [container outside];
    rewrite ?getValue_setNameStreaming; reflexivity.
Qed.

Lemma opt_eta {A} (x : option A) :
  match x with Some e => Some e | None => None end = x.
Proof. destruct x; reflexivity. Qed.

(** What one call of [createOrUpdateParamElement] leaves in the document:
    the name and value element of the parameter, found or created, with
    the new content; every other parameter element as it was. *)
Lemma createOrUpdate_stores (name value bid : jsstring) (str : bool) (s : ParamStore) :
  let id := paramIdOf bid name in
  let s' := createOrUpdateParamElement name value bid str s in
  exists en ev,
    (storeName id s = Some en
     \/ storeName id s = None /\ en = mkPName id name false)
    /\ (storeValue id s = Some ev
        \/ storeValue id s = None /\ ev = mkPValue id name (BodyText []) false None)
    /\ storeName id s' = Some (mkPName (pnId en) (pnText en) str)
    /\ storeValue id s'
       = Some (mkPValue (pvId ev) (pvName ev)
                 (if str || pvStreaming ev then BodyPre value else BodyText value)
                 (if str then true else if pnStreaming en then false else pvStreaming ev)
                 (Some value))
    /\ (forall id', id' <> id ->
          storeName id' s' = storeName id' s /\ storeValue id' s' = storeValue id' s).
Proof.
  cbv zeta. unfold createOrUpdateParamElement.
  set (id := paramIdOf bid name).
  (* the name element *)
  set (s1 := match storeName id s with Some _ => s | None => _ end).
  assert (H1 : exists en,
             (storeName id s = Some en
              \/ storeName id s = None /\ en = mkPName id name false)
             /\ storeName id s1 = Some en
             /\ (forall id', storeValue id' s1 = storeValue id' s)
             /\ (forall id', id' <> id -> storeName id' s1 = storeName id' s)).
  { unfold s1. destruct (storeName id s) as [en|] eqn:E.
    - exists en. split; [left; reflexivity|]. split; [exact E|]. split; reflexivity.
    - exists (mkPName id name false). split; [right; split; reflexivity|].
      unfold storeName in E |- *. unfold storeValue. cbn [container outside].
      destruct (getName id (container s)) eqn:Ec; [discriminate|].
      split.
      { rewrite getName_app, Ec. cbn. rewrite str_eqb_refl. reflexivity. }
      split.
      { intros id'. rewrite getValue_app. cbn. rewrite opt_eta. reflexivity. }
      intros id' Hne. rewrite getName_app. cbn.
      rewrite (str_eqb_neq id id') by congruence. rewrite opt_eta. reflexivity. }
  clearbody s1. destruct H1 as (en & Hen & N1 & V1 & O1).
  (* the value element *)
  set (s2 := match storeValue id s1 with Some _ => s1 | None => _ end).
  assert (H2 : exists ev,
             (storeValue id s = Some ev
              \/ storeValue id s = None
                 /\ ev = mkPValue id name (BodyText []) false None)
             /\ storeValue id s2 = Some ev
             /\ (forall id', storeName id' s2 = storeName id' s1)
             /\ (forall id', id' <> id -> storeValue id' s2 = storeValue id' s)).
  { unfold s2. destruct (storeValue id s1) as [ev|] eqn:E.
    - exists ev. split; [left; rewrite <- V1; exact E|]. split; [exact E|].
      split; [reflexivity|]. intros id' _. apply V1.
    - exists (mkPValue id name (BodyText []) false None).
      split; [right; split; [rewrite <- V1; exact E | reflexivity]|].
      unfold storeValue in E |- *. unfold storeName. cbn [container outside].
      destruct (getValue id (container s1)) eqn:Ec; [discriminate|].
      split.
      { rewrite getValue_app, Ec. cbn. rewrite str_eqb_refl. reflexivity. }
      split.
      { intros id'. rewrite getName_app. cbn. rewrite opt_eta. reflexivity. }
      intros id' Hne. rewrite getValue_app. cbn.
      rewrite (str_eqb_neq id id') by congruence. rewrite opt_eta.
      apply (V1 id'). }
  clearbody s2. destruct H2 as (ev & Hev & V2 & N2 & O2).
  exists en, ev. split; [exact Hen|]. split; [exact Hev|].
  rewrite V2.
  set (s3 := if (str || pvStreaming ev) && _ then _ else s2).
  assert (H3 : (forall id', storeName id' s3 = storeName id' s2)
               /\ (forall id', storeValue id' s3 = storeValue id' s2)).
  { unfold s3. destruct ((str || pvStreaming ev) && _); split; reflexivity. }
  clearbody s3. destruct H3 as (N3 & V3).
  rewrite N3, N2, N1.
  destruct str; cbn [orb].
  - rewrite storeName_writeValue, storeName_writeNameStreaming, str_eqb_refl, N3, N2, N1.
    rewrite storeValue_writeValue, str_eqb_refl, storeValue_writeNameStreaming, V3, V2.
    split; [reflexivity|]. split; [reflexivity|].
    intros id' Hne.
    rewrite storeName_writeValue, storeName_writeNameStreaming, storeValue_writeValue,
      (str_eqb_neq id id'), storeValue_writeNameStreaming by congruence.
    rewrite N3, N2, V3. split; [apply O1 | apply O2]; exact Hne.
  - destruct (pnStreaming en) eqn:Es.
    + rewrite storeName_writeValue, storeName_writeNameStreaming, str_eqb_refl, N3, N2, N1.
      rewrite storeValue_writeValue, str_eqb_refl, storeValue_writeNameStreaming, V3, V2.
      split; [reflexivity|]. split; [reflexivity|].
      intros id' Hne.
      rewrite storeName_writeValue, storeName_writeNameStreaming, storeValue_writeValue,
        (str_eqb_neq id id'), storeValue_writeNameStreaming by congruence.
      rewrite N3, N2, V3. split; [apply O1 | apply O2]; exact Hne.
    + rewrite storeName_writeValue, N3, N2, N1.
      rewrite storeValue_writeValue, str_eqb_refl, V3, V2.
      split; [destruct en; cbn in *; rewrite Es; reflexivity|]. split; [reflexivity|].
      intros id' Hne.
      rewrite storeName_writeValue, storeValue_writeValue,
        (str_eqb_neq id id') by congruence.
      rewrite N3, N2, V3. split; [apply O1 | apply O2]; exact Hne.
Qed.

Lemma storeValue_id (id : jsstring) (s : ParamStore) (e : ParamValueEl) :
  storeValue id s = Some e -> pvId e = id.
Proof.
  unfold storeValue. destruct (getValue id (container s)) eqn:E.
  - intros [= <-]. exact (getValue_id _ _ _ E).
  - apply getValue_id.
Qed.

Lemma storeName_id (id : jsstring) (s : ParamStore) (e : ParamNameEl) :
  storeName id s = Some e -> pnId e = id.
Proof.
  unfold storeName. destruct (getName id (container s)) eqn:E.
  - intros [= <-]. exact (getName_id _ _ _ E).
  - apply getName_id.
Qed.

(** For a parameter identifier that the selectors read literally: after
    [createOrUpdateParamElement] the value element of the parameter shows
    the value given, as its text and as its [data-param-value]; the name
    element carries the streaming class exactly when the call was made for
    a streaming parameter; the elements of every other parameter are what
    they were. *)
Theorem createOrUpdate_shows_value (name value bid : jsstring) (str : bool)
    (s : ParamStore) :
  selectorSafe (paramIdOf bid name) = true ->
  let id := paramIdOf bid name in
  let s' := createOrUpdateParamElement name value bid str s in
  (exists ev, storeValue id s' = Some ev /\ pvId ev = id
              /\ bodyText (pvBody ev) = value /\ pvValue ev = Some value)
  /\ (exists en, storeName id s' = Some en /\ pnId en = id /\ pnStreaming en = str)
  /\ (forall id', id' <> id ->
        storeName id' s' = storeName id' s /\ storeValue id' s' = storeValue id' s).
Proof.
  intros _. cbv zeta.
  destruct (createOrUpdate_stores name value bid str s)
    as (en & ev & Hen & Hev & N & V & O).
  split; [|split; [|exact O]].
  - eexists. split; [exact V|]. cbn [pvId pvBody pvValue].
    split; [exact (storeValue_id _ _ _ V)|].
    split; [destruct (str || pvStreaming ev); reflexivity | reflexivity].
  - eexists. split; [exact N|]. cbn [pnId pnStreaming].
    split; [exact (storeName_id _ _ _ N) | reflexivity].
Qed.

Lemma createOrUpdate_shows_witness :
  selectorSafe (paramIdOf block1 (js "q")) = true
  /\ exists ev,
       storeValue (paramIdOf block1 (js "q"))
         (createOrUpdateParamElement (js "q") (js "hel") block1 true
            (mkStore [] [] [])) = Some ev
       /\ pvValue ev = Some (js "hel").
Proof.
  assert (H : selectorSafe (paramIdOf block1 (js "q")) = true) by reflexivity.
  split; [exact H|].
  destruct (proj1 (createOrUpdate_shows_value (js "q") (js "hel") block1 true
                     (mkStore [] [] []) H)) as (ev & V & _ & _ & P).
  exists ev. split; [exact V | exact P].
Defined.

(** For a parameter identifier that the selectors read literally, the two
    streaming markers of the parameter stay together: if the class of the
    name element and the attribute of the value element agree before the
    call (an element that does not exist yet counts as unmarked), then
    when the call returns both are set exactly when the call was made for
    a streaming parameter, and the value is held by a [pre] child exactly
    when the parameter is, or was, streaming. *)
Theorem streaming_markers_agree (name value bid : jsstring) (str : bool)
    (s : ParamStore) :
  selectorSafe (paramIdOf bid name) = true ->
  let id := paramIdOf bid name in
  let s' := createOrUpdateParamElement name value bid str s in
  nameMarker id s = valueMarker id s ->
  nameMarker id s' = str /\ valueMarker id s' = str
  /\ exists ev, storeValue id s' = Some ev
       /\ pvBody ev = if str || valueMarker id s then BodyPre value else BodyText value.
Proof.
  intros _. cbv zeta. intros Hm.
  destruct (createOrUpdate_stores name value bid str s)
    as (en & ev & Hen & Hev & N & V & _).
  assert (Mn : nameMarker (paramIdOf bid name) s = pnStreaming en).
  { unfold nameMarker. destruct Hen as [->|[-> ->]]; reflexivity. }
  assert (Mv : valueMarker (paramIdOf bid name) s = pvStreaming ev).
  { unfold valueMarker. destruct Hev as [->|[-> ->]]; reflexivity. }
  unfold nameMarker at 1, valueMarker at 1. rewrite N, V. cbn [pnStreaming pvStreaming].
  split; [reflexivity|]. split.
  - rewrite <- Mn, Hm, Mv. destruct str, (pvStreaming ev); reflexivity.
  - eexists. split; [reflexivity|]. cbn [pvBody]. rewrite Mv. reflexivity.
Qed.

Lemma streaming_markers_witness :
  let s := createOrUpdateParamElement (js "q") (js "hel") block1 true (mkStore [] [] []) in
  selectorSafe (paramIdOf block1 (js "q")) = true
  /\ nameMarker (paramIdOf block1 (js "q")) s = valueMarker (paramIdOf block1 (js "q")) s
  /\ valueMarker (paramIdOf block1 (js "q"))
       (createOrUpdateParamElement (js "q") (js "hel lo") block1 false s) = false.
Proof.
  cbv zeta.
  assert (H : nameMarker (paramIdOf block1 (js "q"))
                (createOrUpdateParamElement (js "q") (js "hel") block1 true (mkStore [] [] []))
              = valueMarker (paramIdOf block1 (js "q"))
                  (createOrUpdateParamElement (js "q") (js "hel") block1 true
                     (mkStore [] [] []))) by (vm_compute; reflexivity).
  assert (Hs : selectorSafe (paramIdOf block1 (js "q")) = true) by reflexivity.
  split; [exact Hs|]. split; [exact H|].
  exact (proj1 (proj2 (streaming_markers_agree (js "q") (js "hel lo") block1 false _ Hs H))).
Defined.

(** *** The loop over the parameters *)

Lemma paramIdOf_inj (bid n n' : jsstring) :
  paramIdOf bid n = paramIdOf bid n' -> n = n'.
Proof.
  unfold paramIdOf. intros H. apply app_inv_head in H. congruence.
Qed.

Lemma renderParams_others (bid : jsstring) (ps : list ParamEntry) :
  forall (s : ParamStore) (id : jsstring),
  (forall e, In e ps -> paramIdOf bid (paramName e) <> id) ->
  storeName id (renderParams bid ps s) = storeName id s
  /\ storeValue id (renderParams bid ps s) = storeValue id s.
Proof.
  induction ps as [|e ps IH]; intros s id H; [split; reflexivity|].
  unfold renderParams in *. cbn [fold_left].
  destruct (IH (createOrUpdateParamElement (paramName e) (extractedValue e) bid
                  (isParamStreaming e) s) id) as [I1 I2].
  { intros e' He'. apply H. right. exact He'. }
  rewrite I1, I2.
  destruct (createOrUpdate_stores (paramName e) (extractedValue e) bid (isParamStreaming e) s)
    as (_ & _ & _ & _ & _ & _ & O).
  apply O. intros E. apply (H e (or_introl eq_refl)). symmetry. exact E.
Qed.

(** For a block identifier and parameter names that the selectors read
    literally: the loop over the parameters ends without an exception, and
    when the text holds several parameters of the same name, the one
    element of that name shows the value of the last of them, with the
    streaming mark of the last. *)
Theorem last_parameter_of_a_name_wins (bid : jsstring)
    (pre post : list ParamEntry) (e : ParamEntry) (s : ParamStore) :
  selectorSafe bid = true ->
  forallb (fun e' => selectorSafe (paramName e')) (pre ++ e :: post) = true ->
  forallb (fun e' => negb (str_eqb (paramName e') (paramName e))) post = true ->
  let s' := renderParams bid (pre ++ e :: post) s in
  paramPass bid (pre ++ e :: post) s = Returned s'
  /\ exists ev en,
    storeValue (paramIdOf bid (paramName e)) s' = Some ev
    /\ bodyText (pvBody ev) = extractedValue e
    /\ pvValue ev = Some (extractedValue e)
    /\ storeName (paramIdOf bid (paramName e)) s' = Some en
    /\ pnStreaming en = isParamStreaming e.
Proof.
  intros Hbid Hsafe Hpost. cbv zeta.
  split; [apply paramPass_safe; assumption|].
  assert (E : renderParams bid (pre ++ e :: post) s
              = renderParams bid post
                  (createOrUpdateParamElement (paramName e) (extractedValue e) bid
                     (isParamStreaming e) (renderParams bid pre s))).
  { unfold renderParams. rewrite fold_left_app. reflexivity. }
  rewrite E.
  destruct (renderParams_others bid post
              (createOrUpdateParamElement (paramName e) (extractedValue e) bid
                 (isParamStreaming e) (renderParams bid pre s))
              (paramIdOf bid (paramName e))) as [I1 I2].
  { intros e' He' Heq. apply paramIdOf_inj in Heq.
    rewrite forallb_forall in Hpost. specialize (Hpost e' He').
    rewrite Heq, str_eqb_refl in Hpost. discriminate. }
  rewrite I1, I2.
  destruct (createOrUpdate_stores (paramName e) (extractedValue e) bid (isParamStreaming e)
              (renderParams bid pre s)) as (en & ev & _ & _ & N & V & _).
  eexists. eexists. split; [exact V|]. cbn [pvBody pvValue].
  split; [destruct (_ || _); reflexivity|]. split; [reflexivity|].
  split; [exact N | reflexivity].
Qed.

Lemma last_parameter_witness :
  let first := mkParam 0 (js "q") 20 (js "one") false in
  let second := mkParam 40 (js "q") 60 (js "two") false in
  selectorSafe block1 = true
  /\ forallb (fun e' => selectorSafe (paramName e')) [first; second] = true
  /\ forallb (fun e' => negb (str_eqb (paramName e') (paramName second))) [] = true
  /\ exists ev,
       storeValue (paramIdOf block1 (js "q"))
         (renderParams block1 [first; second] (mkStore [] [] [])) = Some ev
       /\ pvValue ev = Some (js "two").
Proof.
  cbv zeta.
  assert (H : forallb (fun e' => negb (str_eqb (paramName e')
                         (paramName (mkParam 40 (js "q") 60 (js "two") false)))) [] = true)
    by reflexivity.
  assert (Hb : selectorSafe block1 = true) by reflexivity.
  assert (Hs : forallb (fun e' => selectorSafe (paramName e'))
                 ([mkParam 0 (js "q") 20 (js "one") false]
                  ++ [mkParam 40 (js "q") 60 (js "two") false]) = true) by reflexivity.
  split; [exact Hb|]. split; [exact Hs|]. split; [exact H|].
  destruct (last_parameter_of_a_name_wins block1 [mkParam 0 (js "q") 20 (js "one") false] []
              (mkParam 40 (js "q") 60 (js "two") false) (mkStore [] [] []) Hb Hs H)
    as (_ & ev & en & V & _ & P & _).
  exists ev. split; [exact V | exact P].
Defined.

(** *** Elements found elsewhere in the document *)

(** For a parameter identifier that the selectors read literally, the
    lookup by [data-param-id] falls back to the whole document: when the
    container holds no element of the parameter and the document holds
    both elsewhere, nothing is created and nothing is added to the
    container; the value is written into the element found elsewhere. *)
Theorem elements_elsewhere_are_reused (name value bid : jsstring) (str : bool)
    (s : ParamStore) (en : ParamNameEl) (ev : ParamValueEl) :
  selectorSafe (paramIdOf bid name) = true ->
  let id := paramIdOf bid name in
  let s' := createOrUpdateParamElement name value bid str s in
  hasName id (container s) = false ->
  hasValue id (container s) = false ->
  getName id (outside s) = Some en ->
  getValue id (outside s) = Some ev ->
  container s' = container s
  /\ (exists x, madeNodes s' = madeNodes s ++ x
                /\ forallb (fun k => negb (structural k)) x = true)
  /\ exists ev', getValue id (outside s') = Some ev'
       /\ bodyText (pvBody ev') = value /\ pvValue ev' = Some value
       /\ pvName ev' = pvName ev.
Proof.
  intros _. cbv zeta. intros Hn Hv En Ev.
  set (id := paramIdOf bid name) in *.
  assert (Sn : storeName id s = Some en).
  { unfold storeName. apply getName_hasName in Hn. rewrite Hn. exact En. }
  assert (Sv : storeValue id s = Some ev).
  { unfold storeValue. apply getValue_hasValue in Hv. rewrite Hv. exact Ev. }
  unfold createOrUpdateParamElement. fold id. rewrite Sn. cbv beta iota.
  rewrite Sv. cbv beta iota. rewrite Sv. cbv beta iota.
  set (s3 := if (str || pvStreaming ev) && _ then mkStore _ _ _ else s).
  assert (H3 : container s3 = container s /\ outside s3 = outside s
               /\ exists x, madeNodes s3 = madeNodes s ++ x
                    /\ forallb (fun k => negb (structural k)) x = true).
  { unfold s3. destruct ((str || pvStreaming ev) && _); cbn.
    - repeat split. exists [KPre]. split; reflexivity.
    - repeat split. exists []. rewrite app_nil_r. split; reflexivity. }
  assert (Sn3 : storeName id s3 = Some en).
  { unfold storeName. destruct H3 as (-> & -> & _). exact Sn. }
  rewrite Sn3. clearbody s3. destruct H3 as (C3 & O3 & M3).
  assert (W : forall bd st t,
            container t = container s -> outside t = outside s ->
            madeNodes t = madeNodes s3 ->
            container (writeValue id bd st (Some value) t) = container s
            /\ (exists x, madeNodes (writeValue id bd st (Some value) t) = madeNodes s ++ x
                          /\ forallb (fun k => negb (structural k)) x = true)
            /\ exists ev', getValue id (outside (writeValue id bd st (Some value) t)) = Some ev'
                 /\ bodyText (pvBody ev') = bodyText bd /\ pvValue ev' = Some value
                 /\ pvName ev' = pvName ev).
  { intros bd st t Ct Ot Mt. unfold writeValue. rewrite Ct, Hv. cbn.
    split; [reflexivity|]. split; [rewrite Mt; exact M3|].
    rewrite getValue_setValue, str_eqb_refl, Ot, Ev. cbn.
    eexists. split; [reflexivity|]. cbn. repeat split. }
  assert (Wn : forall b,
            container (writeNameStreaming id b s3) = container s
            /\ outside (writeNameStreaming id b s3)
               = setNameStreaming id b (outside s)
            /\ madeNodes (writeNameStreaming id b s3) = madeNodes s3).
  { intros b. unfold writeNameStreaming. rewrite C3, Hn. cbn. rewrite O3. repeat split. }
  assert (Wv : forall bd st b,
            container (writeValue id bd st (Some value) (writeNameStreaming id b s3))
            = container s
            /\ (exists x, madeNodes (writeValue id bd st (Some value)
                                       (writeNameStreaming id b s3)) = madeNodes s ++ x
                          /\ forallb (fun k => negb (structural k)) x = true)
            /\ exists ev', getValue id (outside (writeValue id bd st (Some value)
                                                  (writeNameStreaming id b s3))) = Some ev'
                 /\ bodyText (pvBody ev') = bodyText bd /\ pvValue ev' = Some value
                 /\ pvName ev' = pvName ev).
  { intros bd st b. destruct (Wn b) as (Cn & On & Mn).
    unfold writeValue. rewrite Cn, Hv. cbn.
    split; [reflexivity|]. split; [rewrite Mn; exact M3|].
    rewrite getValue_setValue, str_eqb_refl, On, getValue_setNameStreaming, Ev. cbn.
    eexists. split; [reflexivity|]. cbn. repeat split. }
  assert (Hb : bodyText (if str || pvStreaming ev then BodyPre value else BodyText value)
               = value) by (destruct (str || pvStreaming ev); reflexivity).
  destruct str; cbn [orb] in *.
  - destruct (Wv (BodyPre value) true true) as (A & B & ev' & E1 & E2 & E3).
    split; [exact A|]. split; [exact B|]. exists ev'. auto.
  - destruct (pnStreaming en).
    + destruct (Wv (if pvStreaming ev then BodyPre value else BodyText value) false false)
        as (A & B & ev' & E1 & E2 & E3).
      split; [exact A|]. split; [exact B|]. exists ev'. rewrite Hb in E2. auto.
    + destruct (W (if pvStreaming ev then BodyPre value else BodyText value)
                  (pvStreaming ev) s3 C3 O3 eq_refl) as (A & B & ev' & E1 & E2 & E3).
      split; [exact A|]. split; [exact B|]. exists ev'. rewrite Hb in E2. auto.
Qed.

Lemma elements_elsewhere_witness :
  let kids := container (createOrUpdateParamElement (js "c") (js "one") (js "a-b") false
                           (mkStore [] [] [])) in
  let s := mkStore [] kids [] in
  selectorSafe (paramIdOf (js "a") (js "b-c")) = true
  /\ hasName (paramIdOf (js "a") (js "b-c")) (container s) = false
  /\ hasValue (paramIdOf (js "a") (js "b-c")) (container s) = false
  /\ container (createOrUpdateParamElement (js "b-c") (js "two") (js "a") false s) = [].
Proof.
  cbv zeta.
  set (s := mkStore [] (container (createOrUpdateParamElement (js "c") (js "one") (js "a-b")
                                     false (mkStore [] [] []))) []).
  assert (H1 : hasName (paramIdOf (js "a") (js "b-c")) (container s) = false) by reflexivity.
  assert (H2 : hasValue (paramIdOf (js "a") (js "b-c")) (container s) = false) by reflexivity.
  assert (H0 : selectorSafe (paramIdOf (js "a") (js "b-c")) = true) by reflexivity.
  split; [exact H0|]. split; [exact H1|]. split; [exact H2|].
  exact (proj1 (elements_elsewhere_are_reused (js "b-c") (js "two") (js "a") false s
                  (mkPName (js "a-b-c") (js "c") false)
                  (mkPValue (js "a-b-c") (js "c") (BodyText (js "one")) false (Some (js "one")))
                  H0 H1 H2 eq_refl eq_refl)).
Defined.

(** *** When a run schedules the execution *)

Lemma since_refl (st : State) : since st st = [].
Proof. unfold since. apply drop_all. Qed.

Lemma pauseObserver_page (w : World) :
  tracker (page (pauseObserver w)) = tracker (page w)
  /\ toggleState (page (pauseObserver w)) = toggleState (page w)
  /\ forallb isObserverTimeout (since (page w) (page (pauseObserver w))) = true.
Proof.
  unfold pauseObserver. destruct (domObserver w); cbn.
  - split; [reflexivity|]. split; [reflexivity|].
    unfold since. cbn. rewrite drop_app_length. reflexivity.
  - split; [reflexivity|]. split; [reflexivity|]. rewrite since_refl. reflexivity.
Qed.

Lemma renderControls_button (info : FunctionInfo) (c : Ctx) (o : Obs)
    (d : BlockDiv) (w : World) :
  let r := renderControls info c o d w in
  exists x, created r.2 = created w ++ x
    /\ (existsb isExecuteButtonKind x = true
        \/ page r.2 = page (pauseObserver w)).
Proof.
  cbv zeta. unfold renderControls.
  set (r1 := match functionButtons d with Some _ => (d, w) | None => _ end).
  assert (H1 : exists x1, created r1.2 = created w ++ x1 /\ page r1.2 = page w
                          /\ domObserver r1.2 = domObserver w).
  { unfold r1. destruct (functionButtons d).
    - exists []. rewrite app_nil_r. repeat split.
    - exists [KFunctionButtons; KSpacer]. cbn. rewrite <- app_assoc. repeat split. }
  destruct r1 as [d1 w1]. cbn [fst snd] in H1. destruct H1 as (x1 & C1 & P1 & D1).
  set (r2 := if isComplete info && negb (hasRawToggle d1) then _ else (d1, w1)).
  assert (H2 : exists x2, created r2.2 = created w1 ++ x2 /\ page r2.2 = page w1
                          /\ domObserver r2.2 = domObserver w1).
  { unfold r2. destruct (isComplete info && negb (hasRawToggle d1)).
    - exists [KRawToggle]. repeat split.
    - exists []. rewrite app_nil_r. repeat split. }
  destruct r2 as [d2 w2]. cbn [fst snd] in H2. destruct H2 as (x2 & C2 & P2 & D2).
  assert (Hp : page (pauseObserver w2) = page (pauseObserver w)).
  { unfold pauseObserver. rewrite D2, D1. destruct (domObserver w); cbn; rewrite P2, P1; reflexivity. }
  destruct (isComplete info && match firstExecuteButton d2 with None => true | _ => false end).
  - unfold addExecuteButton.
    destruct (autoExecuteSection c _ _) as [early p].
    exists (x1 ++ x2 ++ [KExecuteButton]). split.
    + destruct early; unfold commit, pauseObserver; cbn;
        [|destruct (domObserver w2); cbn]; rewrite C2, C1, <- !app_assoc; reflexivity.
    + left. rewrite !existsb_app. cbn. rewrite !orb_true_r. reflexivity.
  - exists (x1 ++ x2). split.
    + unfold commit. cbn. rewrite created_pauseObserver, C2, C1, <- app_assoc. reflexivity.
    + right. unfold commit. cbn [snd page setRegistry]. exact Hp.
Qed.

Lemma lookupExisting_page (bid : jsstring) (w : World) :
  page (lookupExisting bid w).2 = page w
  /\ domObserver (lookupExisting bid w).2 = domObserver w.
Proof.
  unfold lookupExisting.
  destruct (renderedFunctionBlocks w !! bid); [split; reflexivity|].
  destruct (processed w); [|split; reflexivity].
  destruct (documentDivs w !! bid); split; reflexivity.
Qed.

Section Scheduling.

Variable ParamMap : Type.
Variable containsFunctionCalls : jsstring -> FunctionInfo.
Variable extractLanguageTag : jsstring -> option jsstring * jsstring.
Variable extractFunctionParameters : jsstring -> option ParamMap.
Variable generateContentSignature : jsstring -> ParamMap -> jsstring.

Local Abbreviation render :=
  (renderFunctionCall ParamMap containsFunctionCalls extractLanguageTag
     extractFunctionParameters generateContentSignature).

(** What a run of the renderer does to the scheduler when it creates no
    execute button. *)
Lemma render_scheduler_events (gen : jsstring) (o : Obs) (w : World) :
  let r := render gen o w in
  existsb isExecuteButtonKind (createdSince w r.2) = true
  \/ (tracker (page r.2) = tracker (page w)
      /\ toggleState (page r.2) = toggleState (page w)
      /\ forallb isObserverTimeout (since (page w) (page r.2)) = true).
Proof.
  cbv zeta. unfold renderFunctionCall.
  destruct (negb (hasFunctionCalls (containsFunctionCalls (textContent (block w))))
            || insideFunctionBlock (block w)).
  { right. cbn [snd]. rewrite since_refl. repeat split. }
  set (bid := blockIdOf gen w).
  set (info := containsFunctionCalls (textContent (block w))).
  assert (Hbid : bid <> []) by apply blockIdOf_nonempty.
  destruct (lookupExisting_spec bid w) as (Lb & Lo & Lc & _).
  destruct (lookupExisting_page bid w) as (Lp & Ld).
  destruct (lookupExisting bid w) as [ex w0]. cbn [fst snd] in *.
  set (wa := if match ex with None => true | Some _ => false end && negb (processed w0)
             then _ else w0).
  assert (Ha : created wa = created w /\ page wa = page w /\ domObserver wa = domObserver w).
  { unfold wa. destruct (_ && _); cbn; auto. }
  clearbody wa. destruct Ha as (Ca & Pa & Da).
  destruct (extractLanguageTag (trim (textContent (block wa)))) as [tag content].
  set (cid := match invokeRegex content with
              | Some (_, Some ((_ :: _) as c)) => c | _ => bid end).
  set (fn := match invokeRegex content with Some (n, _) => n | None => _ end).
  assert (Hcid : cid <> []) by (apply callId_nonempty; exact Hbid).
  set (r0 := match ex with Some d => (d, wa) | None => _ end).
  assert (H0 : exists x0, created r0.2 = created w ++ x0
                          /\ existsb isExecuteButtonKind x0 = false
                          /\ page r0.2 = page w /\ domObserver r0.2 = domObserver w).
  { unfold r0. destruct ex.
    - exists []. rewrite app_nil_r. auto.
    - exists [KFunctionBlock]. cbn. rewrite Ca. auto. }
  destruct r0 as [d0 w0']. cbn [fst snd] in H0. destruct H0 as (x0 & C0 & K0 & P0 & D0).
  match goal with |- context [stateTransitions ?isNew ?prev info ?pre tag d0 w0'] =>
    destruct (pipeline_spec isNew prev info pre tag fn cid bid
                (trim (textContent (block wa))) d0 w0' Hcid)
      as (x & kids' & n' & F & _);
    destruct (stateTransitions isNew prev info pre tag d0 w0') as [d1 w1] end.
  cbn [fst snd] in *.
  destruct (renderName _ _ _ _ d1 w1) as [d2 w2]. cbn [fst snd] in *.
  destruct (renderParamsIn _ _ d2 w2) as [d3 w3]. cbn [fst snd] in *.
  destruct F as (_ & _ & _ & _ & _ & Fd & _ & Fp & Fc).
  assert (Hquiet : forall w', page w' = page w3 -> created w' = created w3 ->
            existsb isExecuteButtonKind (createdSince w w') = true
            \/ (tracker (page w') = tracker (page w)
                /\ toggleState (page w') = toggleState (page w)
                /\ forallb isObserverTimeout (since (page w) (page w')) = true)).
  { intros w' Hp _. right. rewrite Hp, Fp, P0, since_refl. repeat split. }
  assert (Hctl : forall c d' w', page w' = page w3 -> created w' = created w3 ->
            domObserver w' = domObserver w3 ->
            existsb isExecuteButtonKind
              (createdSince w (renderControls info c o d' w').2) = true
            \/ (tracker (page (renderControls info c o d' w').2) = tracker (page w)
                /\ toggleState (page (renderControls info c o d' w').2)
                   = toggleState (page w)
                /\ forallb isObserverTimeout
                     (since (page w) (page (renderControls info c o d' w').2)) = true)).
  { intros c d' w' Hp Hc Hd.
    destruct (renderControls_button info c o d' w') as (y & Cy & [Hy|Hy]).
    - left. unfold createdSince. rewrite Cy, Hc, Fc, C0, <- !app_assoc, drop_app_length.
      rewrite !existsb_app, Hy, !orb_true_r. reflexivity.
    - right. rewrite Hy.
      destruct (pauseObserver_page w') as (T1 & T2 & T3).
      rewrite Hp, Fp, P0 in T1, T2, T3. auto. }
  destruct ex as [dx|]; cbn [andb].
  - apply Hctl; reflexivity.
  - destruct (negb (hasParent (block w3))).
    + cbn [snd]. apply Hquiet; reflexivity.
    + apply Hctl; reflexivity.
Qed.

(** A run of the renderer evaluates the auto-execution only if this very
    run created the execute button.  Any other run, such as the update of
    a block that has its button, the rendering of an incomplete call, or a
    run that gives up, leaves the tracker and the preference as they were
    and logs no event of an auto-execution: no mark of the ledger, no pass
    of the retry loop, no click, and no timeout of a retry chain. *)
Theorem execution_scheduled_only_with_new_button (gen : jsstring) (o : Obs) (w : World) :
  let r := render gen o w in
  existsb isExecuteButtonKind (createdSince w r.2) = true
  \/ (tracker (page r.2) = tracker (page w)
      /\ toggleState (page r.2) = toggleState (page w)
      /\ existsb isAutoExecutionEvent (since (page w) (page r.2)) = false).
Proof.
  cbv zeta.
  destruct (render_scheduler_events gen o w) as [H|(T & G & F)]; [left; exact H|].
  right. split; [exact T|]. split; [exact G|].
  induction (since (page w) (page (render gen o w).2)) as [|e l IH]; [reflexivity|].
  cbn [forallb] in F. apply andb_true_iff in F. destruct F as (Fe & Fl).
  cbn [existsb]. rewrite (IH Fl), orb_false_r.
  destruct e as [| | | | |cb d]; try discriminate Fe.
  destruct cb; try discriminate Fe. reflexivity.
Qed.

End Scheduling.

(** *** Lifecycle classes *)

Lemma stateTransitions_classes (isNew : bool) (info : FunctionInfo) (pre : bool)
    (tag : option jsstring) (d : BlockDiv) (w : World) :
  let prev := if isNew then None else Some (negb (loading d)) in
  let r := stateTransitions isNew prev info pre tag d w in
  (isNew = false ->
     loading r.1 = negb (isComplete info) /\ (tidy d = true -> tidy r.1 = true))
  /\ (isNew = true ->
        loading r.1 = loading d || negb (isComplete info) && negb pre
        /\ complete r.1 = complete d
        /\ functionNameEl r.1 = functionNameEl d).
Proof.
  cbv zeta. unfold stateTransitions, tidy, spinnerShown. destruct isNew.
  - split; [discriminate|]. intros _.
    destruct (negb (isComplete info) && negb pre);
      destruct (truthy tag); try destruct (truthy (languageTag info)); cbn;
      rewrite ?orb_true_r, ?orb_false_r; repeat split.
  - split; [|discriminate]. intros _.
    destruct (loading d) eqn:L, (isComplete info) eqn:C; cbn; rewrite ?L;
      (split; [reflexivity|]); intros H;
      destruct (functionNameEl d) as [n|] eqn:N; try destruct (spinner n) eqn:Sp;
      destruct (complete d) eqn:Cd; cbn in *; rewrite ?N, ?Sp, ?L, ?Cd in *; cbn in *;
      first [reflexivity | congruence].
Qed.

Lemma renderName_classes (fn cid : jsstring) (info : FunctionInfo) (pre : bool)
    (d : BlockDiv) (w : World) :
  let r := renderName fn cid info pre d w in
  loading r.1 = loading d /\ complete r.1 = complete d
  /\ spinnerShown r.1
     = match functionNameEl d with
       | Some n => spinner n
       | None => negb (isComplete info) && negb pre
       end.
Proof.
  cbv zeta. unfold renderName, spinnerShown.
  destruct (functionNameEl d) as [n|].
  - destruct cid; [|destruct (callIdText n)]; repeat split.
  - destruct cid; destruct (negb (isComplete info) && negb pre); repeat split.
Qed.

Lemma renderParamsIn_classes (bid raw : jsstring) (d : BlockDiv) (w : World) :
  let r := renderParamsIn bid raw d w in
  loading r.1 = loading d /\ complete r.1 = complete d
  /\ spinnerShown r.1 = spinnerShown d.
Proof.
  cbv zeta. unfold renderParamsIn. destruct (functionParams d); repeat split.
Qed.

Lemma renderControls_classes (info : FunctionInfo) (c : Ctx) (o : Obs)
    (d : BlockDiv) (w : World) :
  exists d', renderedFunctionBlocks (renderControls info c o d w).2 !! blockId c = Some d'
    /\ loading d' = loading d /\ complete d' = complete d
    /\ spinnerShown d' = spinnerShown d.
Proof.
  unfold renderControls.
  set (r1 := match functionButtons d with Some _ => (d, w) | None => _ end).
  assert (H1 : loading r1.1 = loading d /\ complete r1.1 = complete d
               /\ spinnerShown r1.1 = spinnerShown d).
  { unfold r1. destruct (functionButtons d); repeat split. }
  destruct r1 as [d1 w1]. cbn [fst snd] in H1. destruct H1 as (A1 & B1 & S1).
  set (r2 := if isComplete info && negb (hasRawToggle d1) then _ else (d1, w1)).
  assert (H2 : loading r2.1 = loading d /\ complete r2.1 = complete d
               /\ spinnerShown r2.1 = spinnerShown d).
  { unfold r2. destruct (isComplete info && negb (hasRawToggle d1)); cbn; auto. }
  destruct r2 as [d2 w2]. cbn [fst snd] in H2. destruct H2 as (A2 & B2 & S2).
  destruct (isComplete info && match firstExecuteButton d2 with None => true | _ => false end).
  - unfold addExecuteButton. destruct (autoExecuteSection c _ _) as [early p].
    eexists. split.
    + destruct early; unfold commit; cbn [snd renderedFunctionBlocks setRegistry];
        apply lookup_insert_eq.
    + cbn. auto.
  - eexists. split.
    + unfold commit. cbn [snd renderedFunctionBlocks setRegistry]. apply lookup_insert_eq.
    + auto.
Qed.

Lemma tidy_of_parts (d d' : BlockDiv) :
  loading d' = loading d -> complete d' = complete d ->
  spinnerShown d' = spinnerShown d -> tidy d' = tidy d.
Proof. unfold tidy. intros -> -> ->. reflexivity. Qed.

Section Lifecycle.

Variable ParamMap : Type.
Variable containsFunctionCalls : jsstring -> FunctionInfo.
Variable extractLanguageTag : jsstring -> option jsstring * jsstring.
Variable extractFunctionParameters : jsstring -> option ParamMap.
Variable generateContentSignature : jsstring -> ParamMap -> jsstring.

Local Abbreviation render :=
  (renderFunctionCall ParamMap containsFunctionCalls extractLanguageTag
     extractFunctionParameters generateContentSignature).

(** The lifecycle classes after a run.  An update of a registered block
    leaves it with the class function-loading exactly when the call is
    incomplete, keeps consistent marks consistent, and a complete call then
    shows no spinner.  A first render gives function-loading to an
    incomplete call that is not a pre-existing one, with a spinner exactly
    then, and never gives function-complete: that class is only added by
    the transition from loading to complete. *)
Theorem lifecycle_classes (gen : jsstring) (o : Obs) (w : World) :
  hasFunctionCalls (containsFunctionCalls (textContent (block w))) = true ->
  insideFunctionBlock (block w) = false ->
  let bid := blockIdOf gen w in
  let info := containsFunctionCalls (textContent (block w)) in
  let r := render gen o w in
  (forall d0, renderedFunctionBlocks w !! bid = Some d0 ->
     exists d', renderedFunctionBlocks r.2 !! bid = Some d'
       /\ loading d' = negb (isComplete info)
       /\ (tidy d0 = true ->
           tidy d' = true /\ (isComplete info = true -> spinnerShown d' = false)))
  /\ (renderedFunctionBlocks w !! bid = None ->
      (processed w = true -> documentDivs w !! bid = None) ->
      exists d', renderedFunctionBlocks r.2 !! bid = Some d'
        /\ loading d'
           = negb (isComplete info)
             && negb (bool_decide (bid ∈ preExistingIncompleteBlocks w))
        /\ complete d' = false
        /\ spinnerShown d' = loading d'
        /\ tidy d' = true).
Proof.
  intros Hf Hi. cbv zeta. unfold renderFunctionCall. rewrite Hf, Hi. cbn [negb orb].
  set (bid := blockIdOf gen w).
  set (info := containsFunctionCalls (textContent (block w))).
  set (pre := bool_decide (bid ∈ preExistingIncompleteBlocks w)).
  assert (Hbid : bid <> []) by apply blockIdOf_nonempty.
  split.
  - (* an update *)
    intros d0 Hreg. unfold lookupExisting. rewrite Hreg. cbn [andb option_map].
    destruct (extractLanguageTag (trim (textContent (block w)))) as [tag content].
    destruct (stateTransitions_classes false info pre tag d0 w) as [S1 _].
    specialize (S1 eq_refl). cbv zeta in S1. cbn [negb] in S1.
    match goal with |- context [stateTransitions false ?p info pre tag d0 w] =>
      change p with (Some (negb (loading d0))) end.
    destruct (stateTransitions false (Some (negb (loading d0))) info pre tag d0 w)
      as [d1 w1]. cbn [fst snd] in S1. destruct S1 as (L1 & T1).
    match goal with |- context [renderName ?fn ?cid info pre d1 w1] =>
      destruct (renderName_classes fn cid info pre d1 w1) as (L2 & C2 & S2);
      destruct (renderName fn cid info pre d1 w1) as [d2 w2] end.
    cbn [fst snd] in *.
    match goal with |- context [renderParamsIn bid ?raw d2 w2] =>
      destruct (renderParamsIn_classes bid raw d2 w2) as (L3 & C3 & S3);
      destruct (renderParamsIn bid raw d2 w2) as [d3 w3] end.
    cbn [fst snd] in *.
    match goal with |- context [renderControls info ?c o d3 w3] =>
      destruct (renderControls_classes info c o d3 w3) as (d' & R & L4 & C4 & S4) end.
    cbn [blockId] in R. exists d'. split; [exact R|].
    split; [congruence|]. intros Ht. specialize (T1 Ht).
    assert (Ht' : tidy d' = true).
    { unfold tidy in *. rewrite L4, C4, S4, L3, C3, S3, L2, C2, S2.
      unfold spinnerShown in T1. destruct (functionNameEl d1) as [n|]; [exact T1|].
      rewrite L1. apply andb_true_iff in T1 as [T1 _]. rewrite L1 in T1. rewrite T1.
      destruct (isComplete info), pre; reflexivity. }
    split; [exact Ht'|]. intros Hc.
    unfold tidy in Ht'. apply andb_true_iff in Ht' as [_ Ht'].
    assert (Ld : loading d' = false) by (rewrite L4, L3, L2, L1, Hc; reflexivity).
    rewrite Ld in Ht'. destruct (spinnerShown d'); [discriminate | reflexivity].
  - (* a first render *)
    intros Hreg Hdoc.
    assert (Hl : exists w0, lookupExisting bid w = (None, w0) /\ processed w0 = false
                            /\ block w0 = block w).
    { unfold lookupExisting. rewrite Hreg. destruct (processed w) eqn:Hp.
      - rewrite (Hdoc eq_refl). eexists. repeat split.
      - eexists. repeat split. exact Hp. }
    destruct Hl as (w0 & -> & Hp0 & Hb0). rewrite Hp0. cbn [andb negb option_map].
    cbn [block textContent setBlock]. rewrite Hb0.
    destruct (extractLanguageTag (trim (textContent (block w)))) as [tag content].
    set (da := mkDiv bid false false None None None None false).
    set (wa := create KFunctionBlock _).
    destruct (stateTransitions_classes true info pre tag da wa) as [_ S1].
    specialize (S1 eq_refl). cbv zeta in S1.
    destruct (stateTransitions true None info pre tag da wa) as [d1 w1].
    cbn [fst snd loading complete functionNameEl da orb] in S1.
    destruct S1 as (L1 & C1 & N1).
    match goal with |- context [renderName ?fn ?cid info pre d1 w1] =>
      destruct (renderName_classes fn cid info pre d1 w1) as (L2 & C2 & S2);
      destruct (renderName fn cid info pre d1 w1) as [d2 w2] end.
    cbn [fst snd] in *. rewrite N1 in S2.
    match goal with |- context [renderParamsIn bid ?raw d2 w2] =>
      destruct (renderParamsIn_classes bid raw d2 w2) as (L3 & C3 & S3);
      destruct (renderParamsIn bid raw d2 w2) as [d3 w3] end.
    cbn [fst snd] in *.
    assert (Hfin : forall d', loading d' = loading d3 -> complete d' = complete d3 ->
                     spinnerShown d' = spinnerShown d3 ->
                     loading d' = negb (isComplete info) && negb pre
                     /\ complete d' = false /\ spinnerShown d' = loading d'
                     /\ tidy d' = true).
    { intros d' A B S.
      assert (Ld : loading d' = negb (isComplete info) && negb pre) by congruence.
      assert (Cd : complete d' = false) by congruence.
      assert (Sd : spinnerShown d' = loading d') by congruence.
      split; [exact Ld|]. split; [exact Cd|]. split; [exact Sd|].
      unfold tidy. rewrite Sd, Cd. destruct (loading d'); reflexivity. }
    destruct (negb (hasParent (block w3))).
    + exists d3. split; [unfold commit; cbn; apply lookup_insert_eq|].
      apply Hfin; reflexivity.
    + match goal with |- context [renderControls info ?c o ?d ?w'] =>
        destruct (renderControls_classes info c o d w') as (d' & R & L4 & C4 & S4) end.
      cbn [blockId] in R. exists d'. split; [exact R|].
      apply Hfin; [exact L4 | exact C4 | exact S4].
Qed.

End Lifecycle.

Lemma lifecycle_classes_witness :
  hasFunctionCalls (scanTags (textContent (block worldAttached))) = true
  /\ insideFunctionBlock (block worldAttached) = false
  /\ exists d',
       renderedFunctionBlocks (renderExample gen1 obsEnabled worldAttached).2
         !! blockIdOf gen1 worldAttached = Some d'
       /\ loading d' = false /\ complete d' = false.
Proof.
  assert (H1 : hasFunctionCalls (scanTags (textContent (block worldAttached))) = true)
    by (vm_compute; reflexivity).
  assert (H2 : insideFunctionBlock (block worldAttached) = false) by reflexivity.
  split; [exact H1|]. split; [exact H2|].
  destruct (proj2 (lifecycle_classes _ scanTags noLanguageTag paramMapOf signatureOf
                     gen1 obsEnabled worldAttached H1 H2))
    as (d' & R & L & C & _).
  - reflexivity.
  - intros _. reflexivity.
  - exists d'. split; [exact R|]. split; [|exact C].
    rewrite L. vm_compute. reflexivity.
Defined.

(** *** The invoke tag *)







End ElementFacts.

(** * Properties of the DOM observer *)

Module ObserverFacts.
Import Observer.
Local Open Scope nat_scope.

(** *** The first pass of the callback *)

Local Ltac sets :=
  apply set_eq; intros ?;
  rewrite ?elem_of_union, ?elem_of_singleton, ?elem_of_list_to_set,
    ?list_elem_of_In; cbn [map In]; try rewrite ?elem_of_empty; tauto.

Lemma NoDup_map_fst_filter {A B} (f : A * B -> bool) (l : list (A * B)) :
  NoDup (map fst l) -> NoDup (map fst (List.filter f l)).
Proof.
  induction l as [|x l IH]; cbn; [trivial|].
  intros H. apply NoDup_cons in H as [H1 H2].
  destruct (f x); cbn; [|exact (IH H2)].
  apply NoDup_cons. split; [|exact (IH H2)].
  intros Hx. apply H1. apply list_elem_of_In, in_map_iff in Hx as (y & Hy & Hin).
  apply filter_In in Hin as [Hin _].
  apply list_elem_of_In, in_map_iff. exists y. auto.
Qed.

Lemma examineBlocks_spec (processed : gset nat) (blocks : list (nat * jsstring)) :
  forall st : gset nat * list (nat * jsstring),
  examineBlocks processed blocks st
  = (list_to_set (map fst blocks) ∪ st.1,
     st.2 ++ List.filter (keeps processed) blocks).
Proof.
  induction blocks as [|b blocks IH]; intros [marked acc]; cbn [examineBlocks fst snd].
  - cbn. rewrite app_nil_r. f_equal. sets.
  - rewrite IH. cbn [fst snd map list_to_set List.filter]. unfold keeps at 2.
    f_equal; [sets|].
    destruct (negb (bool_decide (b.1 ∈ processed)) && includesTag b.2);
      [rewrite <- app_assoc|]; reflexivity.
Qed.

Lemma collect_nodes (processed : gset nat) (ms : list MutationRecord) :
  forall st,
  fold_left (fun st m => examineMutation processed m st) ms st
  = fold_left (fun st n => examineNode processed n st) (addedByChildList ms) st.
Proof.
  induction ms as [|m ms IH]; intros st; [reflexivity|].
  cbn [fold_left]. rewrite IH. unfold addedByChildList. cbn [flat_map].
  rewrite fold_left_app. unfold examineMutation.
  destruct (mutationType m); reflexivity.
Qed.

(** The pass over a list of nodes, from any state. *)
Lemma pass_spec (processed : gset nat) (nodes : list Node) :
  forall (marked : gset nat) (acc : list (nat * jsstring)),
  let cands := flat_map (fun n => if isElement n then pres n else []) nodes in
  let r := fold_left (fun st n => examineNode processed n st) nodes (marked, acc) in
  r.1 = list_to_set (map fst cands) ∪ marked
  /\ exists new,
       r.2 = acc ++ new
       /\ (forall b, In b new ->
             In b cands /\ (b.1 ∉ marked) /\ keeps processed b = true)
       /\ ((forall n, In n nodes -> NoDup (map fst (pres n))) ->
           NoDup (map fst new))
       /\ (forall b, In b cands -> b.1 ∉ marked -> keeps processed b = true ->
             (forall t', In (b.1, t') cands -> t' = b.2) ->
             In b new).
Proof.
  induction nodes as [|n nodes IH]; intros marked acc; cbv zeta; cbn [fold_left flat_map].
  - split; [cbn; sets|]. exists []. rewrite app_nil_r.
    split; [reflexivity|]. split; [intros b []|]. split; [constructor | intros b []].
  - set (blocks := if isElement n then pres n else []).
    assert (E : examineNode processed n (marked, acc)
                = (list_to_set (map fst blocks) ∪ marked,
                   acc ++ List.filter (keeps processed)
                            (List.filter (fun b => negb (bool_decide (b.1 ∈ marked))) blocks))).
    { unfold examineNode, blocks. destruct (isElement n).
      - rewrite examineBlocks_spec. cbn [fst snd]. f_equal.
        apply set_eq. intros i. rewrite !elem_of_union, !elem_of_list_to_set.
        split; [intros [H|H]; [left|right; exact H]|intros [H|H]; [|right; exact H]].
        + apply list_elem_of_In, in_map_iff in H as (b & <- & Hb).
          apply filter_In in Hb as [Hb _].
          apply list_elem_of_In, in_map_iff. exists b. auto.
        + destruct (decide (i ∈ marked)) as [Hm|Hm]; [right; exact Hm|left].
          apply list_elem_of_In, in_map_iff in H as (b & <- & Hb).
          apply list_elem_of_In, in_map_iff. exists b. split; [reflexivity|].
          apply filter_In. split; [exact Hb|].
          apply negb_true_iff, bool_decide_eq_false. exact Hm.
      - cbn. rewrite app_nil_r. f_equal. sets. }
    rewrite E.
    set (here := List.filter (keeps processed)
                   (List.filter (fun b => negb (bool_decide (b.1 ∈ marked))) blocks)).
    destruct (IH (list_to_set (map fst blocks) ∪ marked) (acc ++ here))
      as (M & new & Hnew & Hsound & Hdup & Hcompl).
    cbv zeta in *. fold blocks.
    split.
    { rewrite M, map_app, list_to_set_app_L. sets. }
    exists (here ++ new). split; [rewrite Hnew, app_assoc; reflexivity|].
    assert (Hhere : forall b, In b here ->
                      In b blocks /\ (b.1 ∉ marked) /\ keeps processed b = true).
    { intros b Hb. unfold here in Hb. apply filter_In in Hb as [Hb Hk].
      apply filter_In in Hb as [Hb Hm].
      apply negb_true_iff, bool_decide_eq_false in Hm. auto. }
    split; [|split].
    + intros b Hb. apply in_app_iff in Hb as [Hb|Hb].
      * destruct (Hhere b Hb) as (H1 & H2 & H3).
        split; [apply in_app_iff; left; exact H1 | auto].
      * destruct (Hsound b Hb) as (H1 & H2 & H3).
        split; [apply in_app_iff; right; exact H1|]. split; [|exact H3].
        intros Hm. apply H2. apply elem_of_union. right. exact Hm.
    + intros Hnd. rewrite map_app. apply NoDup_app. split; [|split].
      * unfold here. apply NoDup_map_fst_filter. apply NoDup_map_fst_filter.
        unfold blocks. destruct (isElement n); [|constructor].
        apply Hnd. left. reflexivity.
      * intros i Hi Hi'.
        apply list_elem_of_In, in_map_iff in Hi as (b & <- & Hb).
        apply list_elem_of_In, in_map_iff in Hi' as (b' & Hbb & Hb').
        destruct (Hhere b Hb) as (H1 & _).
        destruct (Hsound b' Hb') as (_ & H2 & _). apply H2.
        apply elem_of_union. left. apply elem_of_list_to_set.
        apply list_elem_of_In, in_map_iff. exists b. split; [congruence | exact H1].
      * apply Hdup. intros n' Hn'. apply Hnd. right. exact Hn'.
    + intros b Hb Hm Hk Hone. apply in_app_iff.
      destruct (decide (b.1 ∈ (list_to_set (map fst blocks) : gset nat))) as [Hin|Hin].
      * left. apply elem_of_list_to_set, list_elem_of_In, in_map_iff in Hin
          as (b' & Hbb & Hb').
        assert (b' = b).
        { destruct b as [i t], b' as [i' t']. cbn in Hbb. subst i'.
          f_equal. apply (Hone t'). apply in_app_iff. left. exact Hb'. }
        subst b'. unfold here. apply filter_In. split; [|exact Hk].
        apply filter_In. split; [exact Hb'|].
        apply negb_true_iff, bool_decide_eq_false. exact Hm.
      * right. apply in_app_iff in Hb as [Hb|Hb].
        { exfalso. apply Hin. apply elem_of_list_to_set, list_elem_of_In, in_map_iff.
          exists b. auto. }
        apply Hcompl; [exact Hb | | exact Hk|].
        { intros Hu. apply elem_of_union in Hu as [Hu|Hu]; [exact (Hin Hu) | exact (Hm Hu)]. }
        intros t' Ht'. apply Hone. apply in_app_iff. right. exact Ht'.
Qed.

Lemma collect_spec (processed : gset nat) (ms : list MutationRecord) (marked : gset nat) :
  let r := collect processed ms marked in
  r.1 = list_to_set (map fst (candidates ms)) ∪ marked
  /\ (forall b, In b r.2 ->
        In b (candidates ms) /\ (b.1 ∉ marked) /\ keeps processed b = true)
  /\ (distinctPerNode ms -> NoDup (map fst r.2))
  /\ (forall b, In b (candidates ms) -> b.1 ∉ marked -> keeps processed b = true ->
        (forall t', In (b.1, t') (candidates ms) -> t' = b.2) -> In b r.2).
Proof.
  cbv zeta. unfold collect. rewrite collect_nodes.
  destruct (pass_spec processed (addedByChildList ms) marked [])
    as (M & new & Hnew & Hs & Hd & Hc).
  cbv zeta in *. cbn [app] in Hnew. rewrite Hnew. fold (candidates ms) in *.
  split; [exact M|]. split; [exact Hs|]. split; [exact Hd | exact Hc].
Qed.

(** *** The second pass *)

Lemma scheduleBlocks_spec (bs : list (nat * jsstring)) :
  forall (k total : nat) (status : bool) (st : Watch),
  scheduleBlocks bs k total status st
  = setPending (pending st ++ processTimers (now st) k total status bs) st.
Proof.
  induction bs as [|b bs IH]; intros k total status st; cbn [scheduleBlocks].
  - unfold processTimers. cbn. rewrite app_nil_r. destruct st; reflexivity.
  - rewrite IH. unfold scheduleTimeout, setPending.
    cbn [pending now domObserver observerEnabled dataProcessed processedElements].
    f_equal. rewrite <- app_assoc. f_equal.
    unfold processTimers. rewrite imap_cons. cbn [app]. rewrite Nat.add_0_r.
    f_equal. apply imap_ext. intros j x _. unfold compose.
    replace (S k + j) with (k + S j) by lia. reflexivity.
Qed.

(** What a run of the callback collects and schedules.  With the observer
    enabled, every [pre] descendant of an added element is marked
    [data-processed]; the blocks kept for processing are exactly those
    reached that were not marked before, are not in [processedElements] and
    whose text holds the opening tag, each once; block number k is given a
    timeout after 100 k ms; and the flag is turned off when at least one
    block is kept. *)
Theorem callback_collects_each_block_once (ms : list MutationRecord) (st : Watch) :
  observerEnabled st = true ->
  distinctPerNode ms ->
  oneText (candidates ms) ->
  let kept := (collect (processedElements st) ms (dataProcessed st)).2 in
  let st' := mutationCallback ms st in
  dataProcessed st' = list_to_set (map fst (candidates ms)) ∪ dataProcessed st
  /\ NoDup (map fst kept)
  /\ (forall b, In b kept
        <-> In b (candidates ms) /\ (b.1 ∉ dataProcessed st)
            /\ (b.1 ∉ processedElements st) /\ includesTag b.2 = true)
  /\ pending st' = pending st ++ processTimers (now st) 0 (length kept) true kept
  /\ observerEnabled st' = match kept with [] => true | _ => false end
  /\ domObserver st' = domObserver st
  /\ processedElements st' = processedElements st.
Proof.
  intros He Hd Ho. cbv zeta.
  destruct (collect_spec (processedElements st) ms (dataProcessed st))
    as (M & Hs & Hn & Hc). cbv zeta in *.
  unfold mutationCallback. rewrite He. cbn [negb].
  set (r := collect (processedElements st) ms (dataProcessed st)) in *.
  assert (Hkeeps : forall b, keeps (processedElements st) b = true
                    <-> (b.1 ∉ processedElements st) /\ includesTag b.2 = true).
  { intros b. unfold keeps. rewrite andb_true_iff, negb_true_iff, bool_decide_eq_false.
    reflexivity. }
  assert (Hiff : forall b, In b r.2
                  <-> In b (candidates ms) /\ (b.1 ∉ dataProcessed st)
                      /\ (b.1 ∉ processedElements st) /\ includesTag b.2 = true).
  { intros b. split.
    - intros H. destruct (Hs b H) as (H1 & H2 & H3). apply Hkeeps in H3. tauto.
    - intros (H1 & H2 & H3). apply Hc; [exact H1 | exact H2 | apply Hkeeps; exact H3|].
      intros t' Ht'. destruct b as [i t]. exact (Ho i t' t Ht' H1). }
  destruct r.2 as [|b0 kept] eqn:E.
  - cbn. rewrite app_nil_r. split; [exact M|]. split; [constructor|].
    split; [exact Hiff|]. repeat split. exact He.
  - rewrite scheduleBlocks_spec. cbn [pending setPending setEnabled setDataProcessed
      dataProcessed observerEnabled domObserver processedElements now].
    rewrite He. split; [exact M|]. split; [apply Hn; exact Hd|].
    split; [exact Hiff|]. repeat split.
Qed.

(** An element is examined once.  Once the callback has reached a [pre]
    element, no later run collects it, whatever its text has become by
    then: a block first seen before its text held the opening tag is not
    processed by the observer at all.  A run with the flag off does
    nothing. *)
Theorem examined_block_is_never_collected_again
    (ms ms' : list MutationRecord) (st st2 : Watch) :
  observerEnabled st = true ->
  dataProcessed (mutationCallback ms st) ⊆ dataProcessed st2 ->
  (forall b, In b (collect (processedElements st2) ms' (dataProcessed st2)).2 ->
     ~ In b.1 (map fst (candidates ms)))
  /\ mutationCallback ms' (disableDOMObserver st2) = disableDOMObserver st2.
Proof.
  intros He Hsub. split; [|reflexivity].
  intros b Hb Hin.
  destruct (collect_spec (processedElements st2) ms' (dataProcessed st2))
    as (_ & Hs & _). destruct (Hs b Hb) as (_ & Hm & _). apply Hm, Hsub.
  assert (E : dataProcessed (mutationCallback ms st)
              = list_to_set (map fst (candidates ms)) ∪ dataProcessed st).
  { destruct (collect_spec (processedElements st) ms (dataProcessed st)) as (M & _).
    unfold mutationCallback. rewrite He. cbn [negb]. cbv zeta in *.
    destruct (collect (processedElements st) ms (dataProcessed st)).2;
      [|rewrite scheduleBlocks_spec]; exact M. }
  rewrite E. apply elem_of_union. left.
  apply elem_of_list_to_set, list_elem_of_In. exact Hin.
Qed.

(** *** Timeouts *)

Lemma earliest_head (x : nat * Timeout) (ts : list (nat * Timeout)) :
  Forall (fun y => x.1 <= y.1) ts -> earliest (x :: ts) = Some (x, ts).
Proof.
  intros H. cbn [earliest]. destruct (earliest ts) as [[y rest]|] eqn:E.
  - assert (Hy : In y ts).
    { clear H. revert y rest E. induction ts as [|z ts IH]; intros y rest E; [discriminate|].
      cbn [earliest] in E. destruct (earliest ts) as [[y' rest']|] eqn:E'.
      - destruct (z.1 <=? y'.1); injection E as <- <-; [left; reflexivity|].
        right. exact (IH _ _ eq_refl).
      - injection E as <- <-. left. reflexivity. }
    rewrite List.Forall_forall in H. specialize (H y Hy).
    apply Nat.leb_le in H. rewrite H. reflexivity.
  - destruct ts; [reflexivity|]. cbn [earliest] in E.
    destruct (earliest ts) as [[y' rest']|]; [destruct (_ <=? _)|]; discriminate.
Qed.

Lemma earliest_last (x : nat * Timeout) (ts : list (nat * Timeout)) :
  Forall (fun y => x.1 < y.1) ts -> earliest (ts ++ [x]) = Some (x, ts).
Proof.
  induction ts as [|z ts IH]; intros H; [reflexivity|].
  apply Forall_cons in H as [Hz H]. cbn [app earliest]. rewrite (IH H).
  destruct (z.1 <=? x.1) eqn:E; [apply Nat.leb_le in E; lia | reflexivity].
Qed.

Lemma earliest_some (ts : list (nat * Timeout)) :
  ts <> [] ->
  exists x rest, earliest ts = Some (x, rest) /\ In x ts
                 /\ length rest = length ts - 1
                 /\ (forall y, In y rest -> In y ts).
Proof.
  induction ts as [|z ts IH]; intros H; [contradiction|].
  cbn [earliest]. destruct ts as [|z' ts'].
  - exists z, []. repeat split; [left; reflexivity | intros y []].
  - destruct IH as (x & rest & E & Hx & Hl & Hr); [discriminate|]. rewrite E.
    destruct (z.1 <=? x.1).
    + exists z, (z' :: ts'). split; [reflexivity|]. split; [left; reflexivity|].
      split; [cbn [length]; lia|]. intros y Hy. right. exact Hy.
    + exists x, (z :: rest). split; [reflexivity|]. split; [right; exact Hx|].
      split; [cbn [length] in *; lia|].
      intros y [<-|Hy]; [left; reflexivity | right; exact (Hr y Hy)].
Qed.

Lemma drive_idle (env : list RenderOutcome) (st : Watch) :
  pending st = [] -> runTimers env st = st.
Proof.
  revert st. induction env as [|o env IH]; intros st H; [reflexivity|].
  cbn [runTimers]. unfold runNext. rewrite H. cbn. apply IH. exact H.
Qed.

(** *** Pausing the observer *)

(** The pause at the end of [renderFunctionCall] is lifted only if the flag
    is off when its timeout fires.  With the flag on, as
    [setupDOMObserver] leaves it, the delayed [setupDOMObserver] returns at
    once and the observer stays disconnected; with the flag off it makes a
    new observer that observes, and turns the flag on. *)
Theorem pause_is_lifted_only_when_disabled (o : RenderOutcome) (st : Watch) :
  is_Some (domObserver st) ->
  pending st = [] ->
  runNext o (pauseForRender st)
  = setNow (now st + 1000)
      (if observerEnabled st then disconnect st
       else setEnabled true (setObserver (Some (mkObserver true)) st)).
Proof.
  intros [m Hm] Ht. unfold pauseForRender. rewrite Hm.
  unfold runNext, scheduleTimeout, disconnect, setPending, setObserver.
  cbn [pending now domObserver observerEnabled dataProcessed processedElements].
  rewrite Ht, Hm. cbn [app earliest option_map runCallback].
  rewrite (Nat.max_r (now st) (now st + 1000)) by lia.
  unfold setupDOMObserver, setNow, setPending, setEnabled, setObserver, disconnect.
  cbn [pending now domObserver observerEnabled dataProcessed processedElements].
  rewrite ?Ht, ?Hm. cbn [option_map]. destruct (observerEnabled st); reflexivity.
Qed.

Lemma pause_witness :
  let st := setupDOMObserver (mkWatch None false ∅ ∅ 500 []) in
  is_Some (domObserver st) /\ pending st = []
  /\ domObserver (runNext (mkOutcome true true) (pauseForRender st))
     = Some (mkObserver false).
Proof.
  cbv zeta.
  assert (H1 : is_Some (domObserver (setupDOMObserver (mkWatch None false ∅ ∅ 500 []))))
    by (eexists; reflexivity).
  assert (H2 : pending (setupDOMObserver (mkWatch None false ∅ ∅ 500 [])) = [])
    by reflexivity.
  split; [exact H1|]. split; [exact H2|].
  rewrite (pause_is_lifted_only_when_disabled (mkOutcome true true) _ H1 H2).
  reflexivity.
Defined.

(** *** A batch of blocks *)

Lemma drive_app (env1 env2 : list RenderOutcome) (st : Watch) :
  runTimers (env1 ++ env2) st = runTimers env2 (runTimers env1 st).
Proof.
  revert st. induction env1 as [|o env1 IH]; intros st; [reflexivity|].
  cbn [app runTimers]. apply IH.
Qed.

Lemma processTimers_cons (t0 k total : nat) (status : bool) (b : nat * jsstring)
    (bs : list (nat * jsstring)) :
  processTimers t0 k total status (b :: bs)
  = (t0 + k * 100, ProcessBlock b.1 k total status)
    :: processTimers t0 (S k) total status bs.
Proof.
  unfold processTimers. rewrite imap_cons, Nat.add_0_r. f_equal.
  apply imap_ext. intros j x _. unfold compose.
  replace (S k + j) with (k + S j) by lia. reflexivity.
Qed.

Lemma processTimers_due (t0 k total : nat) (status : bool) (bs : list (nat * jsstring)) :
  Forall (fun y => t0 + k * 100 <= y.1) (processTimers t0 k total status bs).
Proof.
  revert k. induction bs as [|b bs IH]; intros k; [constructor|].
  rewrite processTimers_cons. constructor; [cbn [fst]; lia|].
  eapply List.Forall_impl; [|exact (IH (S k))]. intros y Hy. cbn beta in *. lia.
Qed.

Lemma fire_process (b k n : nat) (o : RenderOutcome) (st : Watch) (m : MutationObserver) :
  domObserver st = Some m ->
  let st' := runCallback (ProcessBlock b k n true) o st in
  observerEnabled st' = observerEnabled st /\ now st' = now st
  /\ domObserver st' = (if reachesEnd o then Some (mkObserver false) else Some m)
  /\ pending st'
     = pending st
       ++ (if reachesEnd o then [(now st + 1000, SetupObserver)] else [])
       ++ (if k =? n - 1 then [(now st + 100, RestoreFlag true)] else []).
Proof.
  intros Hm. cbv zeta. cbn [runCallback].
  set (st1 := if addsToProcessed o then _ else st).
  assert (H1 : observerEnabled st1 = observerEnabled st /\ now st1 = now st
               /\ domObserver st1 = Some m /\ pending st1 = pending st).
  { unfold st1. destruct (addsToProcessed o); cbn; auto. }
  clearbody st1. destruct H1 as (E1 & N1 & D1 & T1).
  set (st2 := if reachesEnd o then pauseForRender st1 else st1).
  assert (H2 : observerEnabled st2 = observerEnabled st /\ now st2 = now st
               /\ domObserver st2
                  = (if reachesEnd o then Some (mkObserver false) else Some m)
               /\ pending st2
                  = pending st
                    ++ (if reachesEnd o then [(now st + 1000, SetupObserver)] else [])).
  { unfold st2. destruct (reachesEnd o).
    - unfold pauseForRender. rewrite D1. unfold scheduleTimeout, disconnect, setPending, setObserver.
      cbn [pending now domObserver observerEnabled dataProcessed processedElements].
      rewrite D1, T1, N1, E1. auto.
    - rewrite app_nil_r. auto. }
  clearbody st2. destruct H2 as (E2 & N2 & D2 & T2).
  destruct (k =? n - 1).
  - unfold scheduleTimeout, setPending.
    cbn [pending now domObserver observerEnabled dataProcessed processedElements].
    rewrite T2, N2, <- app_assoc. auto.
  - rewrite app_nil_r. auto.
Qed.

Lemma processing_phase (bs : list (nat * jsstring)) :
  forall (k n t0 : nat) (setups : list (nat * Timeout)) (env : list RenderOutcome)
         (st : Watch) (seen : bool),
  bs <> [] ->
  pending st = processTimers t0 k n true bs ++ setups ->
  lateSetups t0 setups ->
  k + length bs = n -> n <= 9 -> length env = length bs ->
  observerEnabled st = false ->
  domObserver st = Some (mkObserver seen) ->
  now st <= t0 + k * 100 ->
  exists setups',
    pending (runTimers env st) = setups' ++ [(t0 + n * 100, RestoreFlag true)]
    /\ lateSetups t0 setups'
    /\ length setups' <= length setups + length bs
    /\ observerEnabled (runTimers env st) = false
    /\ domObserver (runTimers env st)
       = Some (mkObserver (seen && negb (existsb reachesEnd env)))
    /\ now (runTimers env st) <= t0 + n * 100.
Proof.
  induction bs as [|b bs IH]; intros k n t0 setups env st seen Hne Ht Hs Hn Hn9 Hl He Hd Hnow;
    [contradiction|].
  destruct env as [|o env]; [discriminate|]. cbn [length] in Hl, Hn.
  cbn [runTimers]. rewrite processTimers_cons in Ht.
  assert (Hearly : earliest (pending st)
                   = Some ((t0 + k * 100, ProcessBlock b.1 k n true),
                           processTimers t0 (S k) n true bs ++ setups)).
  { rewrite Ht. cbn [app]. apply earliest_head. cbn [fst]. apply Forall_app. split.
    - eapply List.Forall_impl; [|exact (processTimers_due t0 (S k) n true bs)].
      intros y Hy. cbn beta in *. lia.
    - eapply List.Forall_impl; [|exact Hs]. intros y [Hy _]. lia. }
  unfold runNext. rewrite Hearly.
  set (st0 := setNow (Nat.max (now st) (t0 + k * 100))
                (setPending (processTimers t0 (S k) n true bs ++ setups) st)).
  assert (H0 : observerEnabled st0 = false /\ domObserver st0 = Some (mkObserver seen)
               /\ now st0 = t0 + k * 100
               /\ pending st0 = processTimers t0 (S k) n true bs ++ setups).
  { unfold st0. cbn. rewrite He, Hd. repeat split. lia. }
  destruct H0 as (E0 & D0 & N0 & T0).
  destruct (fire_process b.1 k n o st0 _ D0) as (E1 & N1 & D1 & T1). cbv zeta in *.
  set (st1 := runCallback (ProcessBlock b.1 k n true) o st0) in *. clearbody st1.
  rewrite E0 in E1. rewrite N0 in N1, T1. rewrite T0 in T1.
  set (new := if reachesEnd o then [(t0 + k * 100 + 1000, SetupObserver)] else [])
    in *.
  assert (Hnew : lateSetups t0 (setups ++ new)).
  { apply Forall_app. split; [exact Hs|]. unfold new.
    destruct (reachesEnd o); constructor; [|constructor]. cbn. split; [lia | reflexivity]. }
  assert (Hlen : length (setups ++ new) <= length setups + 1).
  { rewrite length_app. unfold new. destruct (reachesEnd o); cbn; lia. }
  assert (Hseen : domObserver st1 = Some (mkObserver (seen && negb (reachesEnd o)))).
  { rewrite D1. destruct (reachesEnd o); [rewrite andb_false_r | rewrite andb_true_r];
      reflexivity. }
  destruct bs as [|b' bs'].
  - (* the last block: the flag is to be restored *)
    destruct env; [|discriminate]. cbn [runTimers existsb].
    assert (Hk : (k =? n - 1) = true) by (apply Nat.eqb_eq; cbn in Hn; lia).
    rewrite Hk in T1. cbn [processTimers imap app] in T1.
    exists (setups ++ new). split.
    { rewrite T1, app_assoc. f_equal. f_equal. f_equal. cbn in Hn. lia. }
    split; [exact Hnew|]. split; [cbn [length]; lia|]. split; [exact E1|].
    split; [rewrite Hseen, orb_false_r; reflexivity|]. cbn in Hn. lia.
  - assert (Hk : (k =? n - 1) = false) by (apply Nat.eqb_neq; cbn [length] in Hn; lia).
    rewrite Hk, app_nil_r in T1.
    destruct (IH (S k) n t0 (setups ++ new) env st1 (seen && negb (reachesEnd o)))
      as (setups' & T' & S' & L' & E' & D' & N');
      [discriminate | rewrite T1, app_assoc; reflexivity | exact Hnew | cbn [length] in *; lia
      | exact Hn9 | cbn [length] in *; lia | exact E1 | exact Hseen | lia |].
    exists setups'. split; [exact T'|]. split; [exact S'|].
    split; [cbn [length] in *; lia|]. split; [exact E'|]. split; [|exact N'].
    rewrite D'. cbn [existsb]. f_equal. f_equal.
    destruct seen, (reachesEnd o), (existsb reachesEnd env); reflexivity.
Qed.

Lemma settling_phase (env : list RenderOutcome) :
  forall (st : Watch) (m : MutationObserver),
  length (pending st) <= length env ->
  Forall (fun y => y.2 = SetupObserver) (pending st) ->
  domObserver st = Some m -> observerEnabled st = true ->
  pending (runTimers env st) = [] /\ domObserver (runTimers env st) = Some m
  /\ observerEnabled (runTimers env st) = true.
Proof.
  induction env as [|o env IH]; intros st m Hl Hs Hd He.
  - cbn in Hl. destruct (pending st) eqn:E; [|cbn in Hl; lia]. cbn. auto.
  - cbn [runTimers]. destruct (pending st) as [|z ts] eqn:E.
    + unfold runNext. rewrite E. cbn [earliest]. rewrite drive_idle by exact E. auto.
    + destruct (earliest_some (z :: ts)) as (x & rest & Hx & Hin & Hlen & Hrest);
        [discriminate|].
      unfold runNext. rewrite E, Hx. destruct x as [due cb].
      rewrite List.Forall_forall in Hs. pose proof (Hs _ Hin) as Hcb. cbn in Hcb. subst cb.
      cbn [runCallback]. unfold setupDOMObserver.
      cbn [domObserver observerEnabled setNow setPending]. rewrite Hd, He.
      apply IH.
      * cbn [pending setNow setPending]. cbn [length] in *. lia.
      * cbn [pending setNow setPending]. apply List.Forall_forall. intros y Hy.
        apply Hs, Hrest, Hy.
      * exact Hd.
      * exact He.
Qed.

(** A batch of up to nine blocks, when no other event comes in between and
    callbacks take no time: the blocks are processed in order, then the
    flag is restored, and only then do the calls of [setupDOMObserver]
    fire that the renders left behind; they find the flag on and return.
    So when all timeouts have fired, nothing is pending, the flag is on,
    and the observer observes exactly if no render of the batch ran to its
    end: one render that did leaves the observer disconnected. *)
Theorem batch_leaves_observer_disconnected (ms : list MutationRecord) (st : Watch)
    (env : list RenderOutcome) :
  domObserver st = Some (mkObserver true) ->
  observerEnabled st = true ->
  pending st = [] ->
  let n := length (collect (processedElements st) ms (dataProcessed st)).2 in
  1 <= n <= 9 ->
  2 * n + 1 <= length env ->
  let st' := runTimers env (mutationCallback ms st) in
  pending st' = []
  /\ observerEnabled st' = true
  /\ domObserver st' = Some (mkObserver (negb (existsb reachesEnd (take n env)))).
Proof.
  intros Hd He Ht. cbv zeta. intros Hn Henv.
  set (kept := (collect (processedElements st) ms (dataProcessed st)).2) in *.
  assert (Hst : mutationCallback ms st
                = setPending (processTimers (now st) 0 (length kept) true kept)
                    (setEnabled false
                       (setDataProcessed
                          (collect (processedElements st) ms (dataProcessed st)).1 st))).
  { unfold mutationCallback. rewrite He. cbn [negb]. cbv zeta. fold kept.
    destruct kept as [|b kept'] eqn:Ek; [cbn in Hn; lia|].
    rewrite scheduleBlocks_spec.
    cbn [pending setEnabled setDataProcessed now observerEnabled].
    rewrite Ht, He. reflexivity. }
  rewrite Hst. clear Hst.
  set (st1 := setPending _ _).
  set (n := length kept) in *.
  assert (Henv3 : env = take n env ++ take 1 (drop n env) ++ drop (S n) env).
  { rewrite <- (take_drop n env) at 1. f_equal.
    rewrite <- (take_drop 1 (drop n env)) at 1. f_equal.
    rewrite drop_drop. f_equal. lia. }
  assert (L1 : length (take n env) = n) by (rewrite length_take; lia).
  assert (L2 : length (take 1 (drop n env)) = 1)
    by (rewrite length_take, length_drop; lia).
  assert (L3 : n <= length (drop (S n) env)) by (rewrite length_drop; lia).
  assert (Hfinal : runTimers env st1
                   = runTimers (drop (S n) env)
                       (runTimers (take 1 (drop n env)) (runTimers (take n env) st1))).
  { rewrite Henv3 at 1. rewrite !drive_app. reflexivity. }
  rewrite Hfinal. clear Hfinal Henv3.
  (* the blocks are processed *)
  destruct (processing_phase kept 0 n (now st) [] (take n env) st1 true)
    as (setups & T1 & S1 & Ls & E1 & D1 & N1).
  { intros ->. cbn in n. lia. }
  { unfold st1. cbn. rewrite app_nil_r. reflexivity. }
  { constructor. }
  { reflexivity. }
  { lia. }
  { exact L1. }
  { reflexivity. }
  { unfold st1. cbn. exact Hd. }
  { unfold st1. cbn. lia. }
  cbn [andb] in D1. cbn [length] in Ls.
  set (st2 := runTimers (take n env) st1) in *. clearbody st2.
  (* the flag is restored *)
  destruct (take 1 (drop n env)) as [|o2 [|? ?]] eqn:E2; try (cbn in L2; lia).
  cbn [runTimers].
  assert (Hearly : earliest (pending st2) = Some ((now st + n * 100, RestoreFlag true), setups)).
  { rewrite T1. apply earliest_last. eapply List.Forall_impl; [|exact S1].
    intros y [Hy _]. cbn [fst]. lia. }
  assert (Hfire : runNext o2 st2
                  = setEnabled true
                      (setNow (Nat.max (now st2) (now st + n * 100))
                         (setPending setups st2))).
  { unfold runNext. rewrite Hearly. reflexivity. }
  rewrite Hfire. clear Hfire.
  set (st3 := setEnabled true _).
  (* the calls of setupDOMObserver find the flag on *)
  destruct (settling_phase (drop (S n) env) st3
              (mkObserver (negb (existsb reachesEnd (take n env)))))
    as (T3 & D3 & E3).
  { unfold st3. cbn. lia. }
  { unfold st3. cbn. eapply List.Forall_impl; [|exact S1]. intros y [_ Hy]. exact Hy. }
  { unfold st3. cbn. exact D1. }
  { reflexivity. }
  split; [exact T3|]. split; [exact E3 | exact D3].
Qed.

Lemma callback_collects_witness :
  observerEnabled Examples.watching = true
  /\ map fst (collect (processedElements Examples.watching) Examples.oneMutation
                (dataProcessed Examples.watching)).2 = [1]
  /\ pending (mutationCallback Examples.oneMutation Examples.watching)
     = [(1000, ProcessBlock 1 0 1 true)].
Proof.
  assert (H1 : observerEnabled Examples.watching = true) by reflexivity.
  assert (H2 : distinctPerNode Examples.oneMutation).
  { intros n Hn. vm_compute in Hn. destruct Hn as [<-|[]]. vm_compute.
    repeat constructor. intros H. inversion H. }
  assert (H3 : oneText (candidates Examples.oneMutation)).
  { intros i t t' Ht Ht'. vm_compute in Ht, Ht'.
    destruct Ht as [Ht|[]], Ht' as [Ht'|[]]. congruence. }
  split; [exact H1|]. split; [vm_compute; reflexivity|].
  destruct (callback_collects_each_block_once Examples.oneMutation Examples.watching H1 H2 H3)
    as (_ & _ & _ & T & _).
  rewrite T. vm_compute. reflexivity.
Defined.

Lemma examined_once_witness :
  let st2 := enableDOMObserver (mutationCallback Examples.oneMutation Examples.watching) in
  observerEnabled Examples.watching = true
  /\ (collect (processedElements st2) Examples.oneMutation (dataProcessed st2)).2 = [].
Proof.
  cbv zeta.
  set (st2 := enableDOMObserver (mutationCallback Examples.oneMutation Examples.watching)).
  assert (H1 : observerEnabled Examples.watching = true) by reflexivity.
  assert (H2 : dataProcessed (mutationCallback Examples.oneMutation Examples.watching)
               ⊆ dataProcessed st2) by reflexivity.
  split; [exact H1|].
  pose proof (proj1 (examined_block_is_never_collected_again Examples.oneMutation
                       Examples.oneMutation Examples.watching st2 H1 H2)) as H.
  destruct (collect (processedElements st2) Examples.oneMutation (dataProcessed st2)).2
    as [|b l] eqn:E; [reflexivity|].
  exfalso. vm_compute in E. discriminate E.
Defined.

Lemma batch_witness :
  domObserver Examples.watching = Some (mkObserver true)
  /\ observerEnabled Examples.watching = true
  /\ pending Examples.watching = []
  /\ domObserver (runTimers (repeat Examples.rendersFully 3)
                    (mutationCallback Examples.oneMutation Examples.watching))
     = Some (mkObserver false).
Proof.
  assert (H1 : domObserver Examples.watching = Some (mkObserver true)) by reflexivity.
  assert (H2 : observerEnabled Examples.watching = true) by reflexivity.
  assert (H3 : pending Examples.watching = []) by reflexivity.
  assert (H4 : 1 <= length (collect (processedElements Examples.watching)
                              Examples.oneMutation (dataProcessed Examples.watching)).2 <= 9)
    by (vm_compute; lia).
  assert (H5 : 2 * length (collect (processedElements Examples.watching)
                             Examples.oneMutation (dataProcessed Examples.watching)).2 + 1
               <= length (repeat Examples.rendersFully 3))
    by (vm_compute; lia).
  split; [exact H1|]. split; [exact H2|]. split; [exact H3|].
  exact (proj2 (proj2 (batch_leaves_observer_disconnected Examples.oneMutation
                         Examples.watching (repeat Examples.rendersFully 3)
                         H1 H2 H3 H4 H5))).
Defined.

End ObserverFacts.

(** * The scheduler on a live page *)

Module SystemFacts.
Import Ledger Sched Chain Render Page Buttons Shown Examples SchedFacts
  SchedulerFacts RenderFacts ElementFacts.
Local Open Scope nat_scope.

(** *** The callbacks of one scheduling *)

Lemma newTimers_app (st st' : State) (x : list (Q * Callback)) :
  timers st' = timers st ++ x -> newTimers st st' = x.
Proof. intros H. unfold newTimers. rewrite H. apply drop_app_length. Qed.

Lemma newTimers_same (st st' : State) :
  timers st' = timers st -> newTimers st st' = [].
Proof. intros H. unfold newTimers. rewrite H. apply drop_all. Qed.

Lemma descend_nil (runs : list Firing) : descend [] runs = ([], []).
Proof. induction runs as [|f runs IH]; [reflexivity|]. cbn. exact IH. Qed.

(** The counter a pending chain callback starts its pass with. *)
Lemma chain_fire (c : Ctx) (pending : list Callback) (cb : Callback) (i : nat) :
  isChain c pending -> pending !! i = Some cb ->
  i = 0 /\ delete i pending = []
  /\ exists n, (forall o st, fire cb o st = retry c n o st)
               /\ passesLeft pending = MAX_AUTO_EXECUTE_ATTEMPTS - n.
Proof.
  intros [->|[->|(k & ->)]] H.
  - discriminate H.
  - destruct i; [|discriminate H]. injection H as <-.
    split; [reflexivity|]. split; [reflexivity|].
    exists 0. split; [reflexivity|]. reflexivity.
  - destruct i; [|discriminate H]. injection H as <-.
    split; [reflexivity|]. split; [reflexivity|].
    exists k. split; [reflexivity|]. reflexivity.
Qed.

Lemma descend_chain (c : Ctx) (runs : list Firing) :
  forall pending, isChain c pending ->
  let r := descend pending runs in
  countAttempts r.1 <= passesLeft pending
  /\ countClicks r.1 <= 1
  /\ (countClicks r.1 = 1 -> r.2 = [])
  /\ isChain c r.2.
Proof.
  induction runs as [|f runs IH]; intros pending Hc; cbn [descend].
  { cbn -[passesLeft]. split; [unfold countAttempts; cbn; lia|].
    split; [unfold countClicks; cbn; lia|]. split; [intros H; discriminate H | exact Hc]. }
  destruct (pending !! which f) as [cb|] eqn:Hl; [|apply IH; exact Hc].
  destruct (chain_fire c pending cb (which f) Hc Hl) as (_ & Hdel & n & Hfire & Hleft).
  rewrite Hdel, Hfire, Hleft. cbn [app fst snd].
  destruct (retry_cases c n (sees f) (pageState f))
    as (_ & _ & [[_ Heq]|[(Hn & _ & Htm & ev & Hlog & Ha & Hk)|(Hn & _ & _ & Htm & b & _ & _ & Hlog)]]).
  - rewrite Heq, since_refl, (newTimers_same _ _ eq_refl), descend_nil.
    cbn [map app fst snd].
    split; [unfold countAttempts; cbn; lia|].
    split; [unfold countClicks; cbn; lia|]. split; [intros _; reflexivity | left; reflexivity].
  - rewrite (newTimers_app _ _ _ Htm), (since_app _ _ _ Hlog). cbn [map snd].
    destruct (IH [CbRetry c (S n)]) as (A & K & E & C).
    { right; right. eexists; reflexivity. }
    cbn [passesLeft] in A.
    change (EvAttempt (S n) :: ev) with ([EvAttempt (S n)] ++ ev).
    rewrite !countAttempts_app, !countClicks_app, Ha, Hk.
    change (countAttempts [EvAttempt (S n)]) with 1.
    change (countClicks [EvAttempt (S n)]) with 0.
    unfold MAX_AUTO_EXECUTE_ATTEMPTS in *.
    split; [lia|]. split; [lia|]. split; [intros H; apply E; lia | exact C].
  - rewrite (newTimers_same _ _ Htm), (since_app _ _ _ Hlog), descend_nil. cbn [map app fst snd].
    rewrite ?app_nil_r.
    change (countAttempts [EvAttempt (S n); EvClick b]) with 1.
    change (countClicks [EvAttempt (S n); EvClick b]) with 1.
    unfold MAX_AUTO_EXECUTE_ATTEMPTS in *.
    split; [lia|]. split; [lia|]. split; [intros _; reflexivity | left; reflexivity].
Qed.

(** A chain whose passes all fail: one attempt per firing until the eighth;
    the ninth callback gives up and nothing is left. *)
Lemma descend_all_fail (c : Ctx) (runs : list Firing) :
  forall (pending : list Callback) (n : nat),
  (pending = [CbRetry c n] \/ n = 0 /\ pending = [CbSetupAutoExecution c]) ->
  n <= MAX_AUTO_EXECUTE_ATTEMPTS ->
  Forall (fun f => which f = 0 /\ attemptFails c (sees f) = true) runs ->
  let r := descend pending runs in
  countAttempts r.1 = Nat.min (length runs) (MAX_AUTO_EXECUTE_ATTEMPTS - n)
  /\ countClicks r.1 = 0
  /\ (MAX_AUTO_EXECUTE_ATTEMPTS - n < length runs -> r.2 = []).
Proof.
  induction runs as [|f runs IH]; intros pending n Hp Hn Hall; cbn [descend].
  { cbn. split; [reflexivity|]. split; [reflexivity|]. intros H; lia. }
  inversion Hall as [|? ? (Hw & Hf) Hall']; subst.
  assert (Hl : pending !! which f = Some (hd CbScanner pending)
               /\ delete (which f) pending = []
               /\ forall o st, fire (hd CbScanner pending) o st = retry c n o st).
  { rewrite Hw. destruct Hp as [->|[-> ->]]; repeat split. }
  destruct Hl as (Hl & Hdel & Hfire). rewrite Hl, Hdel, Hfire. cbn [app fst snd].
  destruct (retry_cases c n (sees f) (pageState f))
    as (_ & _ & [[Hstop Heq]|[(Hlt & _ & Htm & ev & Hlog & Ha & Hk)|(_ & _ & Hact & _)]]).
  - destruct Hstop as [Hge|Hst].
    + rewrite Heq, since_refl, (newTimers_same _ _ eq_refl), descend_nil.
      cbn [map app fst snd].
      assert (Hz : MAX_AUTO_EXECUTE_ATTEMPTS - n = 0).
      { apply Nat.sub_0_le. exact Hge. }
      rewrite Hz.
      rewrite Nat.min_0_r. split; [reflexivity|]. split; reflexivity.
    + unfold attemptFails in Hf. rewrite Hst in Hf. discriminate.
  - rewrite (newTimers_app _ _ _ Htm), (since_app _ _ _ Hlog). cbn [map snd].
    destruct (IH [CbRetry c (S n)] (S n)) as (A & K & E); try assumption.
    { left; reflexivity. }
    change (EvAttempt (S n) :: ev) with ([EvAttempt (S n)] ++ ev).
    rewrite !countAttempts_app, !countClicks_app, Ha, Hk, A, K.
    change (countAttempts [EvAttempt (S n)]) with 1.
    change (countClicks [EvAttempt (S n)]) with 0.
    cbn [length]. unfold MAX_AUTO_EXECUTE_ATTEMPTS in *.
    split; [lia|]. split; [reflexivity|]. intros H; apply E; lia.
  - unfold attemptFails in Hf. rewrite Hact, andb_false_r in Hf. discriminate.
Qed.

Lemma directSucceeds_false (o : Obs) :
  directSucceeds o = false <->
  (containerButton o = None \/ clickThrows o = true
   \/ exists b, containerButton o = Some b /\ disabled (buttonState o b) = true).
Proof.
  unfold directSucceeds. destruct (containerButton o) as [b|].
  - destruct (disabled (buttonState o b)) eqn:Hd, (clickThrows o) eqn:Ht; cbn; split;
      try (intros _; eauto; fail); try discriminate.
    intros [H|[H|(b' & H & H')]]; try discriminate.
    injection H as <-. congruence.
  - split; auto.
Qed.

(** What one scheduling does at once, by the pre-checks and the direct
    attempt. *)
Lemma scheduling_start (c : Ctx) (o : Obs) (st : State) :
  let st1 := (autoExecuteSection c o st).2 in
  (preChecksPass c o st = false /\ since st st1 = [] /\ newTimers st st1 = [])
  \/ (preChecksPass c o st = true /\ directSucceeds o = true
      /\ newTimers st st1 = []
      /\ exists ev, since st st1 = EvMarkFunction (scheduledKey c) :: ev
                    /\ countAttempts ev = 0 /\ countClicks ev = 1)
  \/ (preChecksPass c o st = true /\ directSucceeds o = false
      /\ newTimers st st1 = [(50%Q, CbSetupAutoExecution c)]
      /\ exists ev, since st st1 = EvMarkFunction (scheduledKey c) :: ev
                    /\ countAttempts ev = 0 /\ countClicks ev = 0).
Proof.
  cbv zeta.
  destruct (autoExecuteSection_cases c o st)
    as [(Hp & _ & Hl & Htm & _)
       |(Hp & _ & _ & ev & Hl & Ha & [(b & Hb & Hd & Ht & Hk & Htm & _)|(Hk & Htm & Hwhy)])].
  - left. split; [exact Hp|]. split.
    + apply since_app. rewrite Hl, app_nil_r. reflexivity.
    + apply newTimers_same. exact Htm.
  - right; left. split; [exact Hp|]. split.
    { unfold directSucceeds. rewrite Hb, Hd, Ht. reflexivity. }
    split; [apply newTimers_same; exact Htm|].
    exists ev. split; [apply since_app; exact Hl|]. split; assumption.
  - right; right. split; [exact Hp|]. split.
    { apply directSucceeds_false. exact Hwhy. }
    split; [apply newTimers_app; exact Htm|].
    exists ev. split; [apply since_app; exact Hl|]. split; assumption.
Qed.

(** One scheduling, with its direct attempt and its whole retry chain,
    dispatches at most one activation that does not raise, whatever state
    the page is in when its callbacks fire and whatever they observe; after
    that activation nothing of the scheduling is pending.  When the
    pre-checks pass and the direct attempt succeeds, the activation is
    dispatched at once; when a pre-check fails, the scheduling does
    nothing. *)
Theorem scheduling_activates_at_most_once (c : Ctx) (o0 : Obs) (st0 : State)
    (runs : list Firing) :
  let r := scheduling c o0 st0 runs in
  countClicks r.1 <= 1
  /\ (countClicks r.1 = 1 -> r.2 = [])
  /\ (preChecksPass c o0 st0 = true -> directSucceeds o0 = true ->
      countClicks r.1 = 1)
  /\ (preChecksPass c o0 st0 = false -> r = ([], [])).
Proof.
  cbv zeta. unfold scheduling.
  destruct (scheduling_start c o0 st0)
    as [(Hp & -> & ->)|[(Hp & Hd & -> & ev & -> & Ha & Hk)|(Hp & Hd & -> & ev & -> & Ha & Hk)]];
    cbn [map snd].
  - rewrite descend_nil. cbn [fst snd app].
    split; [unfold countClicks; cbn; lia|]. split; [intros _; reflexivity|].
    split; [congruence | reflexivity].
  - rewrite descend_nil. cbn [fst snd]. rewrite app_nil_r.
    change (EvMarkFunction (scheduledKey c) :: ev)
      with ([EvMarkFunction (scheduledKey c)] ++ ev).
    rewrite !countClicks_app, Hk.
    change (countClicks [EvMarkFunction (scheduledKey c)]) with 0.
    split; [lia|]. split; [intros _; reflexivity|].
    split; [intros _ _; reflexivity | congruence].
  - destruct (descend_chain c runs [CbSetupAutoExecution c]) as (_ & K & E & _).
    { right; left; reflexivity. }
    cbn [fst snd].
    change (EvMarkFunction (scheduledKey c) :: ev)
      with ([EvMarkFunction (scheduledKey c)] ++ ev).
    rewrite !countClicks_app, Hk.
    change (countClicks [EvMarkFunction (scheduledKey c)]) with 0.
    split; [lia|]. split; [intros H; apply E; lia|].
    split; congruence.
Qed.

Lemma scheduling_once_witness :
  preChecksPass ctxSearch obsEnabled stLoaded = true
  /\ directSucceeds obsEnabled = true
  /\ countClicks (scheduling ctxSearch obsEnabled stLoaded [firingDisabled]).1 = 1
  /\ (scheduling ctxSearch obsEnabled stLoaded [firingDisabled]).2 = [].
Proof.
  assert (Hp : preChecksPass ctxSearch obsEnabled stLoaded = true) by reflexivity.
  assert (Hd : directSucceeds obsEnabled = true) by reflexivity.
  split; [exact Hp|]. split; [exact Hd|].
  destruct (scheduling_activates_at_most_once ctxSearch obsEnabled stLoaded [firingDisabled])
    as (_ & E & K & _).
  split; [exact (K Hp Hd) | exact (E (K Hp Hd))].
Defined.

(** *** The mark and the pending callbacks *)

Local Ltac in_union :=
  repeat first [ assumption
               | apply elem_of_union_l; apply elem_of_singleton; reflexivity
               | apply elem_of_union_r ].

(** The scheduling body only adds to the tracker; when the pre-checks pass
    it marks the block. *)
Lemma section_tracker (c : Ctx) (o : Obs) (st : State) :
  let r := autoExecuteSection c o st in
  (forall k, k ∈ executedFunctions (tracker st) ->
             k ∈ executedFunctions (tracker r.2))
  /\ (preChecksPass c o st = true ->
      isBlockExecuted (tracker r.2) (blockId c) = true).
Proof.
  cbv zeta. unfold autoExecuteSection, preChecksPass, executeDirectly, startRetries.
  destruct c as [fn bid cid sig]; cbn [functionName blockId extractedCallId contentSignature].
  destruct sig as [[|x s]|]; cbn [sigText];
    try destruct (getPreviousExecution (storage o) fn cid (x :: s)) eqn:Hs;
    cbn [negb andb fst snd].
  all: destruct (toggleState st) as [[| [|] |]|] eqn:Htg;
    cbn [negb andb autoExecuteIsTrue DEFAULT_AUTO_EXECUTE fst snd tracker setToggle].
  all: try (split; [intros k Hk; exact Hk | discriminate]).
  all: destruct (isBlockExecuted (tracker st) bid && (0 <? getAttempts (tracker st) bid)) eqn:Hb;
    cbn [negb andb fst snd tracker setToggle].
  all: try (split; [intros k Hk; exact Hk | discriminate]).
  all: destruct (containerButton o) as [b|]; cbn [fst snd].
  all: try destruct (disabled (buttonState o b)); cbn [fst snd].
  all: try destruct (clickThrows o); cbn [fst snd].
  all: cbn [tracker emit setTimeout markFunction markBlock setToggle
            markFunctionExecuted markBlockExecuted executedFunctions executed
            isBlockExecuted].
  all: split; [intros k Hk; in_union | intros _; apply bool_decide_eq_true_2; in_union].
Qed.

Lemma section_timers (c : Ctx) (o : Obs) (st : State) :
  let r := autoExecuteSection c o st in
  timers r.2 = timers st
  \/ (timers r.2 = timers st ++ [(50%Q, CbSetupAutoExecution c)]
      /\ scheduledKey c ∈ executedFunctions (tracker r.2)).
Proof.
  cbv zeta.
  destruct (autoExecuteSection_cases c o st)
    as [(_ & _ & _ & Htm & _)
       |(_ & _ & Hkey & ev & _ & _ & [(b & _ & _ & _ & _ & Htm & _)|(_ & Htm & _)])].
  - left; exact Htm.
  - left; exact Htm.
  - right. split; assumption.
Qed.

(** A callback leaves the tracker and the preference alone; the timeouts
    it sets are its own retry or belong to the scanner. *)
Lemma fire_frame (cb : Callback) (o : Obs) (st : State) :
  tracker (fire cb o st) = tracker st
  /\ toggleState (fire cb o st) = toggleState st
  /\ exists x, timers (fire cb o st) = timers st ++ x
               /\ Forall (fun y => chainOf y.2 = None
                                   \/ (chainOf y.2 = chainOf cb)) x.
Proof.
  destruct cb as [c|c n| |b|]; cbn [fire]; unfold setupAutoExecution.
  - destruct (retry_cases c 0 o st)
      as (Ht & Hg & [[_ Heq]|[(_ & _ & Htm & _)|(_ & _ & _ & Htm & _)]]);
      (split; [exact Ht|]; split; [exact Hg|]).
    + exists []. rewrite Heq, app_nil_r. split; [reflexivity | constructor].
    + eexists. split; [exact Htm|]. constructor; [right; reflexivity | constructor].
    + exists []. rewrite Htm, app_nil_r. split; [reflexivity | constructor].
  - destruct (retry_cases c n o st)
      as (Ht & Hg & [[_ Heq]|[(_ & _ & Htm & _)|(_ & _ & _ & Htm & _)]]);
      (split; [exact Ht|]; split; [exact Hg|]).
    + exists []. rewrite Heq, app_nil_r. split; [reflexivity | constructor].
    + eexists. split; [exact Htm|]. constructor; [right; reflexivity | constructor].
    + exists []. rewrite Htm, app_nil_r. split; [reflexivity | constructor].
  - rewrite scanner_schedule_eq. cbn [tracker toggleState timers].
    split; [reflexivity|]. split; [reflexivity|].
    eexists. split; [reflexivity|].
    apply Forall_app. split.
    + destruct (autoExecuteIsTrue (toggleState st)); [|constructor].
      apply List.Forall_forall. intros [d cb] Hin.
      apply clickTimers_lookup in Hin. destruct Hin as (i & b & p & _ & _ & -> & _).
      left; reflexivity.
    + constructor; [left; reflexivity | constructor].
  - unfold scannerClick.
    destruct (_ && _); [destruct (clickThrows o)|]; cbn [emit tracker toggleState timers];
      (split; [reflexivity|]; split; [reflexivity|]);
      exists []; rewrite app_nil_r; (split; [reflexivity | constructor]).
  - split; [reflexivity|]. split; [reflexivity|].
    exists []. rewrite app_nil_r. split; [reflexivity | constructor].
Qed.

Lemma lookup_delete_some {A} (l : list A) (i j : nat) (x : A) :
  delete i l !! j = Some x -> exists j', l !! j' = Some x.
Proof.
  intros H. apply list_elem_of_lookup_2 in H.
  assert (Hs : delete i l ⊆ l) by apply list_subseteq_delete.
  apply Hs in H. apply list_elem_of_lookup_1 in H. exact H.
Qed.

Lemma chainMarked_step (st st' : State) :
  Chain.step st st' -> chainMarked st ->
  chainMarked st'
  /\ forall k, k ∈ executedFunctions (tracker st) -> k ∈ executedFunctions (tracker st').
Proof.
  intros Hs Hm. destruct Hs as [c o st|i d cb o st Hi|st|tg st].
  - destruct (section_tracker c o st) as (Hmono & _). split; [|exact Hmono].
    intros j d cb c' Hj Hc.
    destruct (section_timers c o st) as [Htm|[Htm Hkey]]; rewrite Htm in Hj.
    + apply Hmono. exact (Hm j d cb c' Hj Hc).
    + apply lookup_app_Some in Hj. destruct Hj as [Hj|[_ Hj]].
      * apply Hmono. exact (Hm j d cb c' Hj Hc).
      * destruct (j - length (timers st)) as [|m]; [|discriminate Hj].
        injection Hj as <- <-. injection Hc as <-. exact Hkey.
  - destruct (fire_frame cb o (setTimers (delete i (timers st)) st))
      as (Ht & _ & x & Htm & Hx).
    cbn [tracker timers setTimers] in Ht, Htm.
    split; [|intros k Hk; rewrite Ht; exact Hk].
    intros j d' cb' c' Hj Hc. rewrite Ht. rewrite Htm in Hj.
    apply lookup_app_Some in Hj. destruct Hj as [Hj|[_ Hj]].
    + apply lookup_delete_some in Hj. destruct Hj as (j' & Hj).
      exact (Hm j' d' cb' c' Hj Hc).
    + apply list_elem_of_lookup_2 in Hj.
      rewrite List.Forall_forall in Hx. apply list_elem_of_In in Hj.
      destruct (Hx _ Hj) as [Hn|He]; cbn [snd] in *; [congruence|].
      rewrite Hc in He. symmetry in He. exact (Hm i d cb c' Hi He).
  - split; [|intros k Hk; exact Hk].
    intros j d cb c' Hj Hc. cbn [timers setTimeout tracker] in *.
    apply lookup_app_Some in Hj. destruct Hj as [Hj|[_ Hj]].
    + exact (Hm j d cb c' Hj Hc).
    + destruct (j - length (timers st)) as [|m]; [|discriminate Hj].
      injection Hj as <- <-. discriminate Hc.
  - split; [|intros k Hk; exact Hk].
    intros j d cb c' Hj Hc. exact (Hm j d cb c' Hj Hc).
Qed.

Lemma chainMarked_rtc (st st' : State) :
  rtc Chain.step st st' -> chainMarked st ->
  chainMarked st'
  /\ forall k, k ∈ executedFunctions (tracker st) -> k ∈ executedFunctions (tracker st').
Proof.
  induction 1 as [st|st st1 st2 Hs _ IH]; intros Hm.
  - split; [exact Hm | intros k Hk; exact Hk].
  - destruct (chainMarked_step _ _ Hs Hm) as (Hm1 & Hmono1).
    destruct (IH Hm1) as (Hm2 & Hmono2).
    split; [exact Hm2 | intros k Hk; apply Hmono2, Hmono1, Hk].
Qed.

Lemma chainMarked_loaded (tg : option Pref) : chainMarked (loaded tg).
Proof.
  intros i d cb c Hi Hc. unfold loaded in Hi. cbn [timers] in Hi.
  destruct i as [|[|i]]; try discriminate Hi; injection Hi as <- <-; discriminate Hc.
Qed.

(** C3.  In the auto-execution path the mark comes first.  When the
    pre-checks pass, the scheduling body logs the mark of the key before
    anything else, and after it the key is in the in-process set, the
    block is marked, and [isFunctionExecuted] answers true whatever storage
    holds; when a pre-check fails, the body attempts nothing.  On a live
    page, with any other timeouts pending and firing in any order, every
    pending callback of a retry chain belongs to a call whose key is in the
    set, the callback leaves the set as it is, and a key in the set stays
    in it: each retried attempt happens with the mark in place. *)
Theorem mark_before_attempts (c : Ctx) (o : Obs) (st : State) :
  reachable st ->
  let r := autoExecuteSection c o st in
  (preChecksPass c o st = true ->
     r.1 = false
     /\ (exists ev, since st r.2 = EvMarkFunction (scheduledKey c) :: ev)
     /\ scheduledKey c ∈ executedFunctions (tracker r.2)
     /\ isBlockExecuted (tracker r.2) (blockId c) = true
     /\ (forall s, isFunctionExecuted (tracker r.2) s (extractedCallId c)
                     (sigText (contentSignature c)) (Some (functionName c)) = true))
  /\ (preChecksPass c o st = false ->
      r.1 = true /\ since st r.2 = [] /\ timers r.2 = timers st
      /\ tracker r.2 = tracker st)
  /\ (forall i d cb c', timers st !! i = Some (d, cb) -> chainOf cb = Some c' ->
        scheduledKey c' ∈ executedFunctions (tracker st)
        /\ forall o', tracker (fire cb o' (setTimers (delete i (timers st)) st))
                      = tracker st)
  /\ (forall st' k, rtc Chain.step st st' -> k ∈ executedFunctions (tracker st) ->
        k ∈ executedFunctions (tracker st')).
Proof.
  intros (tg & Hr). cbv zeta.
  destruct (chainMarked_rtc _ _ Hr (chainMarked_loaded tg)) as (Hm & _).
  split; [|split; [|split]].
  - intros Hp.
    destruct (autoExecuteSection_cases c o st)
      as [(Hp' & _)|(_ & Hf & Hkey & ev & Hl & _)]; [congruence|].
    split; [exact Hf|]. split; [exists ev; apply since_app; exact Hl|].
    split; [exact Hkey|].
    split; [exact (proj2 (section_tracker c o st) Hp)|].
    intros s. apply isFunctionExecuted_of_scheduledKey. exact Hkey.
  - intros Hp.
    destruct (autoExecuteSection_cases c o st)
      as [(_ & Hf & Hl & Htm & Ht)|(Hp' & _)]; [|congruence].
    split; [exact Hf|]. split; [apply since_app; rewrite Hl, app_nil_r; reflexivity|].
    split; assumption.
  - intros i d cb c' Hi Hc. split; [exact (Hm i d cb c' Hi Hc)|].
    intros o'. exact (proj1 (fire_frame cb o' (setTimers (delete i (timers st)) st))).
  - intros st' k Hs Hk. exact (proj2 (chainMarked_rtc _ _ Hs Hm) k Hk).
Qed.

Lemma mark_before_attempts_witness :
  reachable stLoaded
  /\ scheduledKey ctxSearch
       ∈ executedFunctions (tracker (autoExecuteSection ctxSearch obsEnabled stLoaded).2).
Proof.
  assert (Hr : reachable stLoaded).
  { exists (Some (PrefBool true)). apply rtc_refl. }
  split; [exact Hr|].
  destruct (proj1 (mark_before_attempts ctxSearch obsEnabled stLoaded Hr))
    as (_ & _ & Hkey & _).
  - reflexivity.
  - exact Hkey.
Defined.

(** *** The buttons of a page *)

Lemma clicked_timeouts (ts : list (Q * Callback)) :
  clicked (map (fun x => EvSetTimeout x.2 x.1) ts) = [].
Proof. induction ts as [|x ts IH]; [reflexivity|]. cbn. exact IH. Qed.

(** A callback dispatches at most one click, to a button it sees enabled. *)
Lemma fire_clicked (cb : Callback) (o : Obs) (st : State) :
  clicked (since st (fire cb o st)) = []
  \/ exists b, clicked (since st (fire cb o st)) = [b]
               /\ disabled (buttonState o b) = false.
Proof.
  assert (Hretry : forall c n,
    clicked (since st (retry c n o st)) = []
    \/ exists b, clicked (since st (retry c n o st)) = [b]
                 /\ disabled (buttonState o b) = false).
  { intros c n. unfold retry.
    destruct (MAX_AUTO_EXECUTE_ATTEMPTS <? S n); [left; rewrite since_refl; reflexivity|].
    destruct (getPreviousExecution _ _ _ _); [left; rewrite since_refl; reflexivity|].
    destruct (buttonFor c o) as [b|].
    - destruct (disabled (buttonState o b)) eqn:Hd.
      + left. erewrite since_app; [|cbn [log emit setTimeout]; rewrite <- app_assoc; reflexivity].
        reflexivity.
      + destruct (clickThrows o).
        * right. exists b. split; [|exact Hd].
          erewrite since_app; [|cbn [log emit setTimeout]; rewrite <- !app_assoc; reflexivity].
          reflexivity.
        * right. exists b. split; [|exact Hd].
          erewrite since_app; [|cbn [log emit setTimeout]; rewrite <- !app_assoc; reflexivity].
          reflexivity.
    - left. erewrite since_app; [|cbn [log emit setTimeout]; rewrite <- app_assoc; reflexivity].
      reflexivity. }
  destruct cb as [c|c n| |b|]; cbn [fire]; unfold setupAutoExecution.
  - apply Hretry.
  - apply Hretry.
  - left. rewrite scanner_schedule_eq, since_self_app. apply clicked_timeouts.
  - unfold scannerClick.
    destruct (autoExecuteIsTrue (toggleState st)); cbn [andb];
      [|left; rewrite since_refl; reflexivity].
    destruct (disabled (buttonState o b)) eqn:Hd; cbn [negb andb];
      [left; rewrite since_refl; reflexivity|].
    destruct (autoExecReadyFalse (buttonState o b)); cbn [negb];
      [left; rewrite since_refl; reflexivity|].
    destruct (clickThrows o); right; exists b; (split; [|exact Hd]);
      (erewrite since_app; [|cbn [log emit]; reflexivity]); reflexivity.
  - left. rewrite since_refl. reflexivity.
Qed.

Lemma section_clicked (c : Ctx) (o : Obs) (st : State) :
  clicked (since st (autoExecuteSection c o st).2) = []
  \/ exists b, clicked (since st (autoExecuteSection c o st).2) = [b]
               /\ disabled (buttonState o b) = false.
Proof.
  unfold autoExecuteSection, executeDirectly, startRetries.
  destruct c as [fn bid cid sig]; cbn [functionName blockId extractedCallId contentSignature].
  destruct sig as [[|x s]|]; cbn [sigText];
    try destruct (getPreviousExecution (storage o) fn cid (x :: s));
    cbn [negb andb fst snd].
  all: try (left; reflexivity).
  all: destruct (toggleState st) as [[| [|] |]|];
    cbn [negb andb autoExecuteIsTrue DEFAULT_AUTO_EXECUTE fst snd tracker setToggle].
  all: try (left; unfold since; cbn [log setToggle]; rewrite drop_all; reflexivity).
  all: destruct (isBlockExecuted (tracker st) bid && (0 <? getAttempts (tracker st) bid));
    cbn [negb andb fst snd].
  all: try (left; unfold since; cbn [log setToggle]; rewrite drop_all; reflexivity).
  all: destruct (containerButton o) as [b|]; cbn [fst snd].
  all: try destruct (disabled (buttonState o b)) eqn:Hd; cbn [fst snd].
  all: try destruct (clickThrows o); cbn [fst snd].
  all: (erewrite since_app;
        [|cbn [log emit setTimeout markFunction markBlock setToggle];
          rewrite <- ?app_assoc; reflexivity]).
  all: first [ left; reflexivity | right; exists b; split; [reflexivity | exact Hd] ].
Qed.

Section AtMostOnce.

Variable handler : Button -> Button.
Variable envMay : (nat -> nat) -> (nat -> Button) -> (nat -> Button) -> Prop.

Hypothesis handler_disables : forall b, disabled (handler b) = true.
Hypothesis env_keeps_disabled :
  forall acts bs bs' b, envMay acts bs bs' -> 0 < acts b ->
    disabled (bs b) = true -> disabled (bs' b) = true.

Let inv (s : Sys) : Prop :=
  forall b, activations s b <= 1
            /\ (1 <= activations s b -> disabled (buttons s b) = true).

Lemma inv_activate (s : Sys) (b : nat) :
  inv s -> disabled (buttons s b) = false -> inv (activate handler b s).
Proof.
  intros Hi Hd b'. unfold activate. cbn [activations buttons].
  destruct (b' =? b) eqn:E.
  - apply Nat.eqb_eq in E. subst b'.
    destruct (Hi b) as (Ha & Hdis).
    assert (Hz : activations s b = 0).
    { destruct (activations s b) as [|n]; [reflexivity|].
      rewrite Hdis in Hd by lia. discriminate. }
    rewrite Hz. split; [lia | intros _; apply handler_disables].
  - apply Hi.
Qed.

Lemma inv_afterCallback (s : Sys) (o : Obs) (st' : State) :
  inv s -> observes s o ->
  (clicked (since (sched s) st') = []
   \/ exists b, clicked (since (sched s) st') = [b]
                /\ disabled (buttonState o b) = false) ->
  inv (afterCallback handler s st') /\ sched (afterCallback handler s st') = st'.
Proof.
  intros Hi (_ & Ho) [Hc|(b & Hc & Hd)]; unfold afterCallback; rewrite Hc; cbn [fold_left].
  - split; [exact Hi | reflexivity].
  - split; [|reflexivity]. apply inv_activate; [exact Hi|].
    cbn [buttons]. rewrite <- Ho. exact Hd.
Qed.

Lemma inv_step (s s' : Sys) :
  inv s -> Page.step handler envMay s s' ->
  inv s' /\ rtc Chain.step (sched s) (sched s').
Proof.
  intros Hi Hs. destruct Hs as [s c o Ho|s o i d cb Hl Ho|s b Hd|s|s st' bs' tg He].
  - destruct (inv_afterCallback s o _ Hi Ho (section_clicked c o (sched s))) as (H1 & H2).
    split; [exact H1|]. rewrite H2. apply rtc_once. constructor.
  - destruct (inv_afterCallback s o
                (fire cb o (setTimers (delete i (timers (sched s))) (sched s))) Hi Ho
                (fire_clicked cb o (setTimers (delete i (timers (sched s))) (sched s))))
      as (H1 & H2).
    split; [exact H1|]. rewrite H2. apply rtc_once. econstructor. exact Hl.
  - split; [apply inv_activate; assumption | apply rtc_refl].
  - split; [exact Hi | apply rtc_once; constructor].
  - split; [|apply rtc_once; constructor].
    intros b. destruct (Hi b) as (Ha & Hdis). cbn [activations buttons].
    split; [exact Ha|]. intros Hn.
    apply (env_keeps_disabled _ _ _ b He); [lia | apply Hdis; exact Hn].
Qed.

Lemma inv_rtc (s s' : Sys) :
  inv s -> rtc (Page.step handler envMay) s s' ->
  inv s' /\ rtc Chain.step (sched s) (sched s').
Proof.
  intros Hi Hr. induction Hr as [s|s s1 s2 Hs _ IH].
  - split; [exact Hi | apply rtc_refl].
  - destruct (inv_step _ _ Hi Hs) as (H1 & R1).
    destruct (IH H1) as (H2 & R2).
    split; [exact H2 | etransitivity; [exact R1 | exact R2]].
Qed.

Lemma inv_loaded (tg : option Pref) (st : Storage) (bs : nat -> Button) :
  inv (loadedSys tg st bs).
Proof. intros b. cbn. split; [lia | intros H; lia]. Qed.

End AtMostOnce.

(** The set of executed calls only grows along the steps of the scheduler. *)
Lemma executedFunctions_grow (st st' : State) :
  rtc Chain.step st st' ->
  forall k, k ∈ executedFunctions (tracker st) -> k ∈ executedFunctions (tracker st').
Proof.
  induction 1 as [st|st st1 st2 Hs _ IH]; intros k Hk; [exact Hk|].
  apply IH. destruct Hs as [c o st|i d cb o st Hi|st|tg st].
  - exact (proj1 (section_tracker c o st) k Hk).
  - rewrite (proj1 (fire_frame cb o (setTimers (delete i (timers st)) st))). exact Hk.
  - exact Hk.
  - exact Hk.
Qed.

(** No callback reads or writes the in-process set of executed calls. *)
Lemma fire_ignores_set (cb : Callback) (o : Obs) (st : State) (fs : gset jsstring) :
  fire cb o (setExecutedFunctions fs st) = setExecutedFunctions fs (fire cb o st).
Proof.
  destruct cb as [c|c n| |b|]; cbn [fire]; unfold setupAutoExecution.
  - unfold retry. destruct (_ <? _); [reflexivity|].
    destruct (getPreviousExecution _ _ _ _); [reflexivity|].
    destruct (buttonFor c o) as [b|]; [|reflexivity].
    destruct (disabled _); [reflexivity|]. destruct (clickThrows o); reflexivity.
  - unfold retry. destruct (_ <? _); [reflexivity|].
    destruct (getPreviousExecution _ _ _ _); [reflexivity|].
    destruct (buttonFor c o) as [b|]; [|reflexivity].
    destruct (disabled _); [reflexivity|]. destruct (clickThrows o); reflexivity.
  - rewrite !scanner_schedule_eq. reflexivity.
  - unfold scannerClick. cbn [toggleState setExecutedFunctions].
    destruct (_ && _); [destruct (clickThrows o)|]; reflexivity.
  - reflexivity.
Qed.

(** The scheduling body does not read the set either: its pre-checks ask
    storage, the preference, and the marks and attempt counts of blocks. *)
Lemma section_ignores_set (c : Ctx) (o : Obs) (st : State) (fs : gset jsstring) :
  let r := autoExecuteSection c o st in
  let r' := autoExecuteSection c o (setExecutedFunctions fs st) in
  r'.1 = r.1 /\ log r'.2 = log r.2 /\ timers r'.2 = timers r.2
  /\ toggleState r'.2 = toggleState r.2.
Proof.
  cbv zeta. unfold autoExecuteSection, executeDirectly, startRetries.
  destruct c as [fn bid cid sig]; cbn [functionName blockId extractedCallId contentSignature].
  destruct sig as [[|x s]|]; cbn [sigText];
    try destruct (getPreviousExecution (storage o) fn cid (x :: s));
    cbn [negb andb fst snd].
  all: try (repeat split; fail).
  all: cbn [toggleState setExecutedFunctions].
  all: destruct (toggleState st) as [[| [|] |]|];
    cbn [negb andb autoExecuteIsTrue DEFAULT_AUTO_EXECUTE fst snd tracker setToggle
         setExecutedFunctions].
  all: try (repeat split; fail).
  all: unfold isBlockExecuted, getAttempts; cbn [executed attempts].
  all: destruct (bool_decide (bid ∈ executed (tracker st))
                 && (0 <? default 0 (attempts (tracker st) !! bid)));
    cbn [negb andb fst snd].
  all: try (repeat split; fail).
  all: destruct (containerButton o) as [b|]; cbn [fst snd].
  all: try destruct (disabled (buttonState o b)); cbn [fst snd].
  all: try destruct (clickThrows o); cbn [fst snd].
  all: repeat split.
Qed.

(** C1, amended.  Suppose a run of the click handler leaves its button
    disabled, and nothing enables a button again once it has been
    activated.  Then on a page with any number of rendered blocks, along
    every interleaving of renderings, pending timeouts (retry passes, the
    periodic scanner and the clicks it schedules), manual clicks, and
    changes of storage, preference and buttons made elsewhere, the handler
    of each button runs at most once.  When the rendering path schedules
    an execution, it puts the key of the call in the in-process set, and
    the key stays there.  Neither the timeout callbacks nor the scheduling
    body ask the set: they do the same whatever it holds. *)
Theorem at_most_once_when_activation_disables
    (handler : Button -> Button)
    (envMay : (nat -> nat) -> (nat -> Button) -> (nat -> Button) -> Prop)
    (s : Sys) :
  (forall b, disabled (handler b) = true) ->
  (forall acts bs bs' b, envMay acts bs bs' -> 0 < acts b ->
     disabled (bs b) = true -> disabled (bs' b) = true) ->
  reachableSys handler envMay s ->
  (forall b, activations s b <= 1)
  /\ (forall c o s',
        observes s o -> preChecksPass c o (sched s) = true ->
        rtc (Page.step handler envMay)
            (afterCallback handler s (autoExecuteSection c o (sched s)).2) s' ->
        scheduledKey c ∈ executedFunctions (tracker (sched s')))
  /\ (forall cb o st fs,
        fire cb o (setExecutedFunctions fs st)
        = setExecutedFunctions fs (fire cb o st))
  /\ (forall c o st fs,
        let r := autoExecuteSection c o st in
        let r' := autoExecuteSection c o (setExecutedFunctions fs st) in
        r'.1 = r.1 /\ log r'.2 = log r.2 /\ timers r'.2 = timers r.2
        /\ toggleState r'.2 = toggleState r.2).
Proof.
  intros Hh He (tg & st & bs & Hr).
  destruct (inv_rtc handler envMay Hh He _ _ (inv_loaded tg st bs) Hr) as (Hi & _).
  split; [intros b; exact (proj1 (Hi b))|].
  split; [|split; [apply fire_ignores_set | apply section_ignores_set]].
  intros c o s' Ho Hp Hs'.
  destruct (inv_afterCallback handler Hh s o (autoExecuteSection c o (sched s)).2 Hi Ho
              (section_clicked c o (sched s))) as (Hi1 & Hsched).
  destruct (inv_rtc handler envMay Hh He _ _ Hi1 Hs') as (_ & Hsteps).
  rewrite Hsched in Hsteps.
  apply (executedFunctions_grow _ _ Hsteps).
  destruct (autoExecuteSection_cases c o (sched s)) as [(Hp' & _)|(_ & _ & Hkey & _)];
    [congruence | exact Hkey].
Qed.

Lemma at_most_once_witness :
  (forall b, disabled (disablingHandler b) = true)
  /\ reachableSys disablingHandler quietEnv sysRendered
  /\ activations sysRendered 0 = 1
  /\ forall b, activations sysRendered b <= 1.
Proof.
  assert (Hh : forall b, disabled (disablingHandler b) = true) by reflexivity.
  assert (He : forall acts bs bs' b, quietEnv acts bs bs' -> 0 < acts b ->
                 disabled (bs b) = true -> disabled (bs' b) = true).
  { intros acts bs bs' b -> _ H. exact H. }
  assert (Hr : reachableSys disablingHandler quietEnv sysRendered).
  { exists (Some (PrefBool true)), noStorage, (fun _ => enabledButton).
    eapply rtc_l; [|apply rtc_refl].
    apply (step_render _ _ sysStart ctxSearch obsEnabled).
    split; [reflexivity | intros b; reflexivity]. }
  split; [exact Hh|]. split; [exact Hr|]. split; [reflexivity|].
  exact (proj1 (at_most_once_when_activation_disables disablingHandler quietEnv
                  sysRendered Hh He Hr)).
Defined.

(** C1, as stated, fails, in two ways.  First: auto-execute is on and a
    run of the handler leaves the button enabled; the rendering path marks
    the key and clicks, the periodic scanner then finds the button
    enabled, schedules a click, and clicks again, although the key is in
    the set.  Second, whatever the handler does to its button: the same
    call is shown in a second block; storage holds no record yet, the key
    is already in the set, and the rendering path clicks the button of the
    second block as well. *)
Lemma call_activated_twice :
  (exists s,
     reachableSys idleHandler quietEnv s
     /\ activations s 0 = 2
     /\ scheduledKey ctxSearch ∈ executedFunctions (tracker (sched s)))
  /\ (forall handler : Button -> Button,
      exists s1 o s2,
        reachableSys handler quietEnv s1
        /\ activations s1 0 = 1
        /\ scheduledKey ctxSearch ∈ executedFunctions (tracker (sched s1))
        /\ observes s1 o
        /\ scheduledKey ctxSearchAgain = scheduledKey ctxSearch
        /\ s2 = afterCallback handler s1 (autoExecuteSection ctxSearchAgain o (sched s1)).2
        /\ activations s2 0 = 1 /\ activations s2 1 = 1).
Proof.
  split.
  - eexists. split; [|split].
    + exists (Some (PrefBool true)), noStorage, (fun _ => enabledButton).
      eapply rtc_l.
      { apply (step_render _ _ _ ctxSearch obsEnabled).
        split; [reflexivity | intros b; reflexivity]. }
      eapply rtc_l.
      { apply (step_timer _ _ _ obsEnabled 1 1000%Q CbScanner); [reflexivity|].
        split; [reflexivity | intros b; vm_compute; destruct b; reflexivity]. }
      eapply rtc_l.
      { apply (step_timer _ _ _ obsEnabled 1 (300 * inject_Z (Z.of_nat (0 + 1)))%Q
                 (CbScannerClick 0)); [reflexivity|].
        split; [reflexivity | intros b; vm_compute; destruct b; reflexivity]. }
      apply rtc_refl.
    + reflexivity.
    + vm_compute. reflexivity.
  - intros handler.
    set (s1 := afterCallback handler sysStart
                 (autoExecuteSection ctxSearch obsEnabled (sched sysStart)).2).
    set (o := mkObs noStorage (buttons s1) (Some 1) (allButtons obsSecond) false).
    exists s1, o, (afterCallback handler s1 (autoExecuteSection ctxSearchAgain o (sched s1)).2).
    split.
    { exists (Some (PrefBool true)), noStorage, (fun _ => enabledButton).
      eapply rtc_l; [|apply rtc_refl].
      apply (step_render _ _ sysStart ctxSearch obsEnabled).
      split; [reflexivity | intros b; reflexivity]. }
    split; [reflexivity|].
    split; [vm_compute; reflexivity|].
    split; [split; [reflexivity | intros b; reflexivity]|].
    split; [reflexivity|]. split; [reflexivity|].
    split; reflexivity.
Qed.

(** *** The retry ceiling *)

(** Nothing in the file counts attempts: the counters of the tracker stay
    as they are. *)
Lemma attempts_untouched (st st' : State) :
  rtc Chain.step st st' -> attempts (tracker st') = attempts (tracker st).
Proof.
  induction 1 as [st|st st1 st2 Hs _ IH]; [reflexivity|].
  rewrite IH. clear IH. destruct Hs as [c o st|i d cb o st Hi|st|tg st].
  - unfold autoExecuteSection, executeDirectly, startRetries.
    destruct (match contentSignature c with Some (_ :: _ as s) => _ | _ => false end);
      [reflexivity|].
    destruct (negb _); [reflexivity|].
    destruct (_ && _); [reflexivity|].
    destruct (contentSignature c) as [[|x s]|];
      destruct (containerButton o) as [b|]; cbn [fst snd];
      try destruct (disabled (buttonState o b)); cbn [fst snd];
      try destruct (clickThrows o); reflexivity.
  - rewrite (proj1 (fire_frame cb o (setTimers (delete i (timers st)) st))). reflexivity.
  - reflexivity.
  - reflexivity.
Qed.

(** C4, amended.  Each scheduling performs at most 8 retry passes that look
    for the button, whatever state the page is in when its callbacks fire.
    When the pre-checks pass, the direct attempt fails and every pass fails
    (no record in storage, no activation that succeeds), one pass is made
    per firing up to the eighth; the ninth callback gives up, and nothing
    of the scheduling is pending any more.  A callback that gives up
    changes nothing on the page: the rendered block stays as it is.  The
    bound is per scheduling: on a live page the attempt counter of every
    block stays 0, so the guard of lines 700-703 never stops a later
    scheduling of the same block. *)
Theorem retry_ceiling (c : Ctx) (o0 : Obs) (st0 : State) (runs : list Firing) :
  let r := scheduling c o0 st0 runs in
  countAttempts r.1 <= MAX_AUTO_EXECUTE_ATTEMPTS
  /\ (preChecksPass c o0 st0 = true -> directSucceeds o0 = false ->
      Forall (fun f => which f = 0 /\ attemptFails c (sees f) = true) runs ->
      countAttempts r.1 = Nat.min (length runs) MAX_AUTO_EXECUTE_ATTEMPTS
      /\ countClicks r.1 = 0
      /\ (MAX_AUTO_EXECUTE_ATTEMPTS < length runs -> r.2 = []))
  /\ (forall n o w, MAX_AUTO_EXECUTE_ATTEMPTS <= n ->
        fireOnPage (CbRetry c n) o w = w)
  /\ (forall st b, reachable st -> getAttempts (tracker st) b = 0).
Proof.
  cbv zeta. unfold scheduling. cbn [fst snd].
  split; [|split; [|split]].
  - destruct (scheduling_start c o0 st0)
      as [(_ & -> & ->)|[(_ & _ & -> & ev & -> & Ha & _)|(_ & _ & -> & ev & -> & Ha & _)]];
      cbn [map snd].
    + rewrite descend_nil. cbn. unfold countAttempts. cbn. lia.
    + rewrite descend_nil. cbn [fst]. rewrite app_nil_r.
      change (EvMarkFunction (scheduledKey c) :: ev)
        with ([EvMarkFunction (scheduledKey c)] ++ ev).
      rewrite countAttempts_app, Ha. cbn. lia.
    + destruct (descend_chain c runs [CbSetupAutoExecution c]) as (A & _).
      { right; left; reflexivity. }
      cbn [passesLeft] in A.
      change (EvMarkFunction (scheduledKey c) :: ev)
        with ([EvMarkFunction (scheduledKey c)] ++ ev).
      rewrite !countAttempts_app, Ha.
      change (countAttempts [EvMarkFunction (scheduledKey c)]) with 0. lia.
  - intros Hp Hd Hall.
    destruct (scheduling_start c o0 st0)
      as [(Hp' & _)|[(_ & Hd' & _)|(_ & _ & -> & ev & -> & Ha & Hk)]];
      [congruence | congruence |].
    cbn [map snd].
    destruct (descend_all_fail c runs [CbSetupAutoExecution c] 0) as (A & K & E).
    { right; split; reflexivity. }
    { lia. }
    { exact Hall. }
    rewrite Nat.sub_0_r in A, E.
    change (EvMarkFunction (scheduledKey c) :: ev)
      with ([EvMarkFunction (scheduledKey c)] ++ ev).
    rewrite !countAttempts_app, !countClicks_app, Ha, Hk, A, K.
    split; [reflexivity|]. split; [reflexivity | exact E].
  - intros n o w Hn. unfold fireOnPage. cbn [fire].
    destruct (retry_cases c n o (page w)) as (_ & _ & [[_ ->]|[(Hlt & _)|(Hlt & _)]]);
      [destruct w; reflexivity | lia | lia].
  - intros st b (tg & Hr). unfold getAttempts.
    rewrite (attempts_untouched _ _ Hr). reflexivity.
Qed.

Lemma retry_ceiling_witness :
  let r := scheduling ctxSearch obsDisabled stLoaded (repeat firingDisabled 9) in
  countAttempts r.1 = 8 /\ countClicks r.1 = 0 /\ r.2 = [].
Proof.
  cbv zeta.
  destruct (proj1 (proj2 (retry_ceiling ctxSearch obsDisabled stLoaded
                            (repeat firingDisabled 9))))
    as (A & K & E).
  - reflexivity.
  - reflexivity.
  - repeat constructor.
  - split; [exact A|]. split; [exact K|]. apply E. cbn. unfold MAX_AUTO_EXECUTE_ATTEMPTS. lia.
Defined.


(** C4, as stated, fails: the bound is not per block.  The block block-1 is
    scheduled while its button is disabled and its eight passes fail; it
    is then marked executed, but its attempt counter is still 0, so the
    pre-checks pass again; a second scheduling of the same block makes
    eight more passes: sixteen for the block, and no other block was ever
    marked. *)
Lemma second_scheduling_gets_eight_more :
  countAttempts (log firstScheduling) = 8
  /\ isBlockExecuted (tracker firstScheduling) (blockId ctxSearch) = true
  /\ getAttempts (tracker firstScheduling) (blockId ctxSearch) = 0
  /\ preChecksPass ctxSearch obsDisabled firstScheduling = true
  /\ countAttempts (log secondScheduling) = 16
  /\ countClicks (log secondScheduling) = 0
  /\ forallb (isMarkOfBlock (blockId ctxSearch)) (log secondScheduling) = true.
Proof. vm_compute. repeat split. Qed.

(** *** Rendering as steps of the scheduler *)

Lemma renderControls_steps (info : FunctionInfo) (c : Ctx) (o : Obs)
    (d : BlockDiv) (w : World) :
  rtc Chain.step (page w) (page (renderControls info c o d w).2).
Proof.
  unfold renderControls.
  set (r1 := match functionButtons d with Some _ => (d, w) | None => _ end).
  assert (H1 : page r1.2 = page w) by (unfold r1; destruct (functionButtons d); reflexivity).
  destruct r1 as [d1 w1]. cbn [fst snd] in H1.
  set (r2 := if isComplete info && negb (hasRawToggle d1) then _ else (d1, w1)).
  assert (H2 : page r2.2 = page w1)
    by (unfold r2; destruct (isComplete info && negb (hasRawToggle d1)); reflexivity).
  destruct r2 as [d2 w2]. cbn [fst snd] in H2.
  assert (Hpause : forall w', rtc Chain.step (page w') (page (pauseObserver w'))).
  { intros w'. unfold pauseObserver. destruct (domObserver w'); cbn [page setPage].
    - apply rtc_once. constructor.
    - apply rtc_refl. }
  rewrite <- H1, <- H2.
  destruct (isComplete info && match firstExecuteButton d2 with None => true | _ => false end).
  - unfold addExecuteButton.
    match goal with |- context [autoExecuteSection c ?o' ?p] =>
      assert (Hs : Chain.step p (autoExecuteSection c o' p).2) by constructor;
      destruct (autoExecuteSection c o' p) as [early p'] end.
    cbn [snd] in Hs. cbn [page setNextButton create] in Hs.
    destruct early; unfold commit; cbn [snd page setRegistry setPage].
    + apply rtc_once. exact Hs.
    + eapply rtc_l; [exact Hs|].
      match goal with |- rtc _ _ (page (pauseObserver ?w')) =>
        exact (Hpause w') end.
  - unfold commit. cbn [snd page setRegistry]. apply Hpause.
Qed.

Section Rendering.

Variable ParamMap : Type.
Variable containsFunctionCalls : jsstring -> FunctionInfo.
Variable extractLanguageTag : jsstring -> option jsstring * jsstring.
Variable extractFunctionParameters : jsstring -> option ParamMap.
Variable generateContentSignature : jsstring -> ParamMap -> jsstring.

Local Abbreviation render :=
  (renderFunctionCall ParamMap containsFunctionCalls extractLanguageTag
     extractFunctionParameters generateContentSignature).

(** A run of [renderFunctionCall] moves the scheduler by the steps of the
    live page: at most one run of the scheduling body, then at most the
    timeout that sets the observer up again. *)
Lemma render_steps (gen : jsstring) (o : Obs) (w : World) :
  rtc Chain.step (page w) (page (render gen o w).2).
Proof.
  unfold renderFunctionCall.
  destruct (negb (hasFunctionCalls (containsFunctionCalls (textContent (block w))))
            || insideFunctionBlock (block w)).
  { apply rtc_refl. }
  set (bid := blockIdOf gen w).
  set (info := containsFunctionCalls (textContent (block w))).
  assert (Hbid : bid <> []) by apply blockIdOf_nonempty.
  destruct (lookupExisting_page bid w) as (Lp & _).
  destruct (lookupExisting bid w) as [ex w0]. cbn [fst snd] in *.
  set (wa := if match ex with None => true | Some _ => false end && negb (processed w0)
             then _ else w0).
  assert (Pa : page wa = page w) by (unfold wa; destruct (_ && _); cbn; auto).
  clearbody wa.
  destruct (extractLanguageTag (trim (textContent (block wa)))) as [tag content].
  set (cid := match invokeRegex content with
              | Some (_, Some ((_ :: _) as c)) => c | _ => bid end).
  set (fn := match invokeRegex content with Some (n, _) => n | None => _ end).
  assert (Hcid : cid <> []) by (apply callId_nonempty; exact Hbid).
  set (r0 := match ex with Some d => (d, wa) | None => _ end).
  assert (P0 : page r0.2 = page w) by (unfold r0; destruct ex; cbn; exact Pa).
  destruct r0 as [d0 w0']. cbn [fst snd] in P0.
  match goal with |- context [stateTransitions ?isNew ?prev info ?pre tag d0 w0'] =>
    destruct (pipeline_spec isNew prev info pre tag fn cid bid
                (trim (textContent (block wa))) d0 w0' Hcid)
      as (x & kids' & n' & F & _);
    destruct (stateTransitions isNew prev info pre tag d0 w0') as [d1 w1] end.
  cbn [fst snd] in *.
  destruct (renderName _ _ _ _ d1 w1) as [d2 w2]. cbn [fst snd] in *.
  destruct (renderParamsIn _ _ d2 w2) as [d3 w3]. cbn [fst snd] in *.
  destruct F as (_ & _ & _ & _ & _ & _ & _ & Fp & _).
  assert (Hctl : forall c d' w', page w' = page w3 ->
            rtc Chain.step (page w) (page (renderControls info c o d' w').2)).
  { intros c d' w' Hp. rewrite <- P0, <- Fp, <- Hp. apply renderControls_steps. }
  destruct ex as [dx|]; cbn [andb].
  - apply Hctl; reflexivity.
  - destruct (negb (hasParent (block w3))).
    + cbn [snd]. unfold commit. cbn [page setRegistry]. rewrite Fp, P0. apply rtc_refl.
    + apply Hctl; reflexivity.
Qed.

End Rendering.

End SystemFacts.
